(** * SoftBodySystem: a shallow embedding of src/utils/softBodySystem.ts

    The physics kernel of the interactive design app: a 2D mass-spring
    system (points, breakable sticks) and a 3D kinematic rigid-body system
    with a per-hand grab / pinch interaction router.

    JavaScript numbers are IEEE-754 binary64 values; they are modelled by
    Rocq's primitive floats, so every arithmetic step below rounds, divides
    by zero and propagates NaN exactly as the TypeScript does.  Objects that
    the source shares by reference (the [Point]s that sticks and springs
    point to, the bodies of [rigidBodies]) live in an indexed store and are
    referred to by their index.

    The embedding follows the current version of the class, the one with
    the dragon body and the scale-based collider radius.  After the class
    come its two companions: the particle system of
    src/utils/particleSystem.ts, and the frame loop of
    src/components/Visualizer.tsx, which reads the gestures of the hands
    and calls the two systems. *)

From Stdlib Require Import Floats ZArith.
From Stdlib Require Uint63.
From stdpp Require Import base option list strings.

Set Warnings "-inexact-float".
Set Default Proof Using "Type".

(** ** Numbers *)

Abbreviation number := float.

(** The source's [a > b]; like [<], it is false when either side is NaN. *)
Notation "a >? b" := (PrimFloat.ltb b a) (at level 70, no associativity) : float_scope.

(** [Math.sqrt], [Math.abs], [Math.max] and the constant [Infinity]. *)
Module Math.

Definition sqrt (a : number) : number := PrimFloat.sqrt a.
Definition abs (a : number) : number := PrimFloat.abs a.

(** [Math.max] of two numbers: NaN when either is NaN, and +0 is larger
    than -0. *)
Definition max2 (a b : number) : number :=
  if PrimFloat.is_nan a || PrimFloat.is_nan b then nan
  else if (a <? b)%float then b
  else if (b <? a)%float then a
  else if PrimFloat.get_sign a then b else a.

Definition max3 (a b c : number) : number := max2 (max2 a b) c.

End Math.

Definition Infinity : number := infinity.

(** ** Data model (the declarations of ../types) *)

Module Vector3.
Record t := mk { x : number; y : number; z : number }.
End Vector3.

Module Quaternion.
Record t := mk { x : number; y : number; z : number; w : number }.
End Quaternion.

(** A [Point] reference is its index in the point store. *)
Abbreviation ref := nat.

Module Point.
Record t := mk {
  x : number; y : number;
  oldX : number; oldY : number;
  isPinned : bool;
  u : number; v : number;
  mass : option number;
  radius : option number;
  color : option string
}.

Definition set_x (p : t) (n : number) : t :=
  mk n (y p) (oldX p) (oldY p) (isPinned p) (u p) (v p) (mass p) (radius p) (color p).
Definition set_y (p : t) (n : number) : t :=
  mk (x p) n (oldX p) (oldY p) (isPinned p) (u p) (v p) (mass p) (radius p) (color p).
Definition set_oldX (p : t) (n : number) : t :=
  mk (x p) (y p) n (oldY p) (isPinned p) (u p) (v p) (mass p) (radius p) (color p).
Definition set_oldY (p : t) (n : number) : t :=
  mk (x p) (y p) (oldX p) n (isPinned p) (u p) (v p) (mass p) (radius p) (color p).
Definition set_isPinned (p : t) (b : bool) : t :=
  mk (x p) (y p) (oldX p) (oldY p) b (u p) (v p) (mass p) (radius p) (color p).
End Point.

Module Stick.
Record t := mk {
  p0 : ref; p1 : ref;
  length : number;
  isHidden : option bool;
  color : option string;
  thickness : option number
}.
End Stick.

Inductive ObjectType :=
  | generic | car | plant | castle | horn | devil_horn | image.

Definition is_devil_horn (ty : ObjectType) : bool :=
  match ty with devil_horn => true | _ => false end.

(** The procedural data a devil horn keeps in its [config]. *)
Module HornConfig.
Record t := mk {
side : string;
baseAngle : option number;
scale : option number
}.
End HornConfig.

(** The rendering payload [texture] holds a host image that no physics
    routine reads; it is left out. *)
Module SoftBodyObject.
Record t := mk {
id : string;
type : ObjectType;
points : list ref;
sticks : list Stick.t;
color : string;
isMesh : option bool;
growth : option number;
config : option HornConfig.t
}.

Definition set_points (o : t) (p : list ref) : t :=
mk (id o) (type o) p (sticks o) (color o) (isMesh o) (growth o) (config o).
Definition set_sticks (o : t) (s : list Stick.t) : t :=
mk (id o) (type o) (points o) s (color o) (isMesh o) (growth o) (config o).
Definition set_growth (o : t) (g : option number) : t :=
mk (id o) (type o) (points o) (sticks o) (color o) (isMesh o) g (config o).
Definition set_config (o : t) (c : option HornConfig.t) : t :=
mk (id o) (type o) (points o) (sticks o) (color o) (isMesh o) (growth o) c.
End SoftBodyObject.

Module Face.
Record t := mk { indices : list nat; color : option string }.
End Face.

Module DragonConfig.
Record t := mk {
  jawAngle : number;
  neckPhase : number;
  wingPhase : number;
  eyeColor : string;
  scale : number
}.
End DragonConfig.

Inductive BodyType := cube | pyramid | dragon.

Definition is_dragon (ty : BodyType) : bool :=
  match ty with dragon => true | _ => false end.

Module RigidBody3D.
Record t := mk {
  id : string;
  type : BodyType;
  position : Vector3.t;
  rotation : Quaternion.t;
  scale : Vector3.t;
  velocity : Vector3.t;
  angularVelocity : Vector3.t;
  vertices : list Vector3.t;
  faces : list Face.t;
  isHeld : bool;
  snapTarget : option string;
  snapTimer : number;
  color : string;
  glow : number;
  dragonConfig : option DragonConfig.t
}.

Definition set_position (b : t) (p : Vector3.t) : t :=
  mk (id b) (type b) p (rotation b) (scale b) (velocity b) (angularVelocity b)
     (vertices b) (faces b) (isHeld b) (snapTarget b) (snapTimer b) (color b)
     (glow b) (dragonConfig b).
Definition set_rotation (b : t) (q : Quaternion.t) : t :=
  mk (id b) (type b) (position b) q (scale b) (velocity b) (angularVelocity b)
     (vertices b) (faces b) (isHeld b) (snapTarget b) (snapTimer b) (color b)
     (glow b) (dragonConfig b).
Definition set_velocity (b : t) (p : Vector3.t) : t :=
  mk (id b) (type b) (position b) (rotation b) (scale b) p (angularVelocity b)
     (vertices b) (faces b) (isHeld b) (snapTarget b) (snapTimer b) (color b)
     (glow b) (dragonConfig b).
Definition set_isHeld (b : t) (h : bool) : t :=
  mk (id b) (type b) (position b) (rotation b) (scale b) (velocity b) (angularVelocity b)
     (vertices b) (faces b) h (snapTarget b) (snapTimer b) (color b)
     (glow b) (dragonConfig b).
Definition set_snapTarget (b : t) (s : option string) : t :=
  mk (id b) (type b) (position b) (rotation b) (scale b) (velocity b) (angularVelocity b)
     (vertices b) (faces b) (isHeld b) s (snapTimer b) (color b)
     (glow b) (dragonConfig b).
Definition set_snapTimer (b : t) (n : number) : t :=
  mk (id b) (type b) (position b) (rotation b) (scale b) (velocity b) (angularVelocity b)
     (vertices b) (faces b) (isHeld b) (snapTarget b) n (color b)
     (glow b) (dragonConfig b).
Definition set_glow (b : t) (n : number) : t :=
  mk (id b) (type b) (position b) (rotation b) (scale b) (velocity b) (angularVelocity b)
     (vertices b) (faces b) (isHeld b) (snapTarget b) (snapTimer b) (color b)
     n (dragonConfig b).
Definition set_dragonConfig (b : t) (c : option DragonConfig.t) : t :=
  mk (id b) (type b) (position b) (rotation b) (scale b) (velocity b) (angularVelocity b)
     (vertices b) (faces b) (isHeld b) (snapTarget b) (snapTimer b) (color b)
     (glow b) c.
End RigidBody3D.

(** ** [Map<number, V>]

    A JavaScript [Map] iterates in insertion order, and [set] on a present
    key keeps the key's place; hand ids are the indices of the detected
    hands. *)
Module JsMap.
Section Ops.
Context {V : Type}.

Fixpoint get (k : nat) (m : list (nat * V)) : option V :=
  match m with
  | [] => None
  | (k', v) :: rest => if Nat.eqb k' k then Some v else get k rest
  end.

Definition has (k : nat) (m : list (nat * V)) : bool :=
  match get k m with Some _ => true | None => false end.

Fixpoint set (k : nat) (v : V) (m : list (nat * V)) : list (nat * V) :=
  match m with
  | [] => [(k, v)]
  | (k', v') :: rest =>
      if Nat.eqb k' k then (k, v) :: rest else (k', v') :: set k v rest
  end.

Fixpoint delete (k : nat) (m : list (nat * V)) : list (nat * V) :=
  match m with
  | [] => []
  | (k', v') :: rest =>
      if Nat.eqb k' k then rest else (k', v') :: delete k rest
  end.
End Ops.
End JsMap.

Module Spring.
Record t := mk { point : ref; anchorX : number; anchorY : number }.
End Spring.

Module Hold.
Record t := mk {
  bodyId : string;
  offset : Vector3.t;
  initialHandRot : number;
  initialObjRot : Quaternion.t
}.
End Hold.

(** The simulation context: the fields of [class SoftBodySystem], plus the
    store [pointStore] holding the [Point] objects the other fields refer to. *)
Module SoftBodySystem.
Record t := mk {
  pointStore : list Point.t;
  objects : list SoftBodyObject.t;
  rigidBodies : list RigidBody3D.t;
  mouseSprings : list (nat * Spring.t);
  heldObjects : list (nat * Hold.t);
  gravity : number;
  drag : number;
  groundFriction : number;
  solverIterations : nat;
  stiffness : number;
  breakingThreshold : number;
  horns : list string;
  time : number
}.

Definition set_pointStore (s : t) (h : list Point.t) : t :=
  mk h (objects s) (rigidBodies s) (mouseSprings s) (heldObjects s) (gravity s)
     (drag s) (groundFriction s) (solverIterations s) (stiffness s)
     (breakingThreshold s) (horns s) (time s).
Definition set_objects (s : t) (o : list SoftBodyObject.t) : t :=
  mk (pointStore s) o (rigidBodies s) (mouseSprings s) (heldObjects s) (gravity s)
     (drag s) (groundFriction s) (solverIterations s) (stiffness s)
     (breakingThreshold s) (horns s) (time s).
Definition set_rigidBodies (s : t) (b : list RigidBody3D.t) : t :=
  mk (pointStore s) (objects s) b (mouseSprings s) (heldObjects s) (gravity s)
     (drag s) (groundFriction s) (solverIterations s) (stiffness s)
     (breakingThreshold s) (horns s) (time s).
Definition set_mouseSprings (s : t) (m : list (nat * Spring.t)) : t :=
  mk (pointStore s) (objects s) (rigidBodies s) m (heldObjects s) (gravity s)
     (drag s) (groundFriction s) (solverIterations s) (stiffness s)
     (breakingThreshold s) (horns s) (time s).
Definition set_heldObjects (s : t) (m : list (nat * Hold.t)) : t :=
  mk (pointStore s) (objects s) (rigidBodies s) (mouseSprings s) m (gravity s)
     (drag s) (groundFriction s) (solverIterations s) (stiffness s)
     (breakingThreshold s) (horns s) (time s).
Definition set_time (s : t) (n : number) : t :=
  mk (pointStore s) (objects s) (rigidBodies s) (mouseSprings s) (heldObjects s)
     (gravity s) (drag s) (groundFriction s) (solverIterations s) (stiffness s)
     (breakingThreshold s) (horns s) n.

(** The field initialisers of the class. *)
Definition initial : t :=
  mk [] [] [] [] [] 0.5%float 0.95%float 0.8%float 16 1.0%float 10.0%float [] 0%float.

(** [reset]: everything is dropped but the parameters and the clock. *)
Definition reset (s : t) : t :=
  mk [] [] [] [] [] (gravity s) (drag s) (groundFriction s) (solverIterations s)
     (stiffness s) (breakingThreshold s) [] (time s).
End SoftBodySystem.

Local Open Scope float_scope.

(** ** Math kernel *)

Definition vAdd (a b : Vector3.t) : Vector3.t :=
  Vector3.mk (Vector3.x a + Vector3.x b) (Vector3.y a + Vector3.y b) (Vector3.z a + Vector3.z b).

Definition vSub (a b : Vector3.t) : Vector3.t :=
  Vector3.mk (Vector3.x a - Vector3.x b) (Vector3.y a - Vector3.y b) (Vector3.z a - Vector3.z b).

Definition vScale (a : Vector3.t) (s : number) : Vector3.t :=
  Vector3.mk (Vector3.x a * s) (Vector3.y a * s) (Vector3.z a * s).

Definition vLen (a : Vector3.t) : number :=
  Math.sqrt (Vector3.x a * Vector3.x a + Vector3.y a * Vector3.y a + Vector3.z a * Vector3.z a).

Definition vCross (a b : Vector3.t) : Vector3.t :=
  Vector3.mk (Vector3.y a * Vector3.z b - Vector3.z a * Vector3.y b)
             (Vector3.z a * Vector3.x b - Vector3.x a * Vector3.z b)
             (Vector3.x a * Vector3.y b - Vector3.y a * Vector3.x b).

Definition vNorm (a : Vector3.t) : Vector3.t :=
  let l := vLen a in
  if l >? 0 then vScale a (1 / l) else Vector3.mk 0 0 0.

Definition qMult (q1 q2 : Quaternion.t) : Quaternion.t :=
  let '(Quaternion.mk x1 y1 z1 w1) := q1 in
  let '(Quaternion.mk x2 y2 z2 w2) := q2 in
  Quaternion.mk (w1 * x2 + x1 * w2 + y1 * z2 - z1 * y2)
                (w1 * y2 - x1 * z2 + y1 * w2 + z1 * x2)
                (w1 * z2 + x1 * y2 - y1 * x2 + z1 * w2)
                (w1 * w2 - x1 * x2 - y1 * y2 - z1 * z2).

Definition vRotate (v : Vector3.t) (q : Quaternion.t) : Vector3.t :=
  let '(Vector3.mk vx vy vz) := v in
  let '(Quaternion.mk qx qy qz qw) := q in
  let ix := qw * vx + qy * vz - qz * vy in
  let iy := qw * vy + qz * vx - qx * vz in
  let iz := qw * vz + qx * vy - qy * vx in
  let iw := - qx * vx - qy * vy - qz * vz in
  Vector3.mk (ix * qw + iw * - qx + iy * - qz - iz * - qy)
             (iy * qw + iw * - qy + iz * - qx - ix * - qz)
             (iz * qw + iw * - qz + ix * - qy - iy * - qx).

(** ** Rigid bodies: hit test, stacking, lookup by id *)

(** [this.rigidBodies.find(b => b.id === id)], as the index of the body found. *)
Fixpoint findBodyFrom (id : string) (bodies : list RigidBody3D.t) (idx : nat) : option nat :=
  match bodies with
  | [] => None
  | b :: rest =>
      if String.eqb (RigidBody3D.id b) id then Some idx
      else findBodyFrom id rest (S idx)
  end.

Definition findBody (id : string) (bodies : list RigidBody3D.t) : option nat :=
  findBodyFrom id bodies 0.

(** Distance on the screen plane from a body to the hand at [(x, y)]. *)
Definition screenDist (body : RigidBody3D.t) (x y : number) : number :=
  let dx := Vector3.x (RigidBody3D.position body) - x in
  let dy := Vector3.y (RigidBody3D.position body) - y in
  Math.sqrt (dx * dx + dy * dy).

(** Scale * 60 (base size) * 0.7 (radius factor) * 1.3 (margin). *)
Definition colliderRadius (body : RigidBody3D.t) : number :=
  let sc := RigidBody3D.scale body in
  let size := Math.max3 (Vector3.x sc) (Vector3.y sc) (Vector3.z sc) * 60 in
  size * 0.7 * 1.3.

(** The candidate loop of the grab: [closestDist] and [target] are the
    loop's two variables, [idx] the position of the next body. *)
Fixpoint grabScan (x y : number) (bodies : list RigidBody3D.t) (idx : nat)
    (closestDist : number) (target : option nat) : option nat :=
  match bodies with
  | [] => target
  | body :: rest =>
      let dist := screenDist body x y in
      if (dist <? colliderRadius body) && (dist <? closestDist)
      then grabScan x y rest (S idx) dist (Some idx)
      else grabScan x y rest (S idx) closestDist target
  end.

(** The test of [checkSnapping]'s loop body: [other] is a different body,
    within the horizontal threshold, and below [active] by less than one
    stack unit plus slack. *)
Definition snapQualifies (active other : RigidBody3D.t) : bool :=
  let threshold := 50 in
  if String.eqb (RigidBody3D.id other) (RigidBody3D.id active) then false
  else
    let dx := Math.abs (Vector3.x (RigidBody3D.position active) - Vector3.x (RigidBody3D.position other)) in
    let dz := Math.abs (Vector3.z (RigidBody3D.position active) - Vector3.z (RigidBody3D.position other)) in
    if (dx <? threshold) && (dz <? threshold) then
      let dy := Vector3.y (RigidBody3D.position other) - Vector3.y (RigidBody3D.position active) in
      let expectedDist := 60 in
      (dy >? 0) && (dy <? expectedDist + 40)
    else false.

(** The loop of [checkSnapping] up to its [break]: the first qualifying body. *)
Fixpoint snapScan (active : RigidBody3D.t) (bodies : list RigidBody3D.t) (idx : nat) : option nat :=
  match bodies with
  | [] => None
  | other :: rest =>
      if snapQualifies active other then Some idx
      else snapScan active rest (S idx)
  end.

(** The assignments of the snap to the released body. *)
Definition snapTo (active other : RigidBody3D.t) : RigidBody3D.t :=
  let expectedDist := 60 in
  let b := RigidBody3D.set_snapTarget active (Some (RigidBody3D.id other)) in
  let op := RigidBody3D.position other in
  let b := RigidBody3D.set_position b
             (Vector3.mk (Vector3.x op) (Vector3.y op - expectedDist) (Vector3.z op)) in
  let b := RigidBody3D.set_rotation b (RigidBody3D.rotation other) in
  let b := RigidBody3D.set_velocity b (Vector3.mk 0 0 0) in
  let b := RigidBody3D.set_glow b 1.0 in
  RigidBody3D.set_snapTimer b 20.

(** [checkSnapping(active)], with [active] given by its place [a] in the list. *)
Definition checkSnapping (bodies : list RigidBody3D.t) (a : nat) : list RigidBody3D.t :=
  match bodies !! a with
  | None => bodies
  | Some active =>
      match snapScan active bodies 0 with
      | None => bodies
      | Some j =>
          match bodies !! j with
          | None => bodies
          | Some other =>
              let bodies1 := <[a := snapTo active other]> bodies in
              match bodies1 !! j with
              | None => bodies1
              | Some other1 => <[j := RigidBody3D.set_glow other1 0.5]> bodies1
              end
          end
      end
  end.

(** ** The host's [Math.sin], [Math.cos], [Math.hypot], [Math.atan2] and [Math.random]

    The engine's transcendental functions are implementation-approximated
    and [Math.random] is an external source; the routines that call them
    take them as parameters: [Math_random k] is the number returned by the
    [k]-th call. *)
Section Host.

Variable Math_sin : number -> number.
Variable Math_cos : number -> number.
Variable Math_hypot : number -> number -> number.
Variable Math_atan2 : number -> number -> number.
Variable Math_random : nat -> number.

Definition qFromAxisAngle (axis : Vector3.t) (angle : number) : Quaternion.t :=
  let halfAngle := angle / 2 in
  let s := Math_sin halfAngle in
  Quaternion.mk (Vector3.x axis * s) (Vector3.y axis * s) (Vector3.z axis * s)
                (Math_cos halfAngle).

(** ** Horn tracking *)

(** [this.objects.find(o => o.id === id)], as the place of the object found. *)
Fixpoint findObjectFrom (id : string) (objs : list SoftBodyObject.t) (idx : nat) : option nat :=
  match objs with
  | [] => None
  | o :: rest =>
      if String.eqb (SoftBodyObject.id o) id then Some idx
      else findObjectFrom id rest (S idx)
  end.

Definition findObject (id : string) (objs : list SoftBodyObject.t) : option nat :=
  findObjectFrom id objs 0.

Definition newHorn (id side : string) : SoftBodyObject.t :=
  SoftBodyObject.mk id devil_horn [] [] "#dc2626" None (Some 0)
    (Some (HornConfig.mk side None None)).

(** The horn with this id, created and pushed when it is missing; the
    result is the list and the place of the horn in it. *)
Definition ensureHorn (id side : string) (objs : list SoftBodyObject.t)
    : list SoftBodyObject.t * nat :=
  match findObject id objs with
  | Some k => (objs, k)
  | None => (objs ++ [newHorn id side], length objs)
  end.

Definition modifyObject (objs : list SoftBodyObject.t) (k : nat)
    (f : SoftBodyObject.t -> SoftBodyObject.t) : list SoftBodyObject.t :=
  match objs !! k with
  | None => objs
  | Some o => <[k := f o]> objs
  end.

(** Bind one horn to a forehead landmark: a fresh pinned point replaces its
    points, then its config takes the angle and the scale.  [None] for the
    config stands for the TypeError of writing to a missing [config]: the
    call ends there, with the points already replaced. *)
Definition bindHorn (store : list Point.t) (objs : list SoftBodyObject.t) (k : nat)
    (at_ : number * number) (angle scale : number)
    : list Point.t * list SoftBodyObject.t * bool :=
  let store1 := store ++ [Point.mk at_.1 at_.2 at_.1 at_.2 true 0 0 None None None] in
  let objs1 := modifyObject objs k (λ o, SoftBodyObject.set_points o [length store]) in
  match objs1 !! k ≫= SoftBodyObject.config with
  | None => (store1, objs1, false)
  | Some c =>
      (store1,
       modifyObject objs1 k
         (λ o, SoftBodyObject.set_config o
                 (Some (HornConfig.mk (HornConfig.side c) (Some angle) (Some scale)))),
       true)
  end.

(** [updateHorns]; a landmark has the fields x, y and z.  When the face has
    no landmark 105 or 334 the reads throw, after the growth has been set. *)
Definition updateHorns (s : SoftBodySystem.t) (faceLandmarks : list Vector3.t)
    (isGestureActive : bool) (canvasWidth canvasHeight : number) : SoftBodySystem.t :=
  let '(objs1, leftHorn) := ensureHorn "devil-horn-left" "left" (SoftBodySystem.objects s) in
  let '(objs2, rightHorn) := ensureHorn "devil-horn-right" "right" objs1 in
  let setGrowth g objs :=
    modifyObject (modifyObject objs leftHorn (λ o, SoftBodyObject.set_growth o (Some g)))
      rightHorn (λ o, SoftBodyObject.set_growth o (Some g)) in
  if negb isGestureActive then SoftBodySystem.set_objects s (setGrowth 0 objs2)
  else
    let objs3 := setGrowth 1.0 objs2 in
    let getPt (lm : Vector3.t) : number * number :=
      ((1 - Vector3.x lm) * canvasWidth, Vector3.y lm * canvasHeight) in
    match faceLandmarks !! 105%nat, faceLandmarks !! 334%nat with
    | Some lm105, Some lm334 =>
        let foreheadLeft := getPt lm105 in
        let foreheadRight := getPt lm334 in
        let headWidth :=
          Math_hypot (foreheadRight.1 - foreheadLeft.1) (foreheadRight.2 - foreheadLeft.2) in
        let scale := headWidth * 0.4 in
        let angle :=
          Math_atan2 (foreheadRight.2 - foreheadLeft.2) (foreheadRight.1 - foreheadLeft.1) in
        let '(store1, objs4, ok) :=
          bindHorn (SoftBodySystem.pointStore s) objs3 leftHorn foreheadRight angle scale in
        if ok then
          let '(store2, objs5, _) := bindHorn store1 objs4 rightHorn foreheadLeft angle scale in
          SoftBodySystem.set_objects (SoftBodySystem.set_pointStore s store2) objs5
        else SoftBodySystem.set_objects (SoftBodySystem.set_pointStore s store1) objs4
    | _, _ => SoftBodySystem.set_objects s objs3
    end.

(** Whether a call of [updateHorns] ends in a TypeError.  With the gesture
    active it reads [faceLandmarks[105]] and [faceLandmarks[334]], which
    throws when either is missing, and it writes to [leftHorn.config] and
    to [rightHorn.config], which throws for a horn found without a config
    (a horn it creates has one). *)
Definition updateHornsThrows (s : SoftBodySystem.t) (faceLandmarks : list Vector3.t)
    (isGestureActive : bool) : bool :=
  let '(objs1, leftHorn) := ensureHorn "devil-horn-left" "left" (SoftBodySystem.objects s) in
  let '(objs2, rightHorn) := ensureHorn "devil-horn-right" "right" objs1 in
  isGestureActive
  && negb (bool_decide (is_Some (faceLandmarks !! 105%nat))
           && bool_decide (is_Some (faceLandmarks !! 334%nat))
           && bool_decide (is_Some (objs2 !! leftHorn ≫= SoftBodyObject.config))
           && bool_decide (is_Some (objs2 !! rightHorn ≫= SoftBodyObject.config))).

(** ** 3D interaction *)

(** Step 1 of [handleInteraction3D]: reset the glow of bodies not held. *)
Definition resetGlow (b : RigidBody3D.t) : RigidBody3D.t :=
  if negb (RigidBody3D.isHeld b) && (RigidBody3D.glow b <? 0.5)
  then RigidBody3D.set_glow b 0 else b.

(** TRY TO GRAB: the scan, then the marks on the target and the hold record. *)
Definition tryGrab (handId : nat) (x y z rotationAngle : number)
    (bodies : list RigidBody3D.t) (held : list (nat * Hold.t))
    : list RigidBody3D.t * list (nat * Hold.t) :=
  match grabScan x y bodies 0 Infinity None with
  | None => (bodies, held)
  | Some j =>
      match bodies !! j with
      | None => (bodies, held)
      | Some target =>
          let t1 := RigidBody3D.set_isHeld target true in
          let t2 := RigidBody3D.set_snapTarget t1 None in
          let t3 := RigidBody3D.set_glow t2 1.0 in
          let p := RigidBody3D.position t3 in
          (<[j := t3]> bodies,
           JsMap.set handId
             (Hold.mk (RigidBody3D.id t3)
                      (Vector3.mk (Vector3.x p - x) (Vector3.y p - y) (Vector3.z p - z))
                      rotationAngle
                      (RigidBody3D.rotation t3))
             held)
      end
  end.

(** HOLDING / DRAGGING: follow the hand, zero the velocity, spin about Y. *)
Definition dragHeld (handId : nat) (x y z rotationAngle : number) (hold : Hold.t)
    (bodies : list RigidBody3D.t) (held : list (nat * Hold.t))
    : list RigidBody3D.t * list (nat * Hold.t) :=
  match findBody (Hold.bodyId hold) bodies with
  | None => (bodies, held)
  | Some j =>
      match bodies !! j with
      | None => (bodies, held)
      | Some body =>
          let b1 := RigidBody3D.set_glow body 1.0 in
          let tx := x + Vector3.x (Hold.offset hold) in
          let ty := y + Vector3.y (Hold.offset hold) in
          let tz := z + Vector3.z (Hold.offset hold) in
          let p := RigidBody3D.position b1 in
          let px := Vector3.x p + (tx - Vector3.x p) * 0.4 in
          let py := Vector3.y p + (ty - Vector3.y p) * 0.4 in
          let pz := Vector3.z p + (tz - Vector3.z p) * 0.4 in
          let b2 := RigidBody3D.set_position b1 (Vector3.mk px py pz) in
          let b3 := RigidBody3D.set_velocity b2 (Vector3.mk 0 0 0) in
          let deltaRot := rotationAngle - Hold.initialHandRot hold in
          let qY := qFromAxisAngle (Vector3.mk 0 1 0) (deltaRot * 0.15) in
          let b4 := RigidBody3D.set_rotation b3 (qMult (RigidBody3D.rotation b3) qY) in
          (<[j := b4]> bodies,
           JsMap.set handId
             (Hold.mk (Hold.bodyId hold) (Hold.offset hold) rotationAngle
                      (Hold.initialObjRot hold))
             held)
      end
  end.

(** RELEASE: clear the held flag, check stacking, drop the record. *)
Definition release (handId : nat) (bodies : list RigidBody3D.t) (held : list (nat * Hold.t))
    : list RigidBody3D.t * list (nat * Hold.t) :=
  match JsMap.get handId held with
  | None => (bodies, held)
  | Some hold =>
      let bodies' :=
        match findBody (Hold.bodyId hold) bodies with
        | None => bodies
        | Some j =>
            match bodies !! j with
            | None => bodies
            | Some body =>
                checkSnapping (<[j := RigidBody3D.set_isHeld body false]> bodies) j
            end
        end in
      (bodies', JsMap.delete handId held)
  end.

(** HOVER CHECK: a glow floor for every body under the open hand. *)
Definition hover (x y : number) (body : RigidBody3D.t) : RigidBody3D.t :=
  if screenDist body x y <? colliderRadius body
  then RigidBody3D.set_glow body (Math.max2 (RigidBody3D.glow body) 0.4)
  else body.

Definition handleInteraction3D (s : SoftBodySystem.t) (handId : nat) (x y z : number)
    (isGrabbing : bool) (rotationAngle : number) : SoftBodySystem.t :=
  let bodies := map resetGlow (SoftBodySystem.rigidBodies s) in
  let held := SoftBodySystem.heldObjects s in
  let '(bodies', held') :=
    if isGrabbing then
      match JsMap.get handId held with
      | None => tryGrab handId x y z rotationAngle bodies held
      | Some hold => dragHeld handId x y z rotationAngle hold bodies held
      end
    else
      let '(bodies1, held1) := release handId bodies held in
      (map (hover x y) bodies1, held1)
  in
  SoftBodySystem.set_heldObjects (SoftBodySystem.set_rigidBodies s bodies') held'.

(** ** 2D interaction *)

(** The inner loop of the pinch scan over one object's points. *)
Fixpoint scanPoints (store : list Point.t) (x y : number) (pts : list ref)
    (minDist : number) (candidate : option ref) : number * option ref :=
  match pts with
  | [] => (minDist, candidate)
  | r :: rest =>
      match store !! r with
      | None => scanPoints store x y rest minDist candidate
      | Some p =>
          let dx := Point.x p - x in
          let dy := Point.y p - y in
          let dist := Math.sqrt (dx * dx + dy * dy) in
          if dist <? minDist
          then scanPoints store x y rest dist (Some r)
          else scanPoints store x y rest minDist candidate
      end
  end.

(** The outer loop: every object but the devil horns. *)
Fixpoint scanObjects (store : list Point.t) (x y : number) (objs : list SoftBodyObject.t)
    (minDist : number) (candidate : option ref) : number * option ref :=
  match objs with
  | [] => (minDist, candidate)
  | obj :: rest =>
      if is_devil_horn (SoftBodyObject.type obj)
      then scanObjects store x y rest minDist candidate
      else
        let '(minDist', candidate') :=
          scanPoints store x y (SoftBodyObject.points obj) minDist candidate in
        scanObjects store x y rest minDist' candidate'
  end.

Definition handleInteraction (s : SoftBodySystem.t) (handId : nat) (x y : number)
    (isPinching : bool) : SoftBodySystem.t :=
  if isPinching then
    let springs := SoftBodySystem.mouseSprings s in
    let springs1 :=
      if negb (JsMap.has handId springs) then
        match snd (scanObjects (SoftBodySystem.pointStore s) x y (SoftBodySystem.objects s) 80 None) with
        | Some candidate => JsMap.set handId (Spring.mk candidate x y) springs
        | None => springs
        end
      else springs in
    match JsMap.get handId springs1 with
    | Some spring =>
        SoftBodySystem.set_mouseSprings s (JsMap.set handId (Spring.mk (Spring.point spring) x y) springs1)
    | None => SoftBodySystem.set_mouseSprings s springs1
    end
  else SoftBodySystem.set_mouseSprings s (JsMap.delete handId (SoftBodySystem.mouseSprings s)).

(** ** Direct point manipulators *)

(** Apply [f] to the point a reference designates, in place. *)
Definition modifyPoint (store : list Point.t) (r : ref) (f : Point.t -> Point.t)
    : list Point.t :=
  match store !! r with
  | None => store
  | Some p => <[r := f p]> store
  end.

(** The body of [crumple]'s inner loop on one point; [k] counts the calls
    made to [Math.random] so far. *)
Definition crumplePoint (x y radius intensity : number) (k : nat) (p : Point.t)
    : Point.t * nat :=
  let dx := Point.x p - x in
  let dy := Point.y p - y in
  let distSq := dx * dx + dy * dy in
  if distSq <? radius * radius then
    let force := (1 - Math.sqrt distSq / radius) * intensity in
    let px1 := Point.x p + (Math_random k - 0.5) * 25 * force in
    let py1 := Point.y p + (Math_random (S k) - 0.5) * 25 * force in
    let px2 := px1 - dx * 0.1 * force in
    let py2 := py1 - dy * 0.1 * force in
    (Point.set_y (Point.set_x p px2) py2, S (S k))
  else (p, k).

Fixpoint crumplePoints (x y radius intensity : number) (pts : list ref)
    (store : list Point.t) (k : nat) : list Point.t * nat :=
  match pts with
  | [] => (store, k)
  | r :: rest =>
      match store !! r with
      | None => crumplePoints x y radius intensity rest store k
      | Some p =>
          let '(p', k') := crumplePoint x y radius intensity k p in
          crumplePoints x y radius intensity rest (<[r := p']> store) k'
      end
  end.

Fixpoint crumpleObjects (x y radius intensity : number) (objs : list SoftBodyObject.t)
    (store : list Point.t) (k : nat) : list Point.t * nat :=
  match objs with
  | [] => (store, k)
  | obj :: rest =>
      if is_devil_horn (SoftBodyObject.type obj)
      then crumpleObjects x y radius intensity rest store k
      else
        let '(store', k') :=
          crumplePoints x y radius intensity (SoftBodyObject.points obj) store k in
        crumpleObjects x y radius intensity rest store' k'
  end.

Definition crumple (s : SoftBodySystem.t) (k : nat) (x y radius intensity : number) : SoftBodySystem.t * nat :=
  let '(store', k') :=
    crumpleObjects x y radius intensity (SoftBodySystem.objects s) (SoftBodySystem.pointStore s) k in
  (SoftBodySystem.set_pointStore s store', k').

(** The body of [fold]'s inner loop on one point. *)
Definition foldPoint (x y radius vx vy : number) (p : Point.t) : Point.t :=
  let dx := Point.x p - x in
  let dy := Point.y p - y in
  let dist := Math.sqrt (dx * dx + dy * dy) in
  if dist <? radius then
    let force := 1 - dist / radius in
    let px1 := Point.x p - dx * 0.15 * force in
    let py1 := Point.y p - dy * 0.15 * force in
    let px2 := px1 + vx * 0.1 * force in
    let py2 := py1 + vy * 0.1 * force in
    Point.set_y (Point.set_x p px2) py2
  else p.

Fixpoint foldObjects (x y radius vx vy : number) (objs : list SoftBodyObject.t)
    (store : list Point.t) : list Point.t :=
  match objs with
  | [] => store
  | obj :: rest =>
      if is_devil_horn (SoftBodyObject.type obj)
      then foldObjects x y radius vx vy rest store
      else
        foldObjects x y radius vx vy rest
          (foldl (fun st r => modifyPoint st r (foldPoint x y radius vx vy))
                 store (SoftBodyObject.points obj))
  end.

Definition fold (s : SoftBodySystem.t) (x y radius : number) (velocity : number * number) : SoftBodySystem.t :=
  SoftBodySystem.set_pointStore s
    (foldObjects x y radius (fst velocity) (snd velocity) (SoftBodySystem.objects s) (SoftBodySystem.pointStore s)).

(** ** The tick: soft bodies *)

Section Solver.

Variables (gravity drag groundFriction stiffness breakingThreshold : number).
Variables (width height : number).

(** Verlet integration and the boundary clamps of one point that is not pinned. *)
Definition integratePoint (p : Point.t) : Point.t :=
  let vx := (Point.x p - Point.oldX p) * drag in
  let vy := (Point.y p - Point.oldY p) * drag in
  let p := Point.set_oldX p (Point.x p) in
  let p := Point.set_oldY p (Point.y p) in
  let p := Point.set_x p (Point.x p + vx) in
  let p := Point.set_y p (Point.y p + (vy + gravity)) in
  let p :=
    if Point.y p >? height - 10
    then let p := Point.set_y p (height - 10) in
         Point.set_oldY p (Point.y p + vy * groundFriction)
    else p in
  let p :=
    if Point.x p <? 10
    then let p := Point.set_x p 10 in
         Point.set_oldX p (Point.x p + vx * groundFriction)
    else p in
  let p :=
    if Point.x p >? width - 10
    then let p := Point.set_x p (width - 10) in
         Point.set_oldX p (Point.x p + vx * groundFriction)
    else p in
  if Point.y p <? - 300 then Point.set_y p (- 300) else p.

(** The first loop over an object's points: pinned points are skipped. *)
Definition integrateStep (store : list Point.t) (r : ref) : list Point.t :=
  match store !! r with
  | None => store
  | Some p => if Point.isPinned p then store else <[r := integratePoint p]> store
  end.

(** One visit of a stick by the relaxation loop: [None] when the stick is
    over the breaking threshold (it is then spliced out), otherwise the store
    after the correction of its two endpoints. *)
Definition visitStick (store : list Point.t) (s : Stick.t) : option (list Point.t) :=
  match store !! Stick.p0 s, store !! Stick.p1 s with
  | Some a, Some b =>
      let dx := Point.x b - Point.x a in
      let dy := Point.y b - Point.y a in
      let dist := Math.sqrt (dx * dx + dy * dy) in
      if dist >? Stick.length s * breakingThreshold then None
      else
        let diff := Stick.length s - dist in
        let percent := diff / dist / 2 * stiffness in
        let offX := dx * percent in
        let offY := dy * percent in
        let store1 :=
          if negb (Point.isPinned a)
          then modifyPoint store (Stick.p0 s)
                 (fun p => Point.set_y (Point.set_x p (Point.x p - offX)) (Point.y p - offY))
          else store in
        let store2 :=
          if negb (Point.isPinned b)
          then modifyPoint store1 (Stick.p1 s)
                 (fun p => Point.set_y (Point.set_x p (Point.x p + offX)) (Point.y p + offY))
          else store1 in
        Some store2
  | _, _ => Some store
  end.

(** [for (let sIdx = obj.sticks.length - 1; sIdx >= 0; sIdx--)]: [n] is
    [sIdx + 1], and a broken stick is removed by [splice(sIdx, 1)]. *)
Fixpoint sticksLoop (n : nat) (store : list Point.t) (sticks : list Stick.t)
    : list Point.t * list Stick.t :=
  match n with
  | O => (store, sticks)
  | S sIdx =>
      match sticks !! sIdx with
      | None => sticksLoop sIdx store sticks
      | Some s =>
          match visitStick store s with
          | None => sticksLoop sIdx store (delete sIdx sticks)
          | Some store' => sticksLoop sIdx store' sticks
          end
      end
  end.

(** One relaxation pass over the sticks that survive so far. *)
Definition relaxPass (st : list Point.t * list Stick.t) : list Point.t * list Stick.t :=
  sticksLoop (length (snd st)) (fst st) (snd st).

(** Integration, then [iterations] relaxation passes, of one object. *)
Definition updateObject (iterations : nat) (store : list Point.t) (obj : SoftBodyObject.t)
    : list Point.t * SoftBodyObject.t :=
  if is_devil_horn (SoftBodyObject.type obj) then (store, obj)
  else
    let store1 := foldl integrateStep store (SoftBodyObject.points obj) in
    let '(store2, sticks2) :=
      Nat.iter iterations relaxPass (store1, SoftBodyObject.sticks obj) in
    (store2, SoftBodyObject.set_sticks obj sticks2).

Fixpoint updateObjects (iterations : nat) (store : list Point.t)
    (objs : list SoftBodyObject.t) : list Point.t * list SoftBodyObject.t :=
  match objs with
  | [] => (store, [])
  | obj :: rest =>
      let '(store1, obj') := updateObject iterations store obj in
      let '(store2, rest') := updateObjects iterations store1 rest in
      (store2, obj' :: rest')
  end.

End Solver.

(** [this.mouseSprings.forEach]: each spring pulls its point a fifth of the
    way to its anchor, pinned or not. *)
Definition pullPoint (spring : Spring.t) (point : Point.t) : Point.t :=
  let dx := Spring.anchorX spring - Point.x point in
  let dy := Spring.anchorY spring - Point.y point in
  Point.set_y (Point.set_x point (Point.x point + dx * 0.2)) (Point.y point + dy * 0.2).

Definition springPull (store : list Point.t) (spring : Spring.t) : list Point.t :=
  modifyPoint store (Spring.point spring) (pullPoint spring).

Definition applySprings (store : list Point.t) (springs : list (nat * Spring.t))
    : list Point.t :=
  foldl (fun st kv => springPull st (snd kv)) store springs.

(** ** The tick: rigid bodies *)

(** Animation updates for the dragon, at the clock [time]. *)
Definition animateDragon (time : number) (body : RigidBody3D.t) : RigidBody3D.t :=
  if is_dragon (RigidBody3D.type body) then
    match RigidBody3D.dragonConfig body with
    | Some c =>
        RigidBody3D.set_dragonConfig body
          (Some (DragonConfig.mk (Math_sin (time * 2) * 0.2 + 0.2) time
                   (DragonConfig.wingPhase c) (DragonConfig.eyeColor c)
                   (DragonConfig.scale c)))
    | None => body
    end
  else body.

Definition decayGlow (body : RigidBody3D.t) : RigidBody3D.t :=
  if RigidBody3D.glow body >? 0
  then RigidBody3D.set_glow body (RigidBody3D.glow body - 0.05)
  else body.

(** Rigidly follow the snap target: its x and z, its y minus the stack
    height, its orientation. *)
Definition followTarget (body target : RigidBody3D.t) : RigidBody3D.t :=
  let tp := RigidBody3D.position target in
  RigidBody3D.set_rotation
    (RigidBody3D.set_position body
       (Vector3.mk (Vector3.x tp) (Vector3.y tp - 60) (Vector3.z tp)))
    (RigidBody3D.rotation target).

(** Gravity, velocity, floor collision and drag. *)
Definition freeFall (gravity groundFriction height : number) (body : RigidBody3D.t)
    : RigidBody3D.t :=
  let floorY := height in
  let cubeHalf := 30 in
  let v := RigidBody3D.velocity body in
  let v1 := Vector3.mk (Vector3.x v) (Vector3.y v + gravity) (Vector3.z v) in
  let pos := vAdd (RigidBody3D.position body) v1 in
  let '(pos2, v2) :=
    if Vector3.y pos >? floorY - cubeHalf
    then (Vector3.mk (Vector3.x pos) (floorY - cubeHalf) (Vector3.z pos),
          Vector3.mk (Vector3.x v1 * groundFriction) (Vector3.y v1 * - 0.4)
                     (Vector3.z v1 * groundFriction))
    else (pos, v1) in
  RigidBody3D.set_velocity (RigidBody3D.set_position body pos2) (vScale v2 0.98).

(** The body of the loop over [rigidBodies], for the body at place [i].
    The test [if (body.snapTarget)] is false for [null] and for the empty
    string. *)
Definition updateBody (time gravity groundFriction height : number)
    (bodies : list RigidBody3D.t) (i : nat) : list RigidBody3D.t :=
  match bodies !! i with
  | None => bodies
  | Some body =>
      let b1 := decayGlow (animateDragon time body) in
      if RigidBody3D.isHeld b1 then <[i := b1]> bodies
      else if RigidBody3D.snapTimer b1 >? 0
      then <[i := RigidBody3D.set_snapTimer b1 (RigidBody3D.snapTimer b1 - 1)]> bodies
      else
        let bodies1 := <[i := b1]> bodies in
        let fall b := <[i := freeFall gravity groundFriction height b]> bodies1 in
        match RigidBody3D.snapTarget b1 with
        | None => fall b1
        | Some t =>
            if String.eqb t EmptyString then fall b1
            else
              match findBody t bodies1 with
              | None => fall (RigidBody3D.set_snapTarget b1 None)
              | Some j =>
                  match bodies1 !! j with
                  | None => fall (RigidBody3D.set_snapTarget b1 None)
                  | Some target => <[i := followTarget b1 target]> bodies1
                  end
              end
        end
  end.

Definition updateBodies (time gravity groundFriction height : number)
    (bodies : list RigidBody3D.t) : list RigidBody3D.t :=
  foldl (updateBody time gravity groundFriction height) bodies (seq 0 (length bodies)).

Definition update (s : SoftBodySystem.t) (width height : number) : SoftBodySystem.t :=
  let time := SoftBodySystem.time s + 0.05 in
  let '(store1, objects1) :=
    updateObjects (SoftBodySystem.gravity s) (SoftBodySystem.drag s)
      (SoftBodySystem.groundFriction s) (SoftBodySystem.stiffness s)
      (SoftBodySystem.breakingThreshold s) width height (SoftBodySystem.solverIterations s)
      (SoftBodySystem.pointStore s) (SoftBodySystem.objects s) in
  let store2 := applySprings store1 (SoftBodySystem.mouseSprings s) in
  let bodies := updateBodies time (SoftBodySystem.gravity s) (SoftBodySystem.groundFriction s) height
                  (SoftBodySystem.rigidBodies s) in
  SoftBodySystem.mk store2 objects1 bodies (SoftBodySystem.mouseSprings s) (SoftBodySystem.heldObjects s)
    (SoftBodySystem.gravity s) (SoftBodySystem.drag s) (SoftBodySystem.groundFriction s)
    (SoftBodySystem.solverIterations s)
    (SoftBodySystem.stiffness s) (SoftBodySystem.breakingThreshold s) (SoftBodySystem.horns s) time.

End Host.

(** ** Spawners

    The id of a spawned body is its type's prefix followed by [Date.now()];
    the caller passes the id. *)
Definition cubeVertices : list Vector3.t :=
  let half := 60 / 2 in
  [ Vector3.mk (- half) (- half) (- half); Vector3.mk half (- half) (- half);
    Vector3.mk half half (- half); Vector3.mk (- half) half (- half);
    Vector3.mk (- half) (- half) half; Vector3.mk half (- half) half;
    Vector3.mk half half half; Vector3.mk (- half) half half ].

Definition cubeFaces : list Face.t :=
  [ Face.mk [0; 1; 2; 3]%nat (Some "rgba(0, 255, 255, 0.1)"%string);
    Face.mk [5; 4; 7; 6]%nat (Some "rgba(0, 255, 255, 0.1)"%string);
    Face.mk [4; 0; 3; 7]%nat (Some "rgba(0, 200, 255, 0.1)"%string);
    Face.mk [1; 5; 6; 2]%nat (Some "rgba(0, 200, 255, 0.1)"%string);
    Face.mk [4; 5; 1; 0]%nat (Some "rgba(0, 150, 255, 0.2)"%string);
    Face.mk [3; 2; 6; 7]%nat (Some "rgba(0, 150, 255, 0.2)"%string) ].

Definition newCube3D (id : string) (x y : number) : RigidBody3D.t :=
  RigidBody3D.mk id cube (Vector3.mk x y 0) (Quaternion.mk 0 0 0 1) (Vector3.mk 1 1 1)
    (Vector3.mk 0 0 0) (Vector3.mk 0 0 0) cubeVertices cubeFaces
    false None 0 "#06b6d4" 0 None.

Definition spawnCube3D (s : SoftBodySystem.t) (id : string) (x y : number) : SoftBodySystem.t :=
  SoftBodySystem.set_rigidBodies s (SoftBodySystem.rigidBodies s ++ [newCube3D id x y]).

(** ** Geometry generator and dragon spawner *)

Definition Math_PI : number := 3.141592653589793.

(** A loop counter as a number. *)
Definition ofNat (n : nat) : number := PrimFloat.of_uint63 (Uint63.of_Z (Z.of_nat n)).

Section Geometry.

Variable Math_sin : number -> number.
Variable Math_cos : number -> number.

Definition generateEllipsoid (rx ry rz : number) (wSeg hSeg : nat) (color : string)
    : list Vector3.t * list Face.t :=
  let vertices :=
    flat_map (λ i,
      let v := ofNat i / ofNat hSeg in
      let phi := v * Math_PI in
      map (λ j,
        let u := ofNat j / ofNat wSeg in
        let theta := u * Math_PI * 2 in
        Vector3.mk (rx * Math_sin phi * Math_cos theta)
                   (ry * Math_cos phi)
                   (rz * Math_sin phi * Math_sin theta))
        (seq 0 (S wSeg)))
      (seq 0 (S hSeg)) in
  let faces :=
    flat_map (λ i,
      flat_map (λ j,
        let p1 := (i * (wSeg + 1) + j)%nat in
        let p2 := (p1 + (wSeg + 1))%nat in
        let p3 := (p1 + 1)%nat in
        let p4 := (p2 + 1)%nat in
        [ Face.mk [p1; p2; p3] (Some color); Face.mk [p3; p2; p4] (Some color) ])
        (seq 0 wSeg))
      (seq 0 hSeg) in
  (vertices, faces).

Definition newDragon (id : string) (x y : number) : RigidBody3D.t :=
  let mesh := generateEllipsoid 40 25 30 12 8 "#4ade80" in
  RigidBody3D.mk id dragon (Vector3.mk x y 0) (Quaternion.mk 0 0 0 1) (Vector3.mk 1 1 1)
    (Vector3.mk 0 0 0) (Vector3.mk 0 0 0) (fst mesh) (snd mesh)
    false None 0 "#4ade80" 0
    (Some (DragonConfig.mk 0 0 0 "#fcd34d" 1.0)).

Definition spawnDragon (s : SoftBodySystem.t) (id : string) (x y : number) : SoftBodySystem.t :=
  SoftBodySystem.set_rigidBodies s (SoftBodySystem.rigidBodies s ++ [newDragon id x y]).

End Geometry.

(** ** A host for the examples

    A polynomial stand-in for the engine's sine and cosine and a fixed
    [Math.random] sequence; only the closed examples below use them, every
    theorem holds for any host. *)
Definition sampleSin (a : number) : number := a - a * a * a / 6.
Definition sampleCos (a : number) : number := 1 - a * a / 2.
Definition sampleRandom (k : nat) : number := if Nat.even k then 0.25 else 0.75.

(** A point at rest, as the spawners create them. *)
Definition newPoint (x y : number) (isPinned : bool) : Point.t :=
  Point.mk x y x y isPinned 0 0 None None None.

(** ** Vocabulary of the statements *)

(** Distance from a point to the pinch position, as the scan computes it. *)
Definition pointDist (p : Point.t) (x y : number) : number :=
  let dx := Point.x p - x in
  let dy := Point.y p - y in
  Math.sqrt (dx * dx + dy * dy).

(** A point with its pin released, and the system with every pin released. *)
Definition unpin (p : Point.t) : Point.t := Point.set_isPinned p false.

Definition unpinAll (s : SoftBodySystem.t) : SoftBodySystem.t :=
  SoftBodySystem.set_pointStore s (map unpin (SoftBodySystem.pointStore s)).

(** A number that is neither NaN nor an infinity. *)
Definition finite (a : number) : bool :=
  match Prim2SF a with
  | S754_zero _ | S754_finite _ _ _ => true
  | _ => false
  end.

(** The breaking test of the relaxation loop on a stick, in a given store. *)
Definition overThreshold (breakingThreshold : number) (store : list Point.t) (s : Stick.t)
    : bool :=
  match store !! Stick.p0 s, store !! Stick.p1 s with
  | Some a, Some b =>
      let dx := Point.x b - Point.x a in
      let dy := Point.y b - Point.y a in
      Math.sqrt (dx * dx + dy * dy) >? Stick.length s * breakingThreshold
  | _, _ => false
  end.

(** Every object of [objs] is still at its place in [objs'], with a stick
    list that is what is left of the one it had. *)
Definition sticksShrink (objs' objs : list SoftBodyObject.t) : Prop :=
  ∀ k obj, objs !! k = Some obj →
    ∃ obj', objs' !! k = Some obj'
      ∧ SoftBodyObject.sticks obj' `sublist_of` SoftBodyObject.sticks obj.

(** The store when the loop of [update] over the objects reaches the
    object at place [k]. *)
Definition storeReaching (s : SoftBodySystem.t) (width height : number) (k : nat)
    : list Point.t :=
  (updateObjects (SoftBodySystem.gravity s) (SoftBodySystem.drag s)
     (SoftBodySystem.groundFriction s) (SoftBodySystem.stiffness s)
     (SoftBodySystem.breakingThreshold s) width height (SoftBodySystem.solverIterations s)
     (SoftBodySystem.pointStore s) (take k (SoftBodySystem.objects s))).1.

(** The store and the stick list of the object [obj] at place [k] when
    relaxation pass number [i] (from 0) of [update] begins: its points have
    been integrated and [i] passes are done. *)
Definition passStart (s : SoftBodySystem.t) (width height : number) (k i : nat)
    (obj : SoftBodyObject.t) : list Point.t * list Stick.t :=
  Nat.iter i (relaxPass (SoftBodySystem.stiffness s) (SoftBodySystem.breakingThreshold s))
    (foldl (integrateStep (SoftBodySystem.gravity s) (SoftBodySystem.drag s)
              (SoftBodySystem.groundFriction s) width height)
       (storeReaching s width height k) (SoftBodyObject.points obj),
     SoftBodyObject.sticks obj).


Section TickVocabulary.

Variable Math_sin : number -> number.
Variables (time gravity groundFriction height : number).

(** What the loop body leaves in place [i], given the list it runs on. *)
Definition bodyAfter (bodies : list RigidBody3D.t) (i : nat) (body : RigidBody3D.t)
    : RigidBody3D.t :=
  let b1 := decayGlow (animateDragon Math_sin time body) in
  if RigidBody3D.isHeld b1 then b1
  else if RigidBody3D.snapTimer b1 >? 0
  then RigidBody3D.set_snapTimer b1 (RigidBody3D.snapTimer b1 - 1)
  else
    match RigidBody3D.snapTarget b1 with
    | None => freeFall gravity groundFriction height b1
    | Some t =>
        if String.eqb t EmptyString then freeFall gravity groundFriction height b1
        else
          match findBody t bodies with
          | None => freeFall gravity groundFriction height (RigidBody3D.set_snapTarget b1 None)
          | Some j =>
              match <[i := b1]> bodies !! j with
              | None => freeFall gravity groundFriction height (RigidBody3D.set_snapTarget b1 None)
              | Some target => followTarget b1 target
              end
          end
    end.

(** The list when the loop reaches place [i]. *)
Definition bodiesAt (bodies : list RigidBody3D.t) (i : nat) : list RigidBody3D.t :=
  foldl (updateBody Math_sin time gravity groundFriction height) bodies (seq 0 i).

End TickVocabulary.

(** The calls the host makes on a running system. *)
Inductive Op :=
  | OpUpdate (width height : number)
  | OpInteraction3D (handId : nat) (x y z : number) (isGrabbing : bool) (rotationAngle : number)
  | OpInteraction (handId : nat) (x y : number) (isPinching : bool)
  | OpCrumple (x y radius intensity : number)
  | OpFold (x y radius : number) (velocity : number * number)
  | OpUpdateHorns (faceLandmarks : list Vector3.t) (isGestureActive : bool)
      (canvasWidth canvasHeight : number).

Section RunVocabulary.

Variables (Math_sin Math_cos : number -> number) (Math_hypot Math_atan2 : number -> number -> number).
Variable Math_random : nat -> number.

(** One call; the second component counts the calls to [Math.random]. *)
Definition runOp (st : SoftBodySystem.t * nat) (op : Op) : SoftBodySystem.t * nat :=
  match op with
  | OpUpdate width height => (update Math_sin st.1 width height, st.2)
  | OpInteraction3D handId x y z isGrabbing rotationAngle =>
      (handleInteraction3D Math_sin Math_cos st.1 handId x y z isGrabbing rotationAngle, st.2)
  | OpInteraction handId x y isPinching => (handleInteraction st.1 handId x y isPinching, st.2)
  | OpCrumple x y radius intensity => crumple Math_random st.1 st.2 x y radius intensity
  | OpFold x y radius velocity => (fold st.1 x y radius velocity, st.2)
  | OpUpdateHorns faceLandmarks isGestureActive canvasWidth canvasHeight =>
      (updateHorns Math_hypot Math_atan2 st.1 faceLandmarks isGestureActive
         canvasWidth canvasHeight, st.2)
  end.

End RunVocabulary.

(** ** Scenes of the examples *)

(** The scene of the scenario: one cube at the origin, at rest, default
    gravity, the floor at y = 100000 - 30. *)
Definition freeFallScene : SoftBodySystem.t := spawnCube3D SoftBodySystem.initial "cube-1" 0 0.

(** The scene of two hands and one cube: hand 0 grabs the cube at its
    centre, then hand 1 grabs ten pixels to the right of it. *)
Definition oneCube : SoftBodySystem.t := spawnCube3D SoftBodySystem.initial "cube-1" 100 100.

Definition firstGrab : SoftBodySystem.t :=
  handleInteraction3D sampleSin sampleCos oneCube 0 100 100 0 true 0.

Definition secondGrab : SoftBodySystem.t :=
  handleInteraction3D sampleSin sampleCos firstGrab 1 110 100 0 true 0.

(** A cube that a passing open hand has lit (glow 0.4), and a grab far
    away from it. *)
Definition hoveredCube : SoftBodySystem.t :=
  handleInteraction3D sampleSin sampleCos oneCube 0 100 100 0 false 0.

Definition grabAway : SoftBodySystem.t :=
  handleInteraction3D sampleSin sampleCos hoveredCube 0 1000 1000 0 true 0.

(** A plant-like object whose only point is pinned at (100, 100). *)
Definition pinnedScene : SoftBodySystem.t :=
  SoftBodySystem.set_objects (SoftBodySystem.set_pointStore SoftBodySystem.initial [newPoint 100 100 true])
    [SoftBodyObject.mk "plant-1" plant [0%nat] [] "#22c55e" None None None].

(** The pinned base of [pinnedScene], pinched by hand 0 twenty pixels to
    its right. *)
Definition pinchedScene : SoftBodySystem.t := handleInteraction pinnedScene 0 120 100 true.



(** A dragon grabbed at its centre and released 80 above a cube: the
    release snaps it onto the cube and arms its snap timer. *)
Definition dragonOnCube : SoftBodySystem.t :=
  let s0 := spawnCube3D SoftBodySystem.initial "cube-1" 200 400 in
  let s1 := spawnDragon sampleSin sampleCos s0 "dragon-2" 200 320 in
  let s2 := handleInteraction3D sampleSin sampleCos s1 0 200 320 0 true 0 in
  handleInteraction3D sampleSin sampleCos s2 0 200 320 0 false 0.



(** An object of three free points and three sticks on a 2000 x 2000
    canvas; the middle stick, from (100, 100) to (1100, 100) with rest
    length 50, is stretched past ten times its length. *)
Definition breakStore : list Point.t :=
  [ newPoint 100 100 false; newPoint 1100 100 false; newPoint 100 150 false ].

Definition stickKept1 : Stick.t := Stick.mk 0 2 50 None None None.

Definition stickBroken : Stick.t := Stick.mk 0 1 50 None None None.

Definition stickKept2 : Stick.t := Stick.mk 2 1 1000 None None None.

Definition breakObject : SoftBodyObject.t :=
  SoftBodyObject.mk "generic-1" generic [0; 1; 2]%nat [stickKept1; stickBroken; stickKept2]
    "#d946ef" None None None.

Definition breakScene : SoftBodySystem.t :=
  SoftBodySystem.set_objects (SoftBodySystem.set_pointStore SoftBodySystem.initial breakStore)
    [breakObject].

(** Two free points, at rest left of the wall and below the floor of an
    800 x 600 canvas, joined by a stick of rest length 50. *)
Definition cornerScene : SoftBodySystem.t :=
  SoftBodySystem.set_objects
    (SoftBodySystem.set_pointStore SoftBodySystem.initial [newPoint 5 700 false; newPoint 3 650 false])
    [SoftBodyObject.mk "generic-1" generic [0; 1]%nat [Stick.mk 0 1 50 None None None]
       "#d946ef" None None None].

(** ** Scenes of the further examples *)

(** Two cubes twenty pixels apart; a hand at (115, 100) is inside the
    collider radius of both and nearer to the second. *)
Definition twoCubes : SoftBodySystem.t :=
  spawnCube3D (spawnCube3D SoftBodySystem.initial "cube-1" 100 100) "cube-2" 120 100.

(** A point that the pinch scan, [crumple] and [fold] visit: one listed by
    an object that is not a devil horn. *)
Definition eligiblePoint (objs : list SoftBodyObject.t) (r : ref) : Prop :=
  ∃ obj, obj ∈ objs ∧ is_devil_horn (SoftBodyObject.type obj) = false
    ∧ r ∈ SoftBodyObject.points obj.

(** A pinned plant base at (100, 100) and a free point at (130, 100) of the
    same plant. *)
Definition plantScene : SoftBodySystem.t :=
  SoftBodySystem.set_objects
    (SoftBodySystem.set_pointStore SoftBodySystem.initial
       [newPoint 100 100 true; newPoint 130 100 false])
    [SoftBodyObject.mk "plant-1" plant [0; 1]%nat [Stick.mk 0 1 30 None None None]
       "#22c55e" None None None].

(** The plant pinched by hand 0 at (160, 100): the spring is on the free
    point. *)
Definition tuggedPlant : SoftBodySystem.t := handleInteraction plantScene 0 160 100 true.

(** The plant pinched by two hands at (90, 100): both springs are on the
    pinned base. *)
Definition twoPinches : SoftBodySystem.t :=
  handleInteraction (handleInteraction plantScene 0 90 100 true) 1 90 100 true.

(** A map holds at most one entry per hand id, as a JavaScript [Map] does. *)
Definition uniqueKeys {V} (m : list (nat * V)) : Prop := NoDup m.*1.

(** What no call changes in a rigid body: its identity, kind and geometry. *)
Definition bodyShape (b : RigidBody3D.t)
    : string * BodyType * Vector3.t * Vector3.t * list Vector3.t * list Face.t * string :=
  (RigidBody3D.id b, RigidBody3D.type b, RigidBody3D.scale b, RigidBody3D.angularVelocity b,
   RigidBody3D.vertices b, RigidBody3D.faces b, RigidBody3D.color b).

(** What no call changes in a point: everything but its two positions. *)
Definition pointShape (p : Point.t)
    : bool * number * number * option number * option number * option string :=
  (Point.isPinned p, Point.u p, Point.v p, Point.mass p, Point.radius p, Point.color p).

(** [b'] is [b] except, possibly, for its glow. *)
Definition glowOnly (b b' : RigidBody3D.t) : Prop :=
  b' = RigidBody3D.set_glow b (RigidBody3D.glow b').

(** ** The cone generator and the pyramid spawner *)

Section Cone.

Variable Math_sin : number -> number.
Variable Math_cos : number -> number.

Definition generateCone (radius height : number) (seg : nat) (color : string)
    : list Vector3.t * list Face.t :=
  let vertices :=
    [ Vector3.mk 0 0 0; Vector3.mk 0 (- height) 0 ]
    ++ map (λ i,
         let theta := ofNat i / ofNat seg * Math_PI * 2 in
         Vector3.mk (Math_cos theta * radius) 0 (Math_sin theta * radius))
         (seq 0 seg) in
  let faces :=
    map (λ i,
      let curr := (2 + i)%nat in
      let next := (2 + (i + 1) mod seg)%nat in
      Face.mk [1%nat; next; curr] (Some color))
      (seq 0 seg) in
  (vertices, faces).

End Cone.

Definition pyramidVertices : list Vector3.t :=
  let half := 70 / 2 in
  [ Vector3.mk (- half) half (- half); Vector3.mk half half (- half);
    Vector3.mk half half half; Vector3.mk (- half) half half;
    Vector3.mk 0 (- half) 0 ].

Definition pyramidFaces : list Face.t :=
  [ Face.mk [0; 1; 4]%nat (Some "rgba(236, 72, 153, 0.2)"%string);
    Face.mk [1; 2; 4]%nat (Some "rgba(236, 72, 153, 0.2)"%string);
    Face.mk [2; 3; 4]%nat (Some "rgba(236, 72, 153, 0.2)"%string);
    Face.mk [3; 0; 4]%nat (Some "rgba(236, 72, 153, 0.2)"%string);
    Face.mk [3; 2; 1; 0]%nat (Some "rgba(236, 72, 153, 0.1)"%string) ].

Definition newPyramid3D (id : string) (x y : number) : RigidBody3D.t :=
  RigidBody3D.mk id pyramid (Vector3.mk x y 0) (Quaternion.mk 0 0 0 1) (Vector3.mk 1 1 1)
    (Vector3.mk 0 0 0) (Vector3.mk 0 0 0) pyramidVertices pyramidFaces
    false None 0 "#ec4899" 0 None.

Definition spawnPyramid3D (s : SoftBodySystem.t) (id : string) (x y : number)
    : SoftBodySystem.t :=
  SoftBodySystem.set_rigidBodies s (SoftBodySystem.rigidBodies s ++ [newPyramid3D id x y]).

(** A mesh the rasteriser can read: every face names at least the three
    vertices its winding test reads, and names no vertex that is missing. *)
Definition meshClosed (vertices : list Vector3.t) (faces : list Face.t) : bool :=
  forallb (λ f,
    (3 <=? length (Face.indices f))%nat
    && forallb (λ i, (i <? length vertices)%nat) (Face.indices f))
    faces.

(** ** The soft-body spawners

    A spawner fills a local array [points] and stores it in the object; the
    point of index [i] of that array is allocated at [base + i], [base] being
    the size of the point store at the call.  A result [None] stands for the
    TypeError of reading a coordinate of a missing array element. *)

(** [a[i]] for an index computed by a subtraction: [undefined] under 0 and
    past the end. *)
Definition arrayGet {A} (a : list A) (i : Z) : option A :=
  if (i <? 0)%Z then None else a !! Z.to_nat i.

Section SoftSpawners.

Variable Math_sin : number -> number.
Variable Math_cos : number -> number.
Variable Math_hypot : number -> number -> number.
Variable Math_random : nat -> number.

(** [link(p1, p2, visible)] of [spawnCar]: the stick it pushes. *)
Definition link (p1 p2 : ref * Point.t) (visible : bool) : Stick.t :=
  let d := Math_hypot (Point.x p1.2 - Point.x p2.2) (Point.y p1.2 - Point.y p2.2) in
  Stick.mk p1.1 p2.1 d (Some (negb visible)) None None.

Definition spawnCar (s : SoftBodySystem.t) (id : string) (cx cy : number)
    : SoftBodySystem.t :=
  let base := length (SoftBodySystem.pointStore s) in
  let w := 120 in
  let h := 40 in
  let roofH := 30 in
  let bl := (base, newPoint (cx - w / 2) cy false) in
  let br := ((base + 1)%nat, newPoint (cx + w / 2) cy false) in
  let tl := ((base + 2)%nat, newPoint (cx - w / 2) (cy - h) false) in
  let tr := ((base + 3)%nat, newPoint (cx + w / 2) (cy - h) false) in
  let rl := ((base + 4)%nat, newPoint (cx - w / 4) (cy - h - roofH) false) in
  let rr := ((base + 5)%nat, newPoint (cx + w / 4) (cy - h - roofH) false) in
  let wheelRadius := 15 in
  let addWheel (r : ref) (x y : number) : ref * Point.t :=
    (r, Point.mk x y x y false 0 0 None (Some wheelRadius) None) in
  let w1 := addWheel (base + 6)%nat (cx - w / 2 + 20) (cy + 15) in
  let w2 := addWheel (base + 7)%nat (cx + w / 2 - 20) (cy + 15) in
  let sticks :=
    [ link bl br true; link br tr true; link tr tl true; link tl bl true;
      link bl tr false; link br tl false;
      link tl rl true; link tr rr true; link rl rr true;
      link rl tr false; link rr tl false;
      link w1 bl true; link w1 tl true; link w1 br false;
      link w2 br true; link w2 tr true; link w2 bl false ] in
  let points := [bl; br; tl; tr; rl; rr; w1; w2] in
  SoftBodySystem.set_objects
    (SoftBodySystem.set_pointStore s (SoftBodySystem.pointStore s ++ points.*2))
    (SoftBodySystem.objects s
     ++ [SoftBodyObject.mk id car points.*1 sticks "#3b82f6" None None None]).

(** The state of the loops of [spawnPlant]: the local arrays, the index in
    [points] of [prev] with its value, and the number of calls made to
    [Math.random]. *)
Definition PlantState : Type := list Point.t * list Stick.t * (nat * Point.t) * nat.

(** One turn of the stem loop, for the segment [i]. *)
Definition plantSegment (base : nat) (cx cy : number) (st : PlantState) (i : nat)
    : PlantState :=
  let '(points, sticks, prev, k) := st in
  let segments := 7%nat in
  let segLen := 35 in
  let curve := (Math_random k - 0.5) * 10 in
  let px := cx + curve * ofNat i in
  let py := cy - ofNat i * segLen in
  let p := Point.mk px py px py false 0 0 None None (Some "#22c55e"%string) in
  let pIdx := length points in
  let points := points ++ [p] in
  let sticks :=
    sticks ++ [ Stick.mk (base + prev.1)%nat (base + pIdx)%nat segLen None
                  (Some "#22c55e"%string) (Some (Math.max2 1 (8 - ofNat i))) ] in
  if (1 <? i)%nat && (i <? segments)%nat then
    let dir := if Nat.even i then 1 else - 1 in
    let leafLen := 40 - ofNat i * 3 in
    let lx := Point.x p + leafLen * dir in
    let ly := Point.y p - 10 in
    let leafP := Point.mk lx ly lx ly false 0 0 None (Some 5) (Some "#4ade80"%string) in
    let leafIdx := length points in
    let points := points ++ [leafP] in
    let sticks :=
      sticks ++ [ Stick.mk (base + pIdx)%nat (base + leafIdx)%nat
                    (Math_hypot (lx - Point.x p) (ly - Point.y p)) None
                    (Some "#16a34a"%string) (Some 1) ] in
    let sticks :=
      sticks ++ [ Stick.mk (base + prev.1)%nat (base + leafIdx)%nat
                    (Math_hypot (lx - Point.x prev.2) (ly - Point.y prev.2))
                    (Some true) None None ] in
    (points, sticks, (pIdx, p), S k)
  else (points, sticks, (pIdx, p), S k).

(** One turn of the petal loop, for the petal [i] around [flowerCenter]. *)
Definition plantPetal (base : nat) (flowerCenter : nat * Point.t)
    (st : option (list Point.t * list Stick.t)) (i : nat)
    : option (list Point.t * list Stick.t) :=
  '(points, sticks) ← st;
  let petalCount := 6 in
  let petalRadius := 25 in
  let angle := ofNat i / petalCount * Math_PI * 2 in
  let px := Point.x flowerCenter.2 + Math_cos angle * petalRadius in
  let py := Point.y flowerCenter.2 + Math_sin angle * petalRadius in
  let petal := Point.mk px py px py false 0 0 None (Some 8) (Some "#f472b6"%string) in
  let petalIdx := length points in
  let points := points ++ [petal] in
  let sticks :=
    sticks ++ [ Stick.mk (base + flowerCenter.1)%nat (base + petalIdx)%nat petalRadius None
                  (Some "#ec4899"%string) (Some 2) ] in
  if (0 <? i)%nat then
    let prevIdx := (Z.of_nat (length points) - 2)%Z in
    prevPetal ← arrayGet points prevIdx;
    let d := Math_hypot (px - Point.x prevPetal) (py - Point.y prevPetal) in
    Some (points,
          sticks ++ [ Stick.mk (base + Z.to_nat prevIdx)%nat (base + petalIdx)%nat d
                        (Some true) None None ])
  else Some (points, sticks).

Definition spawnPlant (s : SoftBodySystem.t) (k : nat) (id : string) (cx cy : number)
    : option (SoftBodySystem.t * nat) :=
  let base := length (SoftBodySystem.pointStore s) in
  let basePoint := newPoint cx cy true in
  let '(points, sticks, prev, k') :=
    foldl (plantSegment base cx cy) ([basePoint], [], (0%nat, basePoint), k) (seq 1 7) in
  (* flowerCenter.color = '#fbbf24'; flowerCenter.radius = 10 *)
  let flowerCenter :=
    (prev.1, Point.mk (Point.x prev.2) (Point.y prev.2) (Point.oldX prev.2) (Point.oldY prev.2)
               (Point.isPinned prev.2) (Point.u prev.2) (Point.v prev.2) (Point.mass prev.2)
               (Some 10) (Some "#fbbf24"%string)) in
  let points := <[flowerCenter.1 := flowerCenter.2]> points in
  '(points, sticks) ← foldl (plantPetal base flowerCenter) (Some (points, sticks)) (seq 0 6);
  let petalCount := 6%Z in
  let lastIdx := (Z.of_nat (length points) - 1)%Z in
  let firstIdx := (Z.of_nat (length points) - petalCount)%Z in
  lastPetal ← arrayGet points lastIdx;
  firstPetal ← arrayGet points firstIdx;
  let d := Math_hypot (Point.x lastPetal - Point.x firstPetal)
                      (Point.y lastPetal - Point.y firstPetal) in
  let sticks :=
    sticks ++ [ Stick.mk (base + Z.to_nat lastIdx)%nat (base + Z.to_nat firstIdx)%nat
                  d (Some true) None None ] in
  Some (SoftBodySystem.set_objects
          (SoftBodySystem.set_pointStore s (SoftBodySystem.pointStore s ++ points))
          (SoftBodySystem.objects s
           ++ [SoftBodyObject.mk id plant (map (Nat.add base) (seq 0 (length points))) sticks
                 "#22c55e" None None None]),
        k').

(** The sticks [spawnCastle] pushes at the grid position [(x, y)];
    [getP x y] is the place of [points[y * (cols + 1) + x]]. *)
Definition castleSticks (getP : nat -> nat -> ref) (cols rows : nat) (stepX stepY : number)
    (x y : nat) : list Stick.t :=
  (if (x <? cols)%nat
   then [ Stick.mk (getP x y) (getP (x + 1)%nat y) stepX None None None ] else [])
  ++ (if (y <? rows)%nat
      then [ Stick.mk (getP x y) (getP x (y + 1)%nat) stepY None None None ] else [])
  ++ (if (x <? cols)%nat && (y <? rows)%nat
      then [ Stick.mk (getP x y) (getP (x + 1)%nat (y + 1)%nat) (Math_hypot stepX stepY)
               (Some true) None None;
             Stick.mk (getP (x + 1)%nat y) (getP x (y + 1)%nat) (Math_hypot stepX stepY)
               (Some true) None None ]
      else []).

(** One turn of the battlement loop, over the column [x]. *)
Definition castleBattlement (base cols : nat)
    (st : option (list Point.t * list Stick.t)) (x : nat)
    : option (list Point.t * list Stick.t) :=
  '(points, sticks) ← st;
  baseP ← points !! (0 * (cols + 1) + x)%nat;
  let batP := Point.mk (Point.x baseP) (Point.y baseP - 20) (Point.x baseP) (Point.y baseP - 20)
                false 0 0 None None None in
  Some (points ++ [batP],
        sticks ++ [ Stick.mk (base + (0 * (cols + 1) + x))%nat (base + length points)%nat 20
                      None None None ]).

Definition spawnCastle (s : SoftBodySystem.t) (id : string) (cx cy : number)
    : option SoftBodySystem.t :=
  let base := length (SoftBodySystem.pointStore s) in
  let w := 100 in
  let h := 100 in
  let cols := 3%nat in
  let rows := 3%nat in
  let stepX := w / ofNat cols in
  let stepY := h / ofNat rows in
  let grid :=
    flat_map (λ y,
      map (λ x,
        let px := cx - w / 2 + ofNat x * stepX in
        let py := cy - h + ofNat y * stepY in
        Point.mk px py px py (Nat.eqb y rows) 0 0 None None None)
        (seq 0 (S cols)))
      (seq 0 (S rows)) in
  let getP (x y : nat) : ref := (base + (y * (cols + 1) + x))%nat in
  let sticks :=
    flat_map (λ y,
      flat_map (λ x, castleSticks getP cols rows stepX stepY x y) (seq 0 (S cols)))
      (seq 0 (S rows)) in
  '(points, sticks) ← foldl (castleBattlement base cols) (Some (grid, sticks)) (seq 0 (S cols));
  Some (SoftBodySystem.set_objects
          (SoftBodySystem.set_pointStore s (SoftBodySystem.pointStore s ++ points))
          (SoftBodySystem.objects s
           ++ [SoftBodyObject.mk id castle (map (Nat.add base) (seq 0 (length points))) sticks
                 "#94a3b8" None None None])).

End SoftSpawners.

(** ** The calls of the host, spawners and reset included *)

(** Whether a call on a running system throws: of these calls only
    [updateHorns] can. *)
Definition opThrows (s : SoftBodySystem.t) (op : Op) : bool :=
  match op with
  | OpUpdateHorns faceLandmarks isGestureActive _ _ =>
      updateHornsThrows s faceLandmarks isGestureActive
  | _ => false
  end.

Inductive HostCall :=
  | CallOp (op : Op)
  | CallReset
  | CallSpawnCube3D (id : string) (x y : number)
  | CallSpawnPyramid3D (id : string) (x y : number)
  | CallSpawnDragon (id : string) (x y : number)
  | CallSpawnCar (id : string) (cx cy : number)
  | CallSpawnPlant (id : string) (cx cy : number)
  | CallSpawnCastle (id : string) (cx cy : number).

Section CallVocabulary.

Variables (Math_sin Math_cos : number -> number) (Math_hypot Math_atan2 : number -> number -> number).
Variable Math_random : nat -> number.

(** One call on the system and the count of [Math.random] calls; [None]
    once a call has thrown. *)
Definition runCall (st : option (SoftBodySystem.t * nat)) (call : HostCall)
    : option (SoftBodySystem.t * nat) :=
  '(s, k) ← st;
  match call with
  | CallOp op =>
      if opThrows s op then None
      else Some (runOp Math_sin Math_cos Math_hypot Math_atan2 Math_random (s, k) op)
  | CallReset => Some (SoftBodySystem.reset s, k)
  | CallSpawnCube3D id x y => Some (spawnCube3D s id x y, k)
  | CallSpawnPyramid3D id x y => Some (spawnPyramid3D s id x y, k)
  | CallSpawnDragon id x y => Some (spawnDragon Math_sin Math_cos s id x y, k)
  | CallSpawnCar id cx cy => Some (spawnCar Math_hypot s id cx cy, k)
  | CallSpawnPlant id cx cy => spawnPlant Math_sin Math_cos Math_hypot Math_random s k id cx cy
  | CallSpawnCastle id cx cy => (λ s', (s', k)) <$> spawnCastle Math_hypot s id cx cy
  end.

End CallVocabulary.

(** An object whose points and stick ends all lie in a store of [n] points. *)
Definition objValid (n : nat) (obj : SoftBodyObject.t) : Prop :=
  Forall (λ r, (r < n)%nat) (SoftBodyObject.points obj)
  ∧ Forall (λ st, (Stick.p0 st < n)%nat ∧ (Stick.p1 st < n)%nat) (SoftBodyObject.sticks obj).

(** No object and no spring refers to a point that is missing. *)
Definition refsValid (s : SoftBodySystem.t) : Prop :=
  Forall (objValid (length (SoftBodySystem.pointStore s))) (SoftBodySystem.objects s)
  ∧ Forall (λ kv, (Spring.point kv.2 < length (SoftBodySystem.pointStore s))%nat)
      (SoftBodySystem.mouseSprings s).

(** Every rigid body carries a mesh the rasteriser can read. *)
Definition bodiesDrawable (s : SoftBodySystem.t) : Prop :=
  Forall (λ b, meshClosed (RigidBody3D.vertices b) (RigidBody3D.faces b) = true)
    (SoftBodySystem.rigidBodies s).

(** A stick whose two ends lie in a store of [n] points. *)
Definition stickIn (n : nat) (st : Stick.t) : Prop :=
  (Stick.p0 st < n)%nat ∧ (Stick.p1 st < n)%nat.

(** * The particle system (utils/particleSystem.ts) *)

Module Particle.
Record t := mk {
  x : number; y : number;
  vx : number; vy : number;
  life : number; maxLife : number;
  size : number; hue : number
}.
End Particle.

(** The [type] argument of [emit]. *)
Inductive EmitType := emit_default | emit_stream | emit_cloud.

Definition is_stream (ty : EmitType) : bool :=
  match ty with emit_stream => true | _ => false end.

Definition is_cloud (ty : EmitType) : bool :=
  match ty with emit_cloud => true | _ => false end.

Module ParticleSystem.

(** The field [maxParticles]; nothing assigns it. *)
Definition maxParticles : nat := 1500.

Section Host.

Variable Math_sin : number -> number.
Variable Math_cos : number -> number.
Variable Math_floor : number -> number.
Variable Math_random : nat -> number.

(** The particle one turn of the loop of [emit] pushes, [k] calls to
    [Math.random] having been made before. *)
Definition emitOne (x y intensity : number) (velocity : number * number) (type : EmitType)
    (spread speedMult lifeMult : number) (k : nat) : Particle.t :=
  let px := x + (Math_random k - 0.5) * spread in
  let py := y + (Math_random (k + 1)%nat - 0.5) * spread in
  let angle := Math_random (k + 2)%nat * Math_PI * 2 in
  let scatterSpeed := (if is_stream type then 0.2 else 0.5) + intensity * 2 in
  let vx := velocity.1 * speedMult + Math_cos angle * scatterSpeed in
  let vy := velocity.2 * speedMult + Math_sin angle * scatterSpeed in
  let targetHue := 200 - intensity * 160 in
  let targetHue := if is_stream type then 50 else targetHue in
  let targetHue := if is_cloud type then 260 else targetHue in
  let hueVariation := Math_random (k + 3)%nat * 30 - 15 in
  let baseSize := if is_stream type then 4 else 2 in
  let randomVar := Math_random (k + 4)%nat * 3 in
  let size := (baseSize + randomVar) * (0.8 + intensity * 1.5) in
  Particle.mk px py vx vy (1.0 * lifeMult) (1.0 * lifeMult) size (targetHue + hueVariation).

(** [for (let i = 0; i < count; i++)], with its [break] when the list is
    full: [room] is [maxParticles - particles.length]. *)
Fixpoint emitLoop (room : nat) (i : nat) (count : number)
    (x y intensity : number) (velocity : number * number) (type : EmitType)
    (spread speedMult lifeMult : number) (particles : list Particle.t) (k : nat)
    : list Particle.t * nat :=
  if ofNat i <? count then
    match room with
    | O => (particles, k)
    | S room' =>
        emitLoop room' (S i) count x y intensity velocity type spread speedMult lifeMult
          (particles ++ [emitOne x y intensity velocity type spread speedMult lifeMult k])
          (k + 5)%nat
    end
  else (particles, k).

Definition emit (particles : list Particle.t) (k : nat) (x y intensity : number)
    (velocity : number * number) (type : EmitType) : list Particle.t * nat :=
  let '(count, spread, speedMult, lifeMult) :=
    match type with
    | emit_cloud => (5 + Math_floor (intensity * 10), 40 + intensity * 10, 0.1, 1.5)
    | emit_stream => (5, 3, 0.9, 0.8)
    | emit_default => (2 + Math_floor (intensity * 8), 5 + intensity * 20, 0.3, 1.0)
    end in
  if (maxParticles <=? length particles)%nat then (particles, k)
  else emitLoop (maxParticles - length particles) 0 count x y intensity velocity type
         spread speedMult lifeMult particles k.

(** The body of the loop of [repel] on one particle. *)
Definition repelOne (x y radius strength : number) (p : Particle.t) (k : nat)
    : Particle.t * nat :=
  let dx := Particle.x p - x in
  let dy := Particle.y p - y in
  let distSq := dx * dx + dy * dy in
  let rSq := radius * radius in
  if (distSq <? rSq) && (distSq >? 0.1) then
    let dist := Math.sqrt distSq in
    let factor := (1 - dist / radius) * strength in
    let vx := Particle.vx p + dx / dist * factor in
    let vy := Particle.vy p + dy / dist * factor in
    let vx := vx + (Math_random k - 0.5) * factor * 2 in
    let vy := vy + (Math_random (k + 1)%nat - 0.5) * factor * 2 in
    (Particle.mk (Particle.x p) (Particle.y p) vx vy (Particle.life p) (Particle.maxLife p)
       (Particle.size p) (Particle.hue p),
     (k + 2)%nat)
  else (p, k).

Fixpoint repel (particles : list Particle.t) (k : nat) (x y radius strength : number)
    : list Particle.t * nat :=
  match particles with
  | [] => ([], k)
  | p :: rest =>
      let '(p', k') := repelOne x y radius strength p k in
      let '(rest', k'') := repel rest k' x y radius strength in
      (p' :: rest', k'')
  end.

(** The body of the loop of [update] on one particle, up to the test of
    its life. *)
Definition stepParticle (p : Particle.t) (k : nat) : Particle.t :=
  let x := Particle.x p + Particle.vx p in
  let y := Particle.y p + Particle.vy p in
  let vx := Particle.vx p * 0.95 in
  let vy := Particle.vy p * 0.95 in
  let vx := vx + (Math_random k - 0.5) * 0.1 in
  let vy := vy + (Math_random (k + 1)%nat - 0.5) * 0.1 in
  Particle.mk x y vx vy (Particle.life p - 0.015) (Particle.maxLife p)
    (Particle.size p) (Particle.hue p).

(** [for (let i = this.particles.length - 1; i >= 0; i--)]: [n] is [i + 1],
    and a dead particle is removed by [splice(i, 1)]. *)
Fixpoint updateLoop (n : nat) (particles : list Particle.t) (k : nat)
    : list Particle.t * nat :=
  match n with
  | O => (particles, k)
  | S i =>
      match particles !! i with
      | None => updateLoop i particles k
      | Some p =>
          let p' := stepParticle p k in
          if Particle.life p' <=? 0
          then updateLoop i (delete i particles) (k + 2)%nat
          else updateLoop i (<[i := p']> particles) (k + 2)%nat
      end
  end.

Definition update (particles : list Particle.t) (k : nat) : list Particle.t * nat :=
  updateLoop (length particles) particles k.

End Host.

End ParticleSystem.

(** * The frame loop (components/Visualizer.tsx)

    What [predictWebcam] decides from the landmarks of a frame, and the
    calls it makes on the two systems.  The canvas is not modelled: the
    drawing calls are left out, and a result [None] stands for a TypeError
    on a landmark that is missing. *)

Module HandGesture.
Inductive t := GENERIC | MIDDLE_FINGER | FIST | PINCH | VICTORY | OPEN_PALM.

Definition is_pinch (g : t) : bool := match g with PINCH => true | _ => false end.
Definition is_fist (g : t) : bool := match g with FIST => true | _ => false end.
Definition is_open_palm (g : t) : bool := match g with OPEN_PALM => true | _ => false end.
End HandGesture.

Module GlobalGesture.
Inductive t := NONE | HALO | CENSOR | HORNS | FIST | PINCH | FOLD.

Definition is_none (g : t) : bool := match g with NONE => true | _ => false end.
Definition is_halo (g : t) : bool := match g with HALO => true | _ => false end.
Definition is_censor (g : t) : bool := match g with CENSOR => true | _ => false end.
Definition is_horns (g : t) : bool := match g with HORNS => true | _ => false end.
End GlobalGesture.

Inductive VisualizerMode := mode_object | mode_particles | mode_all.

(** The pairs of landmarks the skeleton joins. *)
Definition CONNECTIONS : list (nat * nat) :=
  [ (0, 1); (1, 2); (2, 3); (3, 4);
    (0, 5); (5, 6); (6, 7); (7, 8);
    (0, 9); (9, 10); (10, 11); (11, 12);
    (0, 13); (13, 14); (14, 15); (15, 16);
    (0, 17); (17, 18); (18, 19); (19, 20);
    (5, 9); (9, 13); (13, 17); (0, 17) ]%nat.

(** A call of the frame on the soft-body system or on the particles. *)
Inductive FrameCall :=
  | SoftCall (op : Op)
  | EmitCall (x y intensity : number) (velocity : number * number) (type : EmitType)
  | ParticlesUpdate.

(** What a hand callback reads off its landmarks. *)
Module HandInput.
Record t := mk {
  gesture : HandGesture.t;
  cx : number; cy : number; cz : number;
  rotation : number;
  pinchX : number; pinchY : number;
  velocity : number * number
}.
End HandInput.

(** [z || 0]: 0 for a [z] that is 0 or NaN. *)
Definition orZero (z : number) : number :=
  if (z =? 0) || PrimFloat.is_nan z then 0 else z.

(** The next value of [globalGesture], a hand showing [h]. *)
Definition nextGlobal (g : GlobalGesture.t) (h : HandGesture.t) : GlobalGesture.t :=
  if negb (GlobalGesture.is_halo g) then
    match h with
    | HandGesture.MIDDLE_FINGER => GlobalGesture.CENSOR
    | HandGesture.VICTORY =>
        if negb (GlobalGesture.is_censor g) then GlobalGesture.HORNS else g
    | HandGesture.FIST =>
        if negb (GlobalGesture.is_censor g) && negb (GlobalGesture.is_horns g)
        then GlobalGesture.FIST else g
    | HandGesture.PINCH => if GlobalGesture.is_none g then GlobalGesture.PINCH else g
    | HandGesture.OPEN_PALM => if GlobalGesture.is_none g then GlobalGesture.FOLD else g
    | HandGesture.GENERIC => g
    end
  else g.

(** The calls of one hand callback on the two systems, in order. *)
Definition handCalls (allowObjects allowParticles : bool) (brightness : number)
    (handIndex : nat) (h : HandInput.t) : list FrameCall :=
  let handGesture := HandInput.gesture h in
  let cx := HandInput.cx h in
  let cy := HandInput.cy h in
  (if allowObjects then
     [ SoftCall (OpInteraction3D handIndex cx cy (HandInput.cz h)
                   (HandGesture.is_pinch handGesture) (HandInput.rotation h)) ]
     ++ (if HandGesture.is_fist handGesture then [ SoftCall (OpCrumple cx cy 180 1.5) ] else [])
     ++ (if HandGesture.is_pinch handGesture
         then [ SoftCall (OpInteraction handIndex (HandInput.pinchX h) (HandInput.pinchY h) true) ]
         else [ SoftCall (OpInteraction handIndex 0 0 false) ])
     ++ (if HandGesture.is_open_palm handGesture
         then [ SoftCall (OpFold cx cy 220 (HandInput.velocity h)) ] else [])
   else [ SoftCall (OpInteraction handIndex 0 0 false) ])
  ++ (if allowParticles && HandGesture.is_open_palm handGesture
      then [ EmitCall cx cy brightness (HandInput.velocity h) emit_cloud ] else []).

Section Frame.

Variables (Math_sin Math_cos Math_floor : number -> number).
Variables (Math_hypot Math_atan2 : number -> number -> number).
Variable Math_random : nat -> number.

Definition isExtended (wrist tip pip : Vector3.t) : bool :=
  Math_hypot (Vector3.x tip - Vector3.x wrist) (Vector3.y tip - Vector3.y wrist)
  >? Math_hypot (Vector3.x pip - Vector3.x wrist) (Vector3.y pip - Vector3.y wrist).

(** The gesture of one hand. *)
Definition handGestureOf (landmarks : list Vector3.t) : option HandGesture.t :=
  wrist ← landmarks !! 0%nat;
  thumbTip ← landmarks !! 4%nat;
  indexTip ← landmarks !! 8%nat;
  middleTip ← landmarks !! 12%nat;
  ringTip ← landmarks !! 16%nat;
  pinkyTip ← landmarks !! 20%nat;
  indexPip ← landmarks !! 6%nat;
  middlePip ← landmarks !! 10%nat;
  ringPip ← landmarks !! 14%nat;
  pinkyPip ← landmarks !! 18%nat;
  let isCurled tip pip := negb (isExtended wrist tip pip) in
  let indexOpen := isExtended wrist indexTip indexPip in
  let middleOpen := isExtended wrist middleTip middlePip in
  let ringOpen := isExtended wrist ringTip ringPip in
  let pinkyOpen := isExtended wrist pinkyTip pinkyPip in
  let pinchDist :=
    Math_hypot (Vector3.x thumbTip - Vector3.x indexTip)
               (Vector3.y thumbTip - Vector3.y indexTip) in
  Some
    (if isCurled indexTip indexPip && middleOpen && isCurled ringTip ringPip
        && isCurled pinkyTip pinkyPip
     then HandGesture.MIDDLE_FINGER
     else if negb indexOpen && negb middleOpen && negb ringOpen && negb pinkyOpen
     then HandGesture.FIST
     else if pinchDist <? 0.05 then HandGesture.PINCH
     else if indexOpen && middleOpen && negb ringOpen && negb pinkyOpen
     then HandGesture.VICTORY
     else if indexOpen && middleOpen && ringOpen && pinkyOpen
     then HandGesture.OPEN_PALM
     else HandGesture.GENERIC).

(** Everything a hand callback reads; [prevLandmarks] is the entry of the
    hand in the landmarks of the frame before, when there is one. *)
Definition readHand (width height : number) (prevLandmarks : option (list Vector3.t))
    (landmarks : list Vector3.t) : option HandInput.t :=
  handGesture ← handGestureOf landmarks;
  wrist ← landmarks !! 0%nat;
  thumbTip ← landmarks !! 4%nat;
  indexTip ← landmarks !! 8%nat;
  palm ← landmarks !! 9%nat;
  let cx := (1 - Vector3.x palm) * width in
  let cy := Vector3.y palm * height in
  let cz := orZero (Vector3.z palm) * 100 in
  knuckle ← landmarks !! 5%nat;
  let vecX := Vector3.x knuckle - Vector3.x wrist in
  let vecY := Vector3.y knuckle - Vector3.y wrist in
  let rotation := Math_atan2 vecY (- vecX) in
  velocity ←
    match prevLandmarks with
    | Some prev =>
        prevPalm ← prev !! 9%nat;
        let prevX := (1 - Vector3.x prevPalm) * width in
        let prevY := Vector3.y prevPalm * height in
        Some (cx - prevX, cy - prevY)
    | None => Some (0, 0)
    end;
  let pinchX := (1 - (Vector3.x thumbTip + Vector3.x indexTip) / 2) * width in
  let pinchY := (Vector3.y thumbTip + Vector3.y indexTip) / 2 * height in
  (* the skeleton reads both ends of every connection *)
  if forallb (λ c, bool_decide (is_Some (landmarks !! c.1))
                   && bool_decide (is_Some (landmarks !! c.2))) CONNECTIONS
  then Some (HandInput.mk handGesture cx cy cz rotation pinchX pinchY velocity)
  else None.

(** The value of [globalGesture] before the hands are visited: the halo
    of two hands raised over the nose. *)
Definition initialGesture (allowObjects : bool) (hands : list (list Vector3.t))
    (face : option (list Vector3.t)) : option GlobalGesture.t :=
  match hands, face with
  | [h1; h2], Some face =>
      wrist1 ← h1 !! 0%nat;
      nose ← face !! 1%nat;
      if Vector3.y wrist1 <? Vector3.y nose then
        wrist2 ← h2 !! 0%nat;
        if Vector3.y wrist2 <? Vector3.y nose then
          if allowObjects then
            (* drawHalo reads face[10] *)
            _ ← face !! 10%nat; Some GlobalGesture.HALO
          else Some GlobalGesture.HALO
        else Some GlobalGesture.NONE
      else Some GlobalGesture.NONE
  | _, _ => Some GlobalGesture.NONE
  end.

(** One turn of [hands.forEach]: the calls made so far, the gesture so far
    and the index of the hand. *)
Definition handStep (allowObjects allowParticles : bool) (width height brightness : number)
    (prevHands : list (list Vector3.t))
    (acc : option (list FrameCall * GlobalGesture.t * nat)) (landmarks : list Vector3.t)
    : option (list FrameCall * GlobalGesture.t * nat) :=
  '(calls, globalGesture, handIndex) ← acc;
  h ← readHand width height (prevHands !! handIndex) landmarks;
  Some (calls ++ handCalls allowObjects allowParticles brightness handIndex h,
        nextGlobal globalGesture (HandInput.gesture h),
        S handIndex).

(** The calls of one frame on the two systems, and the gesture it shows. *)
Definition frameCalls (mode : VisualizerMode) (width height brightness : number)
    (prevHands hands : list (list Vector3.t)) (face : option (list Vector3.t))
    : option (list FrameCall * GlobalGesture.t) :=
  let allowObjects := match mode with mode_all | mode_object => true | _ => false end in
  let allowParticles := match mode with mode_all | mode_particles => true | _ => false end in
  g0 ← initialGesture allowObjects hands face;
  '(calls, globalGesture, _) ←
    foldl (handStep allowObjects allowParticles width height brightness prevHands)
      (Some ([], g0, 0%nat)) hands;
  hornCalls ←
    match face with
    | Some face =>
        if allowObjects then
          let isHornsActive := GlobalGesture.is_horns globalGesture in
          (* an active gesture makes updateHorns read the landmarks 105 and 334 *)
          if isHornsActive
             && negb (bool_decide (is_Some (face !! 105%nat))
                      && bool_decide (is_Some (face !! 334%nat)))
          then None
          else Some [ SoftCall (OpUpdateHorns face isHornsActive width height) ]
        else Some []
    | None => Some []
    end;
  Some (calls ++ hornCalls
        ++ (if allowObjects then [ SoftCall (OpUpdate width height) ] else [])
        ++ [ ParticlesUpdate ],
        globalGesture).

(** The two systems and the number of calls made to [Math.random]. *)
Definition World : Type := SoftBodySystem.t * list Particle.t * nat.

(** One call of the frame.  A horn update is run for the state it leaves;
    [frameCalls] has already set aside the frames whose horn update throws
    on a missing landmark, and a horn without a config, the other way for
    it to throw, is made by no call of the class. *)

Definition runFrameCall (w : World) (c : FrameCall) : World :=
  let '(sb, ps, k) := w in
  match c with
  | SoftCall op =>
      let '(sb', k') := runOp Math_sin Math_cos Math_hypot Math_atan2 Math_random (sb, k) op in
      (sb', ps, k')
  | EmitCall x y intensity velocity type =>
      let '(ps', k') :=
        ParticleSystem.emit Math_sin Math_cos Math_floor Math_random ps k x y intensity
          velocity type in
      (sb, ps', k')
  | ParticlesUpdate =>
      let '(ps', k') := ParticleSystem.update Math_random ps k in
      (sb, ps', k')
  end.

(** One frame on the two systems. *)
Definition predictWebcam (mode : VisualizerMode) (width height brightness : number)
    (prevHands hands : list (list Vector3.t)) (face : option (list Vector3.t)) (w : World)
    : option (World * GlobalGesture.t) :=
  '(calls, globalGesture) ← frameCalls mode width height brightness prevHands hands face;
  Some (foldl runFrameCall w calls, globalGesture).

End Frame.

(** ** Vocabulary of the statements about a frame *)

Definition is_middle_finger (g : HandGesture.t) : bool :=
  match g with HandGesture.MIDDLE_FINGER => true | _ => false end.

Definition is_victory (g : HandGesture.t) : bool :=
  match g with HandGesture.VICTORY => true | _ => false end.

(** The gesture a frame shows when its hands show [hs], in the order of
    the hands, and no halo is up. *)
Definition gestureOfHands (hs : list HandGesture.t) : GlobalGesture.t :=
  if existsb is_middle_finger hs then GlobalGesture.CENSOR
  else if existsb is_victory hs then GlobalGesture.HORNS
  else if existsb HandGesture.is_fist hs then GlobalGesture.FIST
  else
    match filter (λ h, HandGesture.is_pinch h || HandGesture.is_open_palm h) hs with
    | HandGesture.PINCH :: _ => GlobalGesture.PINCH
    | HandGesture.OPEN_PALM :: _ => GlobalGesture.FOLD
    | _ => GlobalGesture.NONE
    end.

Section FrameVocabulary.

Variables (Math_hypot Math_atan2 : number -> number -> number).
Variables (width height : number) (prevHands : list (list Vector3.t)).

(** What the callbacks of the hands read, [i] being the index of the first. *)
Fixpoint readHands (i : nat) (hands : list (list Vector3.t)) : option (list HandInput.t) :=
  match hands with
  | [] => Some []
  | landmarks :: rest =>
      h ← readHand Math_hypot Math_atan2 width height (prevHands !! i) landmarks;
      hs ← readHands (S i) rest;
      Some (h :: hs)
  end.

End FrameVocabulary.

(** The calls of the callbacks of the hands [hs], [i] being the index of
    the first. *)
Fixpoint handsCalls (allowObjects allowParticles : bool) (brightness : number)
    (i : nat) (hs : list HandInput.t) : list FrameCall :=
  match hs with
  | [] => []
  | h :: rest =>
      handCalls allowObjects allowParticles brightness i h
      ++ handsCalls allowObjects allowParticles brightness (S i) rest
  end.

(** The hand a call acts for. *)
Definition callActor (c : FrameCall) : option nat :=
  match c with
  | SoftCall (OpInteraction3D handId _ _ _ _ _) => Some handId
  | SoftCall (OpInteraction handId _ _ _) => Some handId
  | _ => None
  end.

(** [allowObjects] and [allowParticles] of a frame in the mode [mode]. *)
Definition allowsObjects (mode : VisualizerMode) : bool :=
  match mode with mode_all | mode_object => true | _ => false end.

Definition allowsParticles (mode : VisualizerMode) : bool :=
  match mode with mode_all | mode_particles => true | _ => false end.

(** The calls of a frame once the hands are done: the horns when a face is
    seen, the tick of the soft bodies, the tick of the particles. *)
Definition closingCalls (allowObjects : bool) (width height : number)
    (face : option (list Vector3.t)) (g : GlobalGesture.t) : list FrameCall :=
  match face with
  | Some face =>
      if allowObjects
      then [ SoftCall (OpUpdateHorns face (GlobalGesture.is_horns g) width height) ] else []
  | None => []
  end
  ++ (if allowObjects then [ SoftCall (OpUpdate width height) ] else [])
  ++ [ ParticlesUpdate ].

(** ** Hands of the examples

    A hand seen from the front, the wrist at the bottom: a finger is
    extended when its tip is at height 0.5 and curled when it is at 0.8,
    and the thumb tip is at [thumbX]. *)
Definition sampleHand (thumbX indexTipY middleTipY ringTipY pinkyTipY : number)
    : list Vector3.t :=
  [ Vector3.mk 0.5 0.9 0;
    Vector3.mk 0.45 0.8 0; Vector3.mk 0.4 0.75 0; Vector3.mk 0.35 0.7 0;
    Vector3.mk thumbX 0.65 0;
    Vector3.mk 0.45 0.7 0; Vector3.mk 0.45 0.6 0; Vector3.mk 0.45 0.55 0;
    Vector3.mk 0.45 indexTipY 0;
    Vector3.mk 0.5 0.7 0; Vector3.mk 0.5 0.6 0; Vector3.mk 0.5 0.55 0;
    Vector3.mk 0.5 middleTipY 0;
    Vector3.mk 0.55 0.7 0; Vector3.mk 0.55 0.6 0; Vector3.mk 0.55 0.55 0;
    Vector3.mk 0.55 ringTipY 0;
    Vector3.mk 0.6 0.7 0; Vector3.mk 0.6 0.6 0; Vector3.mk 0.6 0.55 0;
    Vector3.mk 0.6 pinkyTipY 0 ].

Definition victoryHand : list Vector3.t := sampleHand 0.3 0.5 0.5 0.8 0.8.
Definition fistHand : list Vector3.t := sampleHand 0.3 0.8 0.8 0.8 0.8.
Definition openHand : list Vector3.t := sampleHand 0.3 0.5 0.5 0.5 0.5.
(** Every finger open, and the thumb tip on the index tip. *)
Definition pinchHand : list Vector3.t := sampleHand 0.45 0.65 0.5 0.5 0.5.

(** Stand-ins for [Math.hypot], [Math.atan2] and [Math.floor] in the
    examples. *)
Definition sampleHypot (a b : number) : number := Math.sqrt (a * a + b * b).
Definition sampleAtan2 (a b : number) : number := a / (Math.abs a + Math.abs b + 1).
Definition sampleFloor (a : number) : number := 0.

(** A face as long as the landmarks the frame reads need, at mid-height. *)
Definition sampleFace : list Vector3.t := replicate 335 (Vector3.mk 0.5 0.5 0).

(** ** Vocabulary of the statements about the particles *)

(** The life [emit] gives a particle of each type: 1.0 times [lifeMult]. *)
Definition emittedLife (type : EmitType) : number :=
  match type with
  | emit_cloud => 1.0 * 1.5
  | emit_stream => 1.0 * 0.8
  | emit_default => 1.0 * 1.0
  end.

Section ParticleVocabulary.

Variable Math_random : nat -> number.

(** Every particle of a list after one step, the last one taking the
    first two random numbers, as the loop of [update] runs backwards. *)
Fixpoint stepAll (particles : list Particle.t) (k : nat) : list Particle.t :=
  match particles with
  | [] => []
  | p :: rest =>
      ParticleSystem.stepParticle Math_random p (k + 2 * length rest)%nat :: stepAll rest k
  end.

(** [n] ticks of the particles. *)
Definition updates (n : nat) (st : list Particle.t * nat) : list Particle.t * nat :=
  Nat.iter n (λ st, ParticleSystem.update Math_random st.1 st.2) st.

End ParticleVocabulary.

Definition alive (p : Particle.t) : bool := negb (Particle.life p <=? 0).

(** The life of a particle after [n] ticks, and whether it is still in
    the list then. *)
Definition lifeAfter (n : nat) (life : number) : number :=
  Nat.iter n (λ l, l - 0.015) life.

Definition survives (n : nat) (life : number) : bool :=
  forallb (λ j, negb (lifeAfter j life <=? 0)) (seq 1 n).

(** The state a frame expects and leaves: references that lead somewhere,
    meshes that can be drawn, one spring and one hold record a hand at
    most, and no more particles than the cap. *)
Definition worldSound (w : World) : Prop :=
  refsValid w.1.1 ∧ bodiesDrawable w.1.1
  ∧ uniqueKeys (SoftBodySystem.mouseSprings w.1.1)
  ∧ uniqueKeys (SoftBodySystem.heldObjects w.1.1)
  ∧ (length w.1.2 ≤ ParticleSystem.maxParticles)%nat.

(** * Properties *)

(** ** Maps keyed by hand id *)

Lemma JsMap_get_set_eq {V} (k : nat) (v : V) m : JsMap.get k (JsMap.set k v m) = Some v.
Proof.
  induction m as [|[k' v'] m IH]; simpl.
  - by rewrite Nat.eqb_refl.
  - destruct (Nat.eqb k' k) eqn:E; simpl.
    + by rewrite Nat.eqb_refl.
    + by rewrite E.
Qed.

Lemma JsMap_get_set_ne {V} (k k0 : nat) (v : V) m :
  k0 ≠ k → JsMap.get k0 (JsMap.set k v m) = JsMap.get k0 m.
Proof.
  intros Hne. induction m as [|[k' v'] m IH]; simpl.
  - destruct (Nat.eqb k k0) eqn:E; [apply Nat.eqb_eq in E; congruence | done].
  - destruct (Nat.eqb k' k) eqn:E; simpl.
    + apply Nat.eqb_eq in E. subst k'.
      destruct (Nat.eqb k k0) eqn:E'; [apply Nat.eqb_eq in E'; congruence | done].
    + by rewrite IH.
Qed.

Lemma JsMap_has_get {V} (k : nat) (m : list (nat * V)) :
  JsMap.has k m = false ↔ JsMap.get k m = None.
Proof. unfold JsMap.has. destruct (JsMap.get k m); naive_solver. Qed.

(** ** One tick of free fall *)

(** C9: the cube of the scenario, at rest at the origin, with the floor so
    far below that the tick does not reach it ([height - 30] is not under
    0.5).  After one [update] its velocity is (0, 0.5 x 0.98, 0), that is
    (0, 0.49, 0), and its position is (0, 0.5, 0), half a pixel from the
    origin: gravity is added to the velocity before the velocity is added to
    the position, and only then drag scales the velocity by 0.98. *)
Theorem free_fall_one_tick (Math_sin : number -> number) (width height : number) :
  (0.5 >? height - 30) = false →
  (λ b, (RigidBody3D.position b, RigidBody3D.velocity b)) <$>
    SoftBodySystem.rigidBodies (update Math_sin freeFallScene width height) !! 0%nat
  = Some (Vector3.mk 0 0.5 0, Vector3.mk 0 (0.5 * 0.98) 0)
  ∧ 0.5 * 0.98 = 0.49.
Proof.
  intros Hfar. split; [|reflexivity].
  vm_compute. vm_compute in Hfar. rewrite Hfar. reflexivity.
Qed.

Lemma free_fall_one_tick_witness :
  (λ b, (RigidBody3D.position b, RigidBody3D.velocity b)) <$>
    SoftBodySystem.rigidBodies (update sampleSin freeFallScene 800 100000) !! 0%nat
  = Some (Vector3.mk 0 0.5 0, Vector3.mk 0 0.49 0).
Proof. exact (proj1 (free_fall_one_tick sampleSin 800 100000 eq_refl)). Defined.

(** ** Grabbing *)

Lemma screenDist_resetGlow b x y : screenDist (resetGlow b) x y = screenDist b x y.
Proof. unfold resetGlow. by case (_ && _). Qed.

Lemma colliderRadius_resetGlow b : colliderRadius (resetGlow b) = colliderRadius b.
Proof. unfold resetGlow. by case (_ && _). Qed.

(** The hit test reads positions and scales only. *)
Lemma grabScan_resetGlow x y bodies idx closestDist target :
  grabScan x y (map resetGlow bodies) idx closestDist target
  = grabScan x y bodies idx closestDist target.
Proof.
  revert idx closestDist target.
  induction bodies as [|b bodies IH]; intros idx closestDist target; simpl; [done|].
  rewrite screenDist_resetGlow, colliderRadius_resetGlow.
  by case (_ && _); rewrite IH.
Qed.

Lemma grabScan_set_isHeld x y h bodies idx closestDist target :
  grabScan x y (map (λ b, RigidBody3D.set_isHeld b h) bodies) idx closestDist target
  = grabScan x y bodies idx closestDist target.
Proof.
  revert idx closestDist target.
  induction bodies as [|b bodies IH]; intros idx closestDist target; simpl; [done|].
  change (screenDist (RigidBody3D.set_isHeld b h) x y) with (screenDist b x y).
  change (colliderRadius (RigidBody3D.set_isHeld b h)) with (colliderRadius b).
  by case (_ && _); rewrite IH.
Qed.

(** C1 (as the code behaves): the grab scan never consults [isHeld].  When
    an actor without a hold record grabs and the scan selects body [j]
    (the nearest body inside its collider radius), a hold record for that
    body is established for the actor, whether or not the body is already
    held; the records of all other actors stay, so a body held by a first
    actor ends up held by both. *)
Theorem grab_ignores_held (Math_sin Math_cos : number -> number)
    (s : SoftBodySystem.t) (handId : nat) (x y z rot : number) (j : nat) (target : RigidBody3D.t) :
  JsMap.get handId (SoftBodySystem.heldObjects s) = None →
  grabScan x y (SoftBodySystem.rigidBodies s) 0 Infinity None = Some j →
  SoftBodySystem.rigidBodies s !! j = Some target →
  let s' := handleInteraction3D Math_sin Math_cos s handId x y z true rot in
  let p := RigidBody3D.position target in
  JsMap.get handId (SoftBodySystem.heldObjects s')
    = Some (Hold.mk (RigidBody3D.id target)
              (Vector3.mk (Vector3.x p - x) (Vector3.y p - y) (Vector3.z p - z))
              rot (RigidBody3D.rotation target))
  ∧ RigidBody3D.isHeld <$> SoftBodySystem.rigidBodies s' !! j = Some true
  ∧ (∀ k, k ≠ handId →
       JsMap.get k (SoftBodySystem.heldObjects s') = JsMap.get k (SoftBodySystem.heldObjects s))
  ∧ (∀ h, grabScan x y (map (λ b, RigidBody3D.set_isHeld b h) (SoftBodySystem.rigidBodies s))
            0 Infinity None = Some j).
Proof.
  intros Hfree Hscan Hj s' p.
  assert (Hj' : map resetGlow (SoftBodySystem.rigidBodies s) !! j = Some (resetGlow target))
    by (by rewrite list_lookup_fmap, Hj).
  assert (Hs' : s' = let t3 := RigidBody3D.set_glow (RigidBody3D.set_snapTarget
                         (RigidBody3D.set_isHeld (resetGlow target) true) None) 1.0 in
                     SoftBodySystem.set_heldObjects
                       (SoftBodySystem.set_rigidBodies s (<[j := t3]> (map resetGlow (SoftBodySystem.rigidBodies s))))
                       (JsMap.set handId
                          (Hold.mk (RigidBody3D.id t3)
                             (Vector3.mk (Vector3.x (RigidBody3D.position t3) - x)
                                (Vector3.y (RigidBody3D.position t3) - y)
                                (Vector3.z (RigidBody3D.position t3) - z))
                             rot (RigidBody3D.rotation t3))
                          (SoftBodySystem.heldObjects s))).
  { subst s'. unfold handleInteraction3D, tryGrab.
    by rewrite Hfree, grabScan_resetGlow, Hscan, Hj'. }
  assert (Hsame : ∀ b, RigidBody3D.id (resetGlow b) = RigidBody3D.id b
                       ∧ RigidBody3D.position (resetGlow b) = RigidBody3D.position b
                       ∧ RigidBody3D.rotation (resetGlow b) = RigidBody3D.rotation b).
  { intros b. unfold resetGlow. by case (_ && _). }
  destruct (Hsame target) as (Hid & Hpos & Hrot).
  rewrite Hs'. cbn zeta. destruct s; simpl in *.
  repeat split.
  - rewrite JsMap_get_set_eq. subst p. by rewrite Hid, Hpos, Hrot.
  - rewrite list_lookup_insert_eq; [done|].
    rewrite length_map. by eapply lookup_lt_Some.
  - intros k Hk. by apply JsMap_get_set_ne.
  - intros h. by rewrite grabScan_set_isHeld.
Qed.

Lemma grab_ignores_held_witness :
  JsMap.get 1 (SoftBodySystem.heldObjects firstGrab) = None
  ∧ RigidBody3D.isHeld <$> SoftBodySystem.rigidBodies firstGrab !! 0%nat = Some true
  ∧ Hold.bodyId <$> JsMap.get 1 (SoftBodySystem.heldObjects secondGrab) = Some "cube-1"%string
  ∧ JsMap.get 0 (SoftBodySystem.heldObjects secondGrab) = JsMap.get 0 (SoftBodySystem.heldObjects firstGrab).
Proof.
  split; [reflexivity|]. split; [reflexivity|].
  pose proof (grab_ignores_held sampleSin sampleCos firstGrab 1 110 100 0 0 0
                (RigidBody3D.set_glow (RigidBody3D.set_isHeld (newCube3D "cube-1" 100 100) true) 1.0)
                eq_refl eq_refl eq_refl) as (Hrec & _ & Hothers & _).
  split.
  - unfold secondGrab. by rewrite Hrec.
  - by apply Hothers.
Defined.

(** C1 (as stated) fails: after the second grab both hands have a hold
    record for the cube that hand 0 already held. *)
Lemma two_hands_hold_one_cube :
  RigidBody3D.isHeld <$> SoftBodySystem.rigidBodies firstGrab !! 0%nat = Some true
  ∧ Hold.bodyId <$> JsMap.get 0 (SoftBodySystem.heldObjects firstGrab) = Some "cube-1"%string
  ∧ JsMap.get 1 (SoftBodySystem.heldObjects firstGrab) = None
  ∧ Hold.bodyId <$> JsMap.get 0 (SoftBodySystem.heldObjects secondGrab) = Some "cube-1"%string
  ∧ Hold.bodyId <$> JsMap.get 1 (SoftBodySystem.heldObjects secondGrab) = Some "cube-1"%string.
Proof. repeat split; reflexivity. Qed.

(** ** Interactions that find no candidate *)

Lemma grabScan_no_hit x y bodies idx closestDist target :
  (∀ body, body ∈ bodies → (screenDist body x y <? colliderRadius body) = false) →
  grabScan x y bodies idx closestDist target = target.
Proof.
  revert idx. induction bodies as [|b bodies IH]; intros idx Hfar; simpl; [done|].
  rewrite (Hfar b) by left. simpl. apply IH. intros body Hin. apply Hfar. by right.
Qed.

Lemma scanPoints_no_hit store x y pts minDist candidate :
  (∀ r p, r ∈ pts → store !! r = Some p → (pointDist p x y <? minDist) = false) →
  scanPoints store x y pts minDist candidate = (minDist, candidate).
Proof.
  induction pts as [|r pts IH]; intros Hfar; simpl; [done|].
  destruct (store !! r) as [p|] eqn:Hr.
  - pose proof (Hfar r p ltac:(left) Hr) as Hd. unfold pointDist in Hd. cbn zeta in Hd.
    rewrite Hd. apply IH. intros r' p' Hin. apply Hfar. by right.
  - apply IH. intros r' p' Hin. apply Hfar. by right.
Qed.

Lemma scanObjects_no_hit store x y objs minDist candidate :
  (∀ obj r p, obj ∈ objs → is_devil_horn (SoftBodyObject.type obj) = false →
     r ∈ SoftBodyObject.points obj → store !! r = Some p →
     (pointDist p x y <? minDist) = false) →
  scanObjects store x y objs minDist candidate = (minDist, candidate).
Proof.
  induction objs as [|obj objs IH]; intros Hfar; simpl; [done|].
  destruct (is_devil_horn (SoftBodyObject.type obj)) eqn:Hty.
  - apply IH. intros o r p Hin. apply Hfar. by right.
  - rewrite scanPoints_no_hit.
    + apply IH. intros o r p Hin. apply Hfar. by right.
    + intros r p Hin Hr. eapply Hfar; [by left|done..].
Qed.

(** C8 (as the code behaves), each half under its own conditions.  A grab
    by an actor without a hold record that finds no body inside its collider
    radius leaves the actor without a hold record and changes nothing but
    the glow that the call's first step resets on the bodies that are not
    held (to 0 when it is below 0.5); a pinch by an actor without a spring
    that finds no eligible point within 80 changes nothing at all. *)
Theorem no_candidate_no_change (Math_sin Math_cos : number -> number)
    (s : SoftBodySystem.t) (handId : nat) (x y z rot px py : number) :
  (JsMap.get handId (SoftBodySystem.heldObjects s) = None →
   (∀ body, body ∈ SoftBodySystem.rigidBodies s →
      (screenDist body x y <? colliderRadius body) = false) →
   let s' := handleInteraction3D Math_sin Math_cos s handId x y z true rot in
   s' = SoftBodySystem.set_rigidBodies s (map resetGlow (SoftBodySystem.rigidBodies s))
   ∧ JsMap.get handId (SoftBodySystem.heldObjects s') = None
   ∧ (∀ b, resetGlow b
           = if negb (RigidBody3D.isHeld b) && (RigidBody3D.glow b <? 0.5)
             then RigidBody3D.set_glow b 0 else b))
  ∧ (JsMap.get handId (SoftBodySystem.mouseSprings s) = None →
     (∀ obj r p, obj ∈ SoftBodySystem.objects s →
        is_devil_horn (SoftBodyObject.type obj) = false →
        r ∈ SoftBodyObject.points obj → SoftBodySystem.pointStore s !! r = Some p →
        (pointDist p px py <? 80) = false) →
     handleInteraction s handId px py true = s).
Proof.
  split.
  - intros Hfree Hfar s'.
    assert (Hs' : s' = SoftBodySystem.set_rigidBodies s (map resetGlow (SoftBodySystem.rigidBodies s))).
    { subst s'. unfold handleInteraction3D, tryGrab. rewrite Hfree, grabScan_resetGlow.
      rewrite grabScan_no_hit by done. by destruct s. }
    split; [done|]. split; [|done].
    rewrite Hs'. by destruct s.
  - intros Hnospring Hfarpts. unfold handleInteraction.
    assert (Hhas : JsMap.has handId (SoftBodySystem.mouseSprings s) = false)
      by by apply JsMap_has_get.
    rewrite Hhas. simpl. rewrite scanObjects_no_hit by done. simpl.
    rewrite Hnospring. by destruct s.
Qed.

Lemma no_candidate_no_change_witness :
  RigidBody3D.glow <$> SoftBodySystem.rigidBodies grabAway !! 0%nat = Some 0
  ∧ SoftBodySystem.heldObjects grabAway = []
  ∧ handleInteraction plantScene 0 1000 1000 true = plantScene.
Proof.
  assert (Hfar : ∀ body, body ∈ SoftBodySystem.rigidBodies hoveredCube →
                   (screenDist body 1000 1000 <? colliderRadius body) = false).
  { intros body Hin. apply list_elem_of_singleton in Hin. by subst body. }
  assert (Hpts : ∀ obj r p, obj ∈ SoftBodySystem.objects plantScene →
                   is_devil_horn (SoftBodyObject.type obj) = false →
                   r ∈ SoftBodyObject.points obj → SoftBodySystem.pointStore plantScene !! r = Some p →
                   (pointDist p 1000 1000 <? 80) = false).
  { intros obj r p Hin _ Hr Hp. apply list_elem_of_singleton in Hin. subst obj.
    cbn [SoftBodyObject.points] in Hr.
    apply elem_of_cons in Hr as [->|Hr]; [by injection Hp as <-|].
    apply list_elem_of_singleton in Hr. subst r. by injection Hp as <-. }
  destruct (proj1 (no_candidate_no_change sampleSin sampleCos hoveredCube 0 1000 1000 0 0 0 0)
              eq_refl Hfar) as (H3d & _ & _).
  pose proof (proj2 (no_candidate_no_change sampleSin sampleCos plantScene 0 0 0 0 0 1000 1000)
                eq_refl Hpts) as H2d.
  unfold grabAway. rewrite H3d. split; [reflexivity|]. split; [reflexivity | exact H2d].
Defined.

(** C8 (as stated) fails: the grab that finds nothing still modifies a body
    field, the cube's glow goes from 0.4 to 0. *)
Lemma grab_without_candidate_resets_glow :
  JsMap.get 0 (SoftBodySystem.heldObjects hoveredCube) = None
  ∧ grabScan 1000 1000 (SoftBodySystem.rigidBodies hoveredCube) 0 Infinity None = None
  ∧ RigidBody3D.glow <$> SoftBodySystem.rigidBodies hoveredCube !! 0%nat = Some 0.4
  ∧ RigidBody3D.glow <$> SoftBodySystem.rigidBodies grabAway !! 0%nat = Some 0
  ∧ SoftBodySystem.heldObjects grabAway = [].
Proof. repeat split; reflexivity. Qed.

(** ** Crumple and fold do not look at the pinned flag *)

Section Manipulators.

Variable Math_random : nat -> number.
Variables (x y radius intensity vx vy : number).

Lemma crumplePoint_unpin k p :
  crumplePoint Math_random x y radius intensity k (unpin p)
  = (unpin (crumplePoint Math_random x y radius intensity k p).1,
     (crumplePoint Math_random x y radius intensity k p).2).
Proof.
  unfold crumplePoint. destruct p; simpl. by case (_ <? _).
Qed.

Lemma crumplePoint_isPinned k p :
  Point.isPinned (crumplePoint Math_random x y radius intensity k p).1 = Point.isPinned p.
Proof. unfold crumplePoint. by case (_ <? _). Qed.

Lemma foldPoint_unpin p :
  foldPoint x y radius vx vy (unpin p) = unpin (foldPoint x y radius vx vy p).
Proof. unfold foldPoint. destruct p; simpl. by case (_ <? _). Qed.

Lemma foldPoint_isPinned p :
  Point.isPinned (foldPoint x y radius vx vy p) = Point.isPinned p.
Proof. unfold foldPoint. by case (_ <? _). Qed.

Lemma crumplePoints_unpin pts store k :
  crumplePoints Math_random x y radius intensity pts (map unpin store) k
  = (map unpin (crumplePoints Math_random x y radius intensity pts store k).1,
     (crumplePoints Math_random x y radius intensity pts store k).2).
Proof.
  revert store k. induction pts as [|r pts IH]; intros store k; simpl; [done|].
  rewrite list_lookup_fmap. destruct (store !! r) as [p|]; simpl; [|apply IH].
  rewrite crumplePoint_unpin.
  destruct (crumplePoint Math_random x y radius intensity k p) as [p' k']. simpl.
  rewrite <- list_fmap_insert. apply IH.
Qed.

Lemma crumpleObjects_unpin objs store k :
  crumpleObjects Math_random x y radius intensity objs (map unpin store) k
  = (map unpin (crumpleObjects Math_random x y radius intensity objs store k).1,
     (crumpleObjects Math_random x y radius intensity objs store k).2).
Proof.
  revert store k. induction objs as [|obj objs IH]; intros store k; simpl; [done|].
  case (is_devil_horn _); [apply IH|].
  rewrite crumplePoints_unpin.
  destruct (crumplePoints Math_random x y radius intensity _ store k) as [store' k'].
  apply IH.
Qed.

Lemma modifyPoint_unpin store r (f : Point.t -> Point.t) :
  (∀ p, f (unpin p) = unpin (f p)) →
  modifyPoint (map unpin store) r f = map unpin (modifyPoint store r f).
Proof.
  intros Hf. unfold modifyPoint. rewrite list_lookup_fmap.
  destruct (store !! r) as [p|]; simpl; [|done].
  by rewrite Hf, list_fmap_insert.
Qed.

Lemma foldObjects_unpin objs store :
  foldObjects x y radius vx vy objs (map unpin store)
  = map unpin (foldObjects x y radius vx vy objs store).
Proof.
  revert store. induction objs as [|obj objs IH]; intros store; simpl; [done|].
  case (is_devil_horn _); [apply IH|].
  rewrite <- IH. f_equal.
  generalize (SoftBodyObject.points obj). intros pts. revert store.
  induction pts as [|r pts IHp]; intros store; simpl; [done|].
  rewrite modifyPoint_unpin by apply foldPoint_unpin. apply IHp.
Qed.

End Manipulators.

(** C10: [crumple] and [fold] compute the same displacement whether a point
    is pinned or not: running them on the state with every pin released
    gives the result of the original run with the pins released, each
    point keeps its own flag, and a pinned point inside the radius does
    move. *)
Theorem manipulators_ignore_pins :
  (∀ Math_random s k x y radius intensity,
     crumple Math_random (unpinAll s) k x y radius intensity
     = (unpinAll (crumple Math_random s k x y radius intensity).1,
        (crumple Math_random s k x y radius intensity).2))
  ∧ (∀ s x y radius velocity,
       fold (unpinAll s) x y radius velocity = unpinAll (fold s x y radius velocity))
  ∧ (∀ Math_random x y radius intensity k p,
       Point.isPinned (crumplePoint Math_random x y radius intensity k p).1
       = Point.isPinned p)
  ∧ (∀ x y radius vx vy p,
       Point.isPinned (foldPoint x y radius vx vy p) = Point.isPinned p)
  ∧ (λ p, (Point.isPinned p, Point.x p <? 100)) <$>
      SoftBodySystem.pointStore (fold pinnedScene 90 100 220 (0, 0)) !! 0%nat = Some (true, true)
  ∧ (λ p, (Point.isPinned p, Point.x p <? 100)) <$>
      SoftBodySystem.pointStore (crumple sampleRandom pinnedScene 0 90 100 180 1.5).1 !! 0%nat
    = Some (true, true).
Proof.
  split; [|split; [|split; [|split; [|split]]]].
  - intros Math_random s k x y radius intensity. unfold crumple, unpinAll.
    destruct s; simpl. rewrite crumpleObjects_unpin.
    by destruct (crumpleObjects _ _ _ _ _ _ _ _).
  - intros s x y radius velocity. unfold fold, unpinAll.
    destruct s; simpl. by rewrite foldObjects_unpin.
  - intros. apply crumplePoint_isPinned.
  - intros. apply foldPoint_isPinned.
  - reflexivity.
  - reflexivity.
Qed.

(** ** Snapping onto a stack *)

Lemma sub_self (a : number) : finite a = true → a - a = 0.
Proof.
  intros Hfin. apply Prim2SF_inj. rewrite sub_spec. unfold finite in Hfin.
  destruct (Prim2SF a) as [sg|sg| |sg m e]; try discriminate.
  - by destruct sg.
  - unfold SF64sub, SFsub. cbv zeta. rewrite Z.sub_diag. reflexivity.
Qed.





(** ** The rigid-body loop of the tick *)

Section RigidTick.

Variable Math_sin : number -> number.
Variables (time gravity groundFriction height : number).

Local Abbreviation step := (updateBody Math_sin time gravity groundFriction height).
Local Abbreviation after := (bodyAfter Math_sin time gravity groundFriction height).
Local Abbreviation reached := (bodiesAt Math_sin time gravity groundFriction height).

Lemma animateDragon_frame t b :
  RigidBody3D.id (animateDragon Math_sin t b) = RigidBody3D.id b
  ∧ RigidBody3D.position (animateDragon Math_sin t b) = RigidBody3D.position b
  ∧ RigidBody3D.rotation (animateDragon Math_sin t b) = RigidBody3D.rotation b
  ∧ RigidBody3D.velocity (animateDragon Math_sin t b) = RigidBody3D.velocity b
  ∧ RigidBody3D.isHeld (animateDragon Math_sin t b) = RigidBody3D.isHeld b
  ∧ RigidBody3D.snapTimer (animateDragon Math_sin t b) = RigidBody3D.snapTimer b
  ∧ RigidBody3D.snapTarget (animateDragon Math_sin t b) = RigidBody3D.snapTarget b
  ∧ RigidBody3D.glow (animateDragon Math_sin t b) = RigidBody3D.glow b.
Proof.
  unfold animateDragon. case (is_dragon _); [|done].
  by destruct (RigidBody3D.dragonConfig b).
Qed.

Lemma decayGlow_frame b :
  RigidBody3D.id (decayGlow b) = RigidBody3D.id b
  ∧ RigidBody3D.position (decayGlow b) = RigidBody3D.position b
  ∧ RigidBody3D.rotation (decayGlow b) = RigidBody3D.rotation b
  ∧ RigidBody3D.velocity (decayGlow b) = RigidBody3D.velocity b
  ∧ RigidBody3D.isHeld (decayGlow b) = RigidBody3D.isHeld b
  ∧ RigidBody3D.snapTimer (decayGlow b) = RigidBody3D.snapTimer b
  ∧ RigidBody3D.snapTarget (decayGlow b) = RigidBody3D.snapTarget b
  ∧ RigidBody3D.dragonConfig (decayGlow b) = RigidBody3D.dragonConfig b.
Proof. unfold decayGlow. by case (_ <? _). Qed.

(** Decay and animation leave everything physics reads untouched. *)
Lemma prelude_frame t b :
  let b1 := decayGlow (animateDragon Math_sin t b) in
  RigidBody3D.id b1 = RigidBody3D.id b
  ∧ RigidBody3D.position b1 = RigidBody3D.position b
  ∧ RigidBody3D.rotation b1 = RigidBody3D.rotation b
  ∧ RigidBody3D.velocity b1 = RigidBody3D.velocity b
  ∧ RigidBody3D.isHeld b1 = RigidBody3D.isHeld b
  ∧ RigidBody3D.snapTimer b1 = RigidBody3D.snapTimer b
  ∧ RigidBody3D.snapTarget b1 = RigidBody3D.snapTarget b.
Proof.
  intros b1. subst b1.
  destruct (decayGlow_frame (animateDragon Math_sin t b)) as (-> & -> & -> & -> & -> & -> & -> & _).
  destruct (animateDragon_frame t b) as (-> & -> & -> & -> & -> & -> & -> & _).
  done.
Qed.

Lemma freeFall_id g f h b : RigidBody3D.id (freeFall g f h b) = RigidBody3D.id b.
Proof. unfold freeFall. cbv zeta. by case (_ <? _). Qed.

Lemma bodyAfter_id bodies i b : RigidBody3D.id (after bodies i b) = RigidBody3D.id b.
Proof.
  destruct (prelude_frame time b) as (Hid & _).
  unfold bodyAfter. cbv zeta.
  repeat (case_match; try done); rewrite ?freeFall_id; done.
Qed.

Lemma updateBody_spec bodies i b :
  bodies !! i = Some b → step bodies i = <[i := after bodies i b]> bodies.
Proof.
  intros Hi. unfold step, updateBody, bodyAfter. rewrite Hi. cbv zeta.
  assert (Hfind : ∀ t b1, RigidBody3D.id b1 = RigidBody3D.id b →
            findBody t (<[i := b1]> bodies) = findBody t bodies).
  { intros t b1 Hid. unfold findBody. generalize 0%nat.
    clear -Hi Hid. revert i Hi. induction bodies as [|c bodies IH]; intros i Hi n; [done|].
    destruct i as [|i]; simpl in *.
    - injection Hi as ->. by rewrite Hid.
    - case (String.eqb _ _); [done|]. by apply IH. }
  destruct (prelude_frame time b) as (Hid & _).
  repeat (case_match; try done); rewrite ?list_insert_insert_eq; try done;
    rewrite Hfind in * by done; congruence.
Qed.

Lemma updateBody_length bodies i : length (step bodies i) = length bodies.
Proof.
  destruct (bodies !! i) as [b|] eqn:Hi.
  - by rewrite (updateBody_spec _ _ b), length_insert.
  - unfold step, updateBody. by rewrite Hi.
Qed.

Lemma updateBody_other bodies i j : j ≠ i → step bodies i !! j = bodies !! j.
Proof.
  intros Hne. destruct (bodies !! i) as [b|] eqn:Hi.
  - rewrite (updateBody_spec _ _ b) by done. by apply list_lookup_insert_ne.
  - unfold step, updateBody. by rewrite Hi.
Qed.

Lemma updateBody_ids bodies i :
  RigidBody3D.id <$> step bodies i = RigidBody3D.id <$> bodies.
Proof.
  destruct (bodies !! i) as [b|] eqn:Hi.
  - rewrite (updateBody_spec _ _ b) by done. rewrite list_fmap_insert, bodyAfter_id.
    apply list_insert_id. by rewrite list_lookup_fmap, Hi.
  - unfold step, updateBody. by rewrite Hi.
Qed.

(** Running the loop body over the places [is]. *)
Lemma steps_other is_ bodies j :
  j ∉ is_ → foldl step bodies is_ !! j = bodies !! j.
Proof.
  revert bodies. induction is_ as [|i is_ IH]; intros bodies Hj; simpl; [done|].
  apply not_elem_of_cons in Hj as [Hne Hj].
  rewrite IH by done. by apply updateBody_other.
Qed.

Lemma steps_ids is_ bodies :
  RigidBody3D.id <$> foldl step bodies is_ = RigidBody3D.id <$> bodies.
Proof.
  revert bodies. induction is_ as [|i is_ IH]; intros bodies; simpl; [done|].
  by rewrite IH, updateBody_ids.
Qed.

Lemma findBody_ids t bodies bodies' :
  RigidBody3D.id <$> bodies = RigidBody3D.id <$> bodies' →
  findBody t bodies = findBody t bodies'.
Proof.
  unfold findBody. generalize 0%nat. revert bodies'.
  induction bodies as [|b bodies IH]; intros [|b' bodies'] n Hids; try done.
  simpl in *. injection Hids as -> Hids. case (String.eqb _ _); [done|]. by apply IH.
Qed.

Lemma updateBodies_lookup bodies i b :
  bodies !! i = Some b →
  updateBodies Math_sin time gravity groundFriction height bodies !! i
  = Some (after (reached bodies i) i b).
Proof.
  intros Hi. pose proof (lookup_lt_Some _ _ _ Hi) as Hlt.
  unfold updateBodies. fold step.
  replace (length bodies) with (i + S (length bodies - S i))%nat by lia.
  rewrite seq_app, foldl_app. simpl. fold (reached bodies i).
  rewrite steps_other by (rewrite elem_of_seq; lia).
  assert (Hmid : reached bodies i !! i = Some b).
  { unfold bodiesAt. rewrite steps_other; [done|]. rewrite elem_of_seq. lia. }
  rewrite (updateBody_spec _ _ b) by done.
  apply list_lookup_insert_eq. by eapply lookup_lt_Some.
Qed.



End RigidTick.

Lemma update_rigidBodies Math_sin s width height :
  SoftBodySystem.rigidBodies (update Math_sin s width height)
  = updateBodies Math_sin (SoftBodySystem.time s + 0.05) (SoftBodySystem.gravity s) (SoftBodySystem.groundFriction s)
      height (SoftBodySystem.rigidBodies s).
Proof. unfold update. by destruct (updateObjects _ _ _ _ _ _ _ _ _ _). Qed.

Lemma update_mouseSprings Math_sin s width height :
  SoftBodySystem.mouseSprings (update Math_sin s width height) = SoftBodySystem.mouseSprings s.
Proof. unfold update. by destruct (updateObjects _ _ _ _ _ _ _ _ _ _). Qed.

Lemma findBody_Some t bodies j :
  findBody t bodies = Some j → ∃ c, bodies !! j = Some c ∧ RigidBody3D.id c = t.
Proof.
  unfold findBody. intros Hfind.
  assert (Hgen : ∀ n, findBodyFrom t bodies n = Some j →
            ∃ c, bodies !! (j - n)%nat = Some c ∧ RigidBody3D.id c = t ∧ (n ≤ j)%nat).
  { clear Hfind. induction bodies as [|c bodies IH]; intros n Hn; [done|]. simpl in Hn.
    destruct (String.eqb (RigidBody3D.id c) t) eqn:E.
    - injection Hn as ->. exists c. rewrite Nat.sub_diag. apply String.eqb_eq in E. done.
    - destruct (IH _ Hn) as (c' & Hc' & Hid & Hle). exists c'.
      replace (j - n)%nat with (S (j - S n)) by lia. split; [done|]. split; [done|lia]. }
  destruct (Hgen _ Hfind) as (c & Hc & Hid & _). exists c.
  by rewrite Nat.sub_0_r in Hc.
Qed.

(** C7 (as the code behaves): a held body keeps its position, velocity and
    rotation through [update]; a body that is not held and whose snap timer
    is positive comes out as the same body with the timer decremented by
    one, the glow decayed, and, for a dragon carrying a [dragonConfig],
    the animation fields [neckPhase] and [jawAngle] advanced. *)
Theorem update_suspends_physics (Math_sin : number -> number)
    (s : SoftBodySystem.t) (width height : number) (i : nat) (b : RigidBody3D.t) :
  SoftBodySystem.rigidBodies s !! i = Some b →
  let s' := update Math_sin s width height in
  let time := SoftBodySystem.time s + 0.05 in
  (RigidBody3D.isHeld b = true →
     ∃ b', SoftBodySystem.rigidBodies s' !! i = Some b'
       ∧ RigidBody3D.position b' = RigidBody3D.position b
       ∧ RigidBody3D.velocity b' = RigidBody3D.velocity b
       ∧ RigidBody3D.rotation b' = RigidBody3D.rotation b)
  ∧ (RigidBody3D.isHeld b = false → (RigidBody3D.snapTimer b >? 0) = true →
       SoftBodySystem.rigidBodies s' !! i
       = Some (RigidBody3D.set_snapTimer (decayGlow (animateDragon Math_sin time b))
                 (RigidBody3D.snapTimer b - 1)))
  ∧ (∀ c, decayGlow c = c
          ∨ decayGlow c = RigidBody3D.set_glow c (RigidBody3D.glow c - 0.05))
  ∧ (∀ c, animateDragon Math_sin time c = c
          ∨ ∃ cfg, RigidBody3D.type c = dragon ∧ RigidBody3D.dragonConfig c = Some cfg
              ∧ animateDragon Math_sin time c
                = RigidBody3D.set_dragonConfig c
                    (Some (DragonConfig.mk (Math_sin (time * 2) * 0.2 + 0.2) time
                             (DragonConfig.wingPhase cfg) (DragonConfig.eyeColor cfg)
                             (DragonConfig.scale cfg)))).
Proof.
  intros Hi s' time. subst s'.
  rewrite update_rigidBodies. fold time.
  rewrite (updateBodies_lookup _ _ _ _ _ _ _ b) by done.
  destruct (prelude_frame Math_sin time b) as (_ & Hpos & Hrot & Hvel & Hheld & Htimer & _).
  split; [|split; [|split]].
  - intros Hh. eexists. split; [done|]. unfold bodyAfter. cbv zeta.
    rewrite Hheld, Hh. done.
  - intros Hh Ht. unfold bodyAfter. cbv zeta. by rewrite Hheld, Hh, Htimer, Ht.
  - intros c. unfold decayGlow. case (_ <? _); auto.
  - intros c. unfold animateDragon.
    destruct (RigidBody3D.type c) eqn:Hty; simpl; auto.
    destruct (RigidBody3D.dragonConfig c) as [cfg|] eqn:Hcfg; auto.
    right. by exists cfg.
Qed.

Lemma update_suspends_physics_witness :
  (λ b, (RigidBody3D.isHeld b, RigidBody3D.snapTimer b)) <$>
    SoftBodySystem.rigidBodies dragonOnCube !! 1%nat = Some (false, 20)
  ∧ (λ b, (RigidBody3D.position b, RigidBody3D.snapTimer b, RigidBody3D.glow b)) <$>
      SoftBodySystem.rigidBodies (update sampleSin dragonOnCube 800 600) !! 1%nat
    = Some (Vector3.mk 200 340 0, 19, 1 - 0.05).
Proof.
  split; [reflexivity|].
  destruct (SoftBodySystem.rigidBodies dragonOnCube !! 1%nat) as [b|] eqn:Hb; [|discriminate].
  pose proof (update_suspends_physics sampleSin dragonOnCube 800 600 1 b Hb)
    as (_ & Hlocked & _).
  revert Hlocked. cbv zeta.
  assert (Hb' : Some b = SoftBodySystem.rigidBodies dragonOnCube !! 1%nat) by done.
  vm_compute in Hb'. injection Hb' as ->.
  intros Hlocked. rewrite Hlocked by reflexivity. reflexivity.
Defined.

(** C7 (as stated) fails: the snap-locked dragon's animation fields change
    too, its [neckPhase] goes from 0 to the clock 0.05. *)
Lemma locked_dragon_is_animated :
  (λ b, (RigidBody3D.isHeld b, RigidBody3D.snapTimer b,
         DragonConfig.neckPhase <$> RigidBody3D.dragonConfig b)) <$>
    SoftBodySystem.rigidBodies dragonOnCube !! 1%nat = Some (false, 20, Some 0)
  ∧ (λ b, DragonConfig.neckPhase <$> RigidBody3D.dragonConfig b) <$>
      SoftBodySystem.rigidBodies (update sampleSin dragonOnCube 800 600) !! 1%nat
    = Some (Some 0.05).
Proof. split; reflexivity. Qed.





(** ** Pinned points *)

Lemma modifyPoint_other store r f a :
  r ≠ a → modifyPoint store r f !! a = store !! a.
Proof.
  intros Hne. unfold modifyPoint. destruct (store !! r); [|done].
  by apply list_lookup_insert_ne.
Qed.

Section Pinned.

Variables (gravity drag groundFriction stiffness breakingThreshold : number).
Variables (a : ref) (p : Point.t).
Hypothesis Hpin : Point.isPinned p = true.

(** The store still holds [p] at [a]. *)
Local Abbreviation kept store := (store !! a = Some p).

Lemma integrateStep_keeps width height store r :
  kept store → kept (integrateStep gravity drag groundFriction width height store r).
Proof using Hpin.
  unfold integrateStep. intros Ha.
  destruct (store !! r) as [q|] eqn:Hr; [|done].
  destruct (Point.isPinned q) eqn:Hq; [done|].
  rewrite list_lookup_insert_ne; [done|]. intros ->. congruence.
Qed.

Lemma integrate_keeps width height pts store :
  kept store → kept (foldl (integrateStep gravity drag groundFriction width height) store pts).
Proof using Hpin.
  revert store. induction pts as [|r pts IH]; intros store Ha; simpl; [done|].
  apply IH. by apply integrateStep_keeps.
Qed.

Lemma visitStick_keeps store s store' :
  visitStick stiffness breakingThreshold store s = Some store' →
  kept store → kept store'.
Proof using Hpin.
  unfold visitStick. intros Hvisit Ha.
  destruct (store !! Stick.p0 s) as [q0|] eqn:H0; [|congruence].
  destruct (store !! Stick.p1 s) as [q1|] eqn:H1; [|congruence].
  revert Hvisit. cbv zeta. case (_ <? _); [done|]. intros [= <-].
  assert (Hp0 : Point.isPinned q0 = false → Stick.p0 s ≠ a).
  { intros Hq0 Heq. rewrite Heq in H0. congruence. }
  assert (Hp1 : Point.isPinned q1 = false → Stick.p1 s ≠ a).
  { intros Hq1 Heq. rewrite Heq in H1. congruence. }
  destruct (Point.isPinned q0), (Point.isPinned q1); simpl;
    rewrite ?modifyPoint_other by auto; done.
Qed.

Lemma sticksLoop_keeps n store sticks :
  kept store → kept (sticksLoop stiffness breakingThreshold n store sticks).1.
Proof using Hpin.
  revert store sticks. induction n as [|n IH]; intros store sticks Ha; simpl; [done|].
  destruct (sticks !! n) as [s|]; [|by apply IH].
  destruct (visitStick stiffness breakingThreshold store s) as [store'|] eqn:Hvisit.
  - apply IH. by eapply visitStick_keeps.
  - by apply IH.
Qed.

Lemma relax_keeps iterations st :
  kept st.1 → kept (Nat.iter iterations (relaxPass stiffness breakingThreshold) st).1.
Proof using Hpin.
  intros Ha. induction iterations as [|k IH]; simpl; [done|].
  unfold relaxPass at 1. by apply sticksLoop_keeps.
Qed.

Lemma updateObject_keeps width height iterations store obj :
  kept store →
  kept (updateObject gravity drag groundFriction stiffness breakingThreshold
          width height iterations store obj).1.
Proof using Hpin.
  intros Ha. unfold updateObject. case (is_devil_horn _); [done|].
  pose proof (relax_keeps iterations
                (foldl (integrateStep gravity drag groundFriction width height) store
                   (SoftBodyObject.points obj), SoftBodyObject.sticks obj)
                (integrate_keeps _ _ _ _ Ha)) as Hrelax.
  by destruct (Nat.iter _ _ _).
Qed.

Lemma updateObjects_keeps width height iterations objs store :
  kept store →
  kept (updateObjects gravity drag groundFriction stiffness breakingThreshold
          width height iterations store objs).1.
Proof using Hpin.
  revert store. induction objs as [|obj objs IH]; intros store Ha; simpl; [done|].
  pose proof (updateObject_keeps width height iterations store obj Ha) as Hobj.
  destruct (updateObject _ _ _ _ _ _ _ _ _ _) as [store1 obj'].
  pose proof (IH store1 Hobj) as Hrest.
  by destruct (updateObjects _ _ _ _ _ _ _ _ _ _).
Qed.

Lemma applySprings_keeps springs store :
  (∀ k spring, (k, spring) ∈ springs → Spring.point spring ≠ a) →
  kept store → kept (applySprings store springs).
Proof.
  unfold applySprings. revert store.
  induction springs as [|[k spring] springs IH]; intros store Hfree Ha; simpl; [done|].
  apply IH.
  - intros k' sp Hin. apply (Hfree k'). by right.
  - unfold springPull. rewrite modifyPoint_other; [done|]. apply (Hfree k). by left.
Qed.

End Pinned.

(** The springs take their turn in the order of the map; the point at [a]
    is pulled by those attached to it and by no other. *)
Lemma applySprings_at springs store a p :
  store !! a = Some p →
  applySprings store springs !! a
  = Some (foldl (λ q kv, pullPoint kv.2 q) p
            (filter (λ kv : nat * Spring.t, Spring.point kv.2 = a) springs)).
Proof.
  unfold applySprings. revert store p.
  induction springs as [|[k spring] springs IH]; intros store p Ha; [done|].
  cbn [foldl snd]. destruct (decide (Spring.point spring = a)) as [Heq|Hne].
  - rewrite filter_cons_True by done. cbn [foldl snd]. apply IH.
    unfold springPull, modifyPoint. rewrite Heq, Ha.
    apply list_lookup_insert_eq. by eapply lookup_lt_Some.
  - rewrite filter_cons_False by done. apply IH.
    unfold springPull. by rewrite modifyPoint_other.
Qed.

Lemma pulls_isPinned (attached : list (nat * Spring.t)) p :
  Point.isPinned (foldl (λ q kv, pullPoint kv.2 q) p attached) = Point.isPinned p.
Proof.
  revert p. induction attached as [|kv attached IH]; intros p; [done|].
  cbn [foldl]. by rewrite IH.
Qed.

(** C2 (as the code behaves): integration, relaxation and the clamps leave
    a pinned point alone, and what the springs do to it is all that [update]
    does to it: in every call each spring attached to the point, in the
    order of the map, pulls it a fifth of the way from where it then stands
    to the spring's anchor.  With no spring attached the point keeps its
    position (indeed every field) through any number of calls, whatever
    gravity, relaxation, clamps and the springs attached to other points
    do; with one spring attached a call moves it from x to
    x + (anchorX - x) * 0.2, and likewise in y. *)
Theorem pinned_point_unmoved (Math_sin : number -> number) (s : SoftBodySystem.t)
    (calls : list (number * number)) (a : ref) (p : Point.t) :
  SoftBodySystem.pointStore s !! a = Some p →
  Point.isPinned p = true →
  let attached :=
    filter (λ kv : nat * Spring.t, Spring.point kv.2 = a) (SoftBodySystem.mouseSprings s) in
  let s' := foldl (λ st wh, update Math_sin st wh.1 wh.2) s calls in
  SoftBodySystem.pointStore s' !! a
    = Some (Nat.iter (length calls) (λ q, foldl (λ q kv, pullPoint kv.2 q) q attached) p)
  ∧ ((∀ k spring, (k, spring) ∈ SoftBodySystem.mouseSprings s → Spring.point spring ≠ a) →
     SoftBodySystem.pointStore s' !! a = Some p)
  ∧ (∀ k spring w h, attached = [(k, spring)] → calls = [(w, h)] →
       ∃ p', SoftBodySystem.pointStore s' !! a = Some p'
         ∧ Point.x p' = Point.x p + (Spring.anchorX spring - Point.x p) * 0.2
         ∧ Point.y p' = Point.y p + (Spring.anchorY spring - Point.y p) * 0.2
         ∧ Point.isPinned p' = true).
Proof.
  intros Ha Hpin attached s'.
  assert (Hall : SoftBodySystem.pointStore s' !! a
            = Some (Nat.iter (length calls) (λ q, foldl (λ q kv, pullPoint kv.2 q) q attached) p)).
  { subst s'. generalize (eq_refl attached). unfold attached at 2. generalize attached.
    clear attached. intros attached Hatt. revert s p Ha Hpin Hatt.
    induction calls as [|[w h] calls IH]; intros s p Ha Hpin Hatt; [done|].
    cbn [foldl length fst snd].
    rewrite Nat.iter_succ_r.
    apply IH.
    - unfold update.
      pose proof (updateObjects_keeps (SoftBodySystem.gravity s) (SoftBodySystem.drag s)
                    (SoftBodySystem.groundFriction s) (SoftBodySystem.stiffness s)
                    (SoftBodySystem.breakingThreshold s) a p Hpin w h
                    (SoftBodySystem.solverIterations s) (SoftBodySystem.objects s)
                    (SoftBodySystem.pointStore s) Ha) as Hobjs.
      destruct (updateObjects _ _ _ _ _ _ _ _ _ _) as [store1 objects1].
      cbn [SoftBodySystem.pointStore]. cbn [fst] in Hobjs. rewrite Hatt.
      by apply applySprings_at.
    - by rewrite pulls_isPinned.
    - by rewrite update_mouseSprings. }
  split; [done|]. split.
  - intros Hfree. rewrite Hall.
    assert (Hnone : attached = []).
    { subst attached. revert Hfree. generalize (SoftBodySystem.mouseSprings s). clear.
      intros springs. induction springs as [|[k spring] springs IH]; intros Hfree; [done|].
      rewrite filter_cons_False by (cbn [snd]; apply (Hfree k); by left).
      apply IH. intros k' sp Hin. apply (Hfree k'). by right. }
    rewrite Hnone. clear. induction (length calls) as [|n IH]; [done|].
    by rewrite Nat.iter_succ.
  - intros k spring w h Hone ->. rewrite Hall, Hone. cbn [length Nat.iter foldl snd].
    eexists. split; [done|]. by repeat split.
Qed.

Lemma pinned_point_unmoved_witness :
  SoftBodySystem.pointStore (foldl (λ st wh, update sampleSin st wh.1 wh.2) tuggedPlant
                    [(800, 600); (800, 600); (640, 480)]) !! 0%nat
  = Some (newPoint 100 100 true)
  ∧ (λ q, (Point.isPinned q, Point.x q, Point.y q)) <$>
      SoftBodySystem.pointStore (foldl (λ st wh, update sampleSin st wh.1 wh.2) twoPinches
                        [(800, 600)]) !! 0%nat
    = Some (true, 98 + (90 - 98) * 0.2, 100).
Proof.
  split.
  - destruct (pinned_point_unmoved sampleSin tuggedPlant [(800, 600); (800, 600); (640, 480)]
                0%nat (newPoint 100 100 true) eq_refl eq_refl) as (_ & Hfree & _).
    apply Hfree.
    intros k spring Hin. apply list_elem_of_singleton in Hin.
    injection Hin as _ ->. discriminate.
  - destruct (pinned_point_unmoved sampleSin twoPinches [(800, 600)] 0%nat
                (newPoint 100 100 true) eq_refl eq_refl) as (Hall & _).
    rewrite Hall. vm_compute. reflexivity.
Defined.

(** C2 (as stated) fails: a pinned point with a mouse spring attached is
    pulled by [update], here from x = 100 to x = 104. *)
Lemma pinned_point_follows_spring :
  (λ q, (Point.isPinned q, Point.x q, Point.y q)) <$>
    SoftBodySystem.pointStore pinchedScene !! 0%nat = Some (true, 100, 100)
  ∧ Spring.point <$> JsMap.get 0 (SoftBodySystem.mouseSprings pinchedScene) = Some 0%nat
  ∧ (λ q, (Point.isPinned q, Point.x q, Point.y q)) <$>
      SoftBodySystem.pointStore (update sampleSin pinchedScene 800 600) !! 0%nat
    = Some (true, 104, 100).
Proof. repeat split; reflexivity. Qed.

(** ** Breaking sticks *)

Lemma delete_app_l {A} (l1 l2 : list A) i :
  (i < length l1)%nat → delete i (l1 ++ l2) = delete i l1 ++ l2.
Proof.
  revert i. induction l1 as [|x l1 IH]; intros [|i] Hi; simpl in *; try lia; [done|].
  f_equal. apply IH. lia.
Qed.

Lemma delete_app_r {A} (l1 l2 : list A) i :
  delete (length l1 + i)%nat (l1 ++ l2) = l1 ++ delete i l2.
Proof. induction l1 as [|x l1 IH]; simpl; [done|]. by f_equal. Qed.

Section Breaking.

Variables (stiffness breakingThreshold : number).

Local Abbreviation loop := (sticksLoop stiffness breakingThreshold).

Lemma visitStick_broken store s :
  visitStick stiffness breakingThreshold store s = None
  ↔ overThreshold breakingThreshold store s = true.
Proof.
  unfold visitStick, overThreshold.
  destruct (store !! Stick.p0 s); [|done].
  destruct (store !! Stick.p1 s); [|done].
  cbv zeta. by case (_ <? _).
Qed.

(** The loop only reads and splices the places below its counter. *)
Lemma sticksLoop_app_front n store front rest :
  (n ≤ length front)%nat →
  loop n store (front ++ rest) = ((loop n store front).1, (loop n store front).2 ++ rest).
Proof.
  revert store front. induction n as [|n IH]; intros store front Hn; simpl; [done|].
  rewrite lookup_app_l by lia.
  destruct (front !! n) as [s|] eqn:Hs; [|apply lookup_ge_None in Hs; lia].
  destruct (visitStick stiffness breakingThreshold store s) as [store'|].
  - apply IH. lia.
  - rewrite delete_app_l by lia. apply IH. rewrite length_delete by (by rewrite Hs). lia.
Qed.

(** Visiting the last [n] sticks first, then the ones in front of them. *)
Lemma sticksLoop_app_back n store front l :
  (n ≤ length l)%nat →
  loop (length front + n)%nat store (front ++ l)
  = loop (length front) (loop n store l).1 (front ++ (loop n store l).2).
Proof.
  revert store l. induction n as [|n IH]; intros store l Hn.
  - by rewrite Nat.add_0_r.
  - rewrite Nat.add_succ_r. simpl.
    rewrite lookup_app_r by lia.
    replace (length front + n - length front)%nat with n by lia.
    destruct (l !! n) as [s|] eqn:Hs; [|apply lookup_ge_None in Hs; lia].
    destruct (visitStick stiffness breakingThreshold store s) as [store'|].
    + apply IH. lia.
    + rewrite delete_app_r. apply IH. rewrite length_delete by (by rewrite Hs). lia.
Qed.

Lemma sticksLoop_sublist n store sticks : (loop n store sticks).2 `sublist_of` sticks.
Proof.
  revert store sticks. induction n as [|n IH]; intros store sticks; simpl; [done|].
  destruct (sticks !! n) as [s|]; [|apply IH].
  destruct (visitStick stiffness breakingThreshold store s) as [store'|]; [apply IH|].
  etransitivity; [apply IH | apply sublist_delete].
Qed.

Lemma relax_sublist iterations st :
  (Nat.iter iterations (relaxPass stiffness breakingThreshold) st).2 `sublist_of` st.2.
Proof.
  induction iterations as [|k IH]; simpl; [done|].
  etransitivity; [|apply IH]. unfold relaxPass at 1. apply sticksLoop_sublist.
Qed.

End Breaking.

Lemma sticksShrink_refl objs : sticksShrink objs objs.
Proof. intros k obj Hk. by exists obj. Qed.

Lemma sticksShrink_trans objs1 objs2 objs3 :
  sticksShrink objs1 objs2 → sticksShrink objs2 objs3 → sticksShrink objs1 objs3.
Proof.
  intros H12 H23 k obj3 Hk.
  destruct (H23 k obj3 Hk) as (obj2 & Hk2 & Hsub2).
  destruct (H12 k obj2 Hk2) as (obj1 & Hk1 & Hsub1).
  exists obj1. split; [done|]. by etransitivity.
Qed.

Lemma updateObjects_sublists g d f st bt w h iterations store objs :
  Forall2 (λ o' o, SoftBodyObject.sticks o' `sublist_of` SoftBodyObject.sticks o)
    (updateObjects g d f st bt w h iterations store objs).2 objs.
Proof.
  revert store. induction objs as [|obj objs IH]; intros store; simpl; [constructor|].
  assert (Hobj : SoftBodyObject.sticks (updateObject g d f st bt w h iterations store obj).2
                   `sublist_of` SoftBodyObject.sticks obj).
  { unfold updateObject. case (is_devil_horn _); [done|].
    pose proof (relax_sublist st bt iterations
                  (foldl (integrateStep g d f w h) store (SoftBodyObject.points obj),
                   SoftBodyObject.sticks obj)) as Hsub.
    by destruct (Nat.iter _ _ _). }
  destruct (updateObject _ _ _ _ _ _ _ _ _ _) as [store1 obj'].
  specialize (IH store1). destruct (updateObjects _ _ _ _ _ _ _ _ _ _).
  by constructor.
Qed.

Lemma updateObjects_shrink g d f st bt w h iterations store objs :
  sticksShrink (updateObjects g d f st bt w h iterations store objs).2 objs.
Proof.
  intros k obj Hk.
  destruct (Forall2_lookup_r _ _ _ _ _ (updateObjects_sublists g d f st bt w h iterations store objs) Hk)
    as (obj' & Hk' & Hsub).
  by exists obj'.
Qed.

Lemma modifyObject_shrink objs k f :
  (∀ o, SoftBodyObject.sticks (f o) = SoftBodyObject.sticks o) →
  sticksShrink (modifyObject objs k f) objs.
Proof.
  intros Hf j obj Hj. unfold modifyObject.
  destruct (objs !! k) as [o|] eqn:Hk; [|by exists obj].
  destruct (decide (j = k)) as [->|Hne].
  - exists (f o). rewrite list_lookup_insert_eq by (by eapply lookup_lt_Some).
    split; [done|]. rewrite Hf. by replace obj with o by congruence.
  - exists obj. by rewrite list_lookup_insert_ne.
Qed.

Lemma ensureHorn_shrink id side objs : sticksShrink (ensureHorn id side objs).1 objs.
Proof.
  unfold ensureHorn. destruct (findObject id objs); simpl; [apply sticksShrink_refl|].
  intros k obj Hk. exists obj. split; [|done]. by apply lookup_app_l_Some.
Qed.

Lemma bindHorn_shrink store objs k at_ angle scale :
  sticksShrink (bindHorn store objs k at_ angle scale).1.2 objs.
Proof.
  unfold bindHorn. cbv zeta.
  destruct (_ ≫= _); simpl;
    repeat (first [ by apply modifyObject_shrink
                  | eapply sticksShrink_trans; [by apply modifyObject_shrink|] ]).
Qed.

Section Run.

Variables (Math_sin Math_cos : number -> number) (Math_hypot Math_atan2 : number -> number -> number).
Variable Math_random : nat -> number.

Local Abbreviation run := (runOp Math_sin Math_cos Math_hypot Math_atan2 Math_random).

Lemma updateHorns_shrink s faceLandmarks isGestureActive canvasWidth canvasHeight :
  sticksShrink
    (SoftBodySystem.objects (updateHorns Math_hypot Math_atan2 s faceLandmarks isGestureActive
                    canvasWidth canvasHeight))
    (SoftBodySystem.objects s).
Proof.
  unfold updateHorns. destruct s as [store objs bodies springs held g d f it st bt hs tm].
  cbn [SoftBodySystem.objects SoftBodySystem.pointStore].
  pose proof (ensureHorn_shrink "devil-horn-left" "left" objs) as H1.
  destruct (ensureHorn "devil-horn-left" "left" objs) as [objs1 leftHorn].
  pose proof (ensureHorn_shrink "devil-horn-right" "right" objs1) as H2.
  destruct (ensureHorn "devil-horn-right" "right" objs1) as [objs2 rightHorn].
  cbn [fst] in H1, H2.
  assert (H12 : sticksShrink objs2 objs) by by eapply sticksShrink_trans.
  assert (Hgrow : ∀ gr, sticksShrink
            (modifyObject (modifyObject objs2 leftHorn (λ o, SoftBodyObject.set_growth o (Some gr)))
               rightHorn (λ o, SoftBodyObject.set_growth o (Some gr))) objs).
  { intros gr. eapply sticksShrink_trans; [by apply modifyObject_shrink|].
    eapply sticksShrink_trans; [by apply modifyObject_shrink|done]. }
  destruct isGestureActive; cbn [negb]; [|apply Hgrow].
  destruct (faceLandmarks !! 105%nat) as [lm105|]; [|apply Hgrow].
  destruct (faceLandmarks !! 334%nat) as [lm334|]; [|apply Hgrow].
  cbv zeta.
  match goal with
  | |- context [bindHorn ?st0 ?o ?k ?a ?an ?sc] =>
      pose proof (bindHorn_shrink st0 o k a an sc) as Hleft;
      destruct (bindHorn st0 o k a an sc) as [[store1 objs4] ok]
  end.
  cbn [fst snd] in Hleft.
  assert (H4 : sticksShrink objs4 objs) by (eapply sticksShrink_trans; [done|apply Hgrow]).
  destruct ok; [|done].
  match goal with
  | |- context [bindHorn ?st0 ?o ?k ?a ?an ?sc] =>
      pose proof (bindHorn_shrink st0 o k a an sc) as Hright;
      destruct (bindHorn st0 o k a an sc) as [[store2 objs5] ok']
  end.
  cbn [fst snd] in Hright. cbn [SoftBodySystem.objects SoftBodySystem.set_objects]. by eapply sticksShrink_trans.
Qed.

Lemma runOp_shrink st op :
  sticksShrink (SoftBodySystem.objects (run st op).1) (SoftBodySystem.objects st.1).
Proof.
  destruct st as [s k]. destruct op; simpl.
  - unfold update.
    pose proof (updateObjects_shrink (SoftBodySystem.gravity s) (SoftBodySystem.drag s) (SoftBodySystem.groundFriction s)
                  (SoftBodySystem.stiffness s) (SoftBodySystem.breakingThreshold s) width height
                  (SoftBodySystem.solverIterations s) (SoftBodySystem.pointStore s) (SoftBodySystem.objects s)) as Hshrink.
    by destruct (updateObjects _ _ _ _ _ _ _ _ _ _).
  - unfold handleInteraction3D. destruct isGrabbing.
    + destruct (JsMap.get _ _); [destruct (dragHeld _ _ _ _ _ _ _ _ _ _) | destruct (tryGrab _ _ _ _ _ _ _)];
        apply sticksShrink_refl.
    + destruct (release _ _ _). apply sticksShrink_refl.
  - unfold handleInteraction. destruct isPinching; [|apply sticksShrink_refl].
    destruct (JsMap.get _ _); apply sticksShrink_refl.
  - unfold crumple. destruct (crumpleObjects _ _ _ _ _ _ _ _). apply sticksShrink_refl.
  - apply sticksShrink_refl.
  - apply updateHorns_shrink.
Qed.

Lemma runOps_shrink ops st :
  sticksShrink (SoftBodySystem.objects (foldl run st ops).1) (SoftBodySystem.objects st.1).
Proof.
  revert st. induction ops as [|op ops IH]; intros st; simpl; [apply sticksShrink_refl|].
  eapply sticksShrink_trans; [apply IH | apply runOp_shrink].
Qed.

End Run.

(** A pass over [pre ++ s :: post] visits the sticks of [post] first; when
    [s] is over the threshold in the store this leaves, the pass splices [s]
    out and visits the sticks of [pre] from that very store. *)
Lemma relaxPass_broken (stiffness breakingThreshold : number)
    (store : list Point.t) (pre : list Stick.t) (s : Stick.t) (post : list Stick.t) :
  let visited := sticksLoop stiffness breakingThreshold (length post) store post in
  overThreshold breakingThreshold visited.1 s = true →
  let rest := sticksLoop stiffness breakingThreshold (length pre) visited.1 pre in
  relaxPass stiffness breakingThreshold (store, pre ++ s :: post) = (rest.1, rest.2 ++ visited.2).
Proof.
  intros visited Hover rest.
  unfold relaxPass. simpl fst. simpl snd.
  rewrite length_app. simpl length.
  rewrite (sticksLoop_app_back _ _ _ _ pre (s :: post)) by (simpl; lia).
  change (s :: post) with ([s] ++ post).
  change (S (length post)) with (length [s] + length post)%nat.
  rewrite (sticksLoop_app_back _ _ _ _ [s] post) by lia.
  fold visited. simpl.
  rewrite (proj2 (visitStick_broken stiffness breakingThreshold visited.1 s) Hover). simpl.
  apply sticksLoop_app_front. lia.
Qed.

(** The object at place [k] after the loop over the objects. *)
Lemma updateObjects_lookup g d f st bt w h iterations objs store k obj :
  objs !! k = Some obj →
  (updateObjects g d f st bt w h iterations store objs).2 !! k
  = Some (updateObject g d f st bt w h iterations
            (updateObjects g d f st bt w h iterations store (take k objs)).1 obj).2.
Proof.
  revert store k. induction objs as [|o objs IH]; intros store k Hk; [done|].
  destruct k as [|k]; cbn [updateObjects take].
  - injection Hk as ->.
    destruct (updateObject _ _ _ _ _ _ _ _ _ _) as [store1 obj'].
    by destruct (updateObjects _ _ _ _ _ _ _ _ _ _).
  - specialize (IH (updateObject g d f st bt w h iterations store o).1 k Hk).
    destruct (updateObject g d f st bt w h iterations store o) as [store1 o'].
    cbn [fst] in IH.
    destruct (updateObjects g d f st bt w h iterations store1 objs) as [store2 rest'].
    destruct (updateObjects g d f st bt w h iterations store1 (take k objs)) as [store3 front'].
    exact IH.
Qed.

Lemma update_objects Math_sin s width height :
  SoftBodySystem.objects (update Math_sin s width height)
  = (updateObjects (SoftBodySystem.gravity s) (SoftBodySystem.drag s)
       (SoftBodySystem.groundFriction s) (SoftBodySystem.stiffness s)
       (SoftBodySystem.breakingThreshold s) width height (SoftBodySystem.solverIterations s)
       (SoftBodySystem.pointStore s) (SoftBodySystem.objects s)).2.
Proof. unfold update. by destruct (updateObjects _ _ _ _ _ _ _ _ _ _). Qed.

(** The stick list [update] leaves to the object at place [k] is what is
    left of the list any of its passes began with. *)
Lemma update_sticks_after_pass Math_sin s width height k i obj :
  SoftBodySystem.objects s !! k = Some obj →
  is_devil_horn (SoftBodyObject.type obj) = false →
  (i ≤ SoftBodySystem.solverIterations s)%nat →
  ∃ obj', SoftBodySystem.objects (update Math_sin s width height) !! k = Some obj'
    ∧ SoftBodyObject.sticks obj' `sublist_of` (passStart s width height k i obj).2.
Proof.
  intros Hk Hty Hi. rewrite update_objects, (updateObjects_lookup _ _ _ _ _ _ _ _ _ _ _ _ Hk).
  eexists. split; [done|].
  unfold updateObject. rewrite Hty. fold (storeReaching s width height k).
  match goal with
  | |- context [Nat.iter ?n ?f ?x] =>
      assert (Hsplit : Nat.iter n f x
                = Nat.iter (n - i) f (passStart s width height k i obj))
        by (unfold passStart; rewrite <- Nat.iter_add; f_equal; lia);
      rewrite Hsplit; clear Hsplit
  end.
  pose proof (relax_sublist (SoftBodySystem.stiffness s) (SoftBodySystem.breakingThreshold s)
                (SoftBodySystem.solverIterations s - i) (passStart s width height k i obj)) as Hsub.
  destruct (Nat.iter _ _ _) as [store2 sticks2]. exact Hsub.
Qed.

(** C4: the object at place [k] of the system, in relaxation pass number
    [i] of [update]; the pass begins with the stick list [pre ++ st :: post]
    and visits the sticks of [post] first.  If [st] is over the breaking
    threshold in the store this leaves, the pass splices [st] out and
    applies no correction for it (the sticks of [pre] are visited from that
    very store), and ends with what is left of [pre] followed by what is
    left of [post].  The object's stick list after [update] is what is left
    of that list: it is shorter than before and, the sticks of the object
    being distinct, [st] is not in it.  No later call puts it back: after
    any further sequence of update, interaction, crumple, fold and horn
    calls the object is still at place [k], with a stick list that is what
    is left of the one the pass ended with. *)
Theorem broken_stick_removed (Math_sin : number -> number) (s : SoftBodySystem.t)
    (width height : number) (k i : nat) (obj : SoftBodyObject.t)
    (pre : list Stick.t) (st : Stick.t) (post : list Stick.t) :
  SoftBodySystem.objects s !! k = Some obj →
  is_devil_horn (SoftBodyObject.type obj) = false →
  (i < SoftBodySystem.solverIterations s)%nat →
  (passStart s width height k i obj).2 = pre ++ st :: post →
  let stiffness := SoftBodySystem.stiffness s in
  let breakingThreshold := SoftBodySystem.breakingThreshold s in
  let visited :=
    sticksLoop stiffness breakingThreshold (length post) (passStart s width height k i obj).1 post in
  overThreshold breakingThreshold visited.1 st = true →
  let rest := sticksLoop stiffness breakingThreshold (length pre) visited.1 pre in
  passStart s width height k (S i) obj = (rest.1, rest.2 ++ visited.2)
  ∧ rest.2 `sublist_of` pre
  ∧ visited.2 `sublist_of` post
  ∧ (∃ obj', SoftBodySystem.objects (update Math_sin s width height) !! k = Some obj'
       ∧ SoftBodyObject.sticks obj' `sublist_of` rest.2 ++ visited.2
       ∧ (length (SoftBodyObject.sticks obj') < length (SoftBodyObject.sticks obj))%nat
       ∧ (NoDup (SoftBodyObject.sticks obj) → st ∉ SoftBodyObject.sticks obj'))
  ∧ (∀ Math_cos Math_hypot Math_atan2 Math_random n ops,
       ∃ obj', SoftBodySystem.objects
                 (foldl (runOp Math_sin Math_cos Math_hypot Math_atan2 Math_random)
                    (update Math_sin s width height, n) ops).1 !! k = Some obj'
         ∧ SoftBodyObject.sticks obj' `sublist_of` rest.2 ++ visited.2
         ∧ (NoDup (SoftBodyObject.sticks obj) → st ∉ SoftBodyObject.sticks obj')).
Proof.
  intros Hk Hty Hi Hsticks stiffness breakingThreshold visited Hover rest.
  assert (Hsub_pre : rest.2 `sublist_of` pre) by apply sticksLoop_sublist.
  assert (Hsub_post : visited.2 `sublist_of` post) by apply sticksLoop_sublist.
  assert (Hpass : passStart s width height k (S i) obj = (rest.1, rest.2 ++ visited.2)).
  { unfold passStart. rewrite Nat.iter_succ. fold (passStart s width height k i obj).
    rewrite (surjective_pairing (passStart s width height k i obj)), Hsticks.
    by apply relaxPass_broken. }
  destruct (update_sticks_after_pass Math_sin s width height k (S i) obj Hk Hty Hi)
    as (obj' & Hobj' & Hsub').
  rewrite Hpass in Hsub'. cbn [snd] in Hsub'.
  assert (Hstart : (passStart s width height k i obj).2 `sublist_of` SoftBodyObject.sticks obj).
  { unfold passStart.
    apply (relax_sublist (SoftBodySystem.stiffness s) (SoftBodySystem.breakingThreshold s) i
             (_, SoftBodyObject.sticks obj)). }
  rewrite Hsticks in Hstart.
  assert (Hleft : rest.2 ++ visited.2 `sublist_of` pre ++ post) by by apply sublist_app.
  assert (Habsent : ∀ l, l `sublist_of` rest.2 ++ visited.2 →
                      NoDup (SoftBodyObject.sticks obj) → st ∉ l).
  { intros l Hl Hnodup Hin.
    pose proof (sublist_NoDup _ _ Hnodup Hstart) as Hnd.
    apply NoDup_app in Hnd as (_ & Hdisj & Hnd).
    apply NoDup_cons in Hnd as [Hpost _].
    assert (Hin' : st ∈ pre ++ post).
    { eapply elem_of_sublist; [done|]. by etransitivity. }
    apply elem_of_app in Hin' as [Hp|Hp]; [|done].
    apply (Hdisj st Hp). by left. }
  split; [done|]. split; [done|]. split; [done|]. split.
  - exists obj'. split; [done|]. split; [done|]. split; [|by apply Habsent].
    apply sublist_length in Hsub', Hleft, Hstart.
    rewrite !length_app in *. cbn [length] in Hstart. lia.
  - intros Math_cos Math_hypot Math_atan2 Math_random n ops.
    destruct (runOps_shrink Math_sin Math_cos Math_hypot Math_atan2 Math_random ops
                (update Math_sin s width height, n) k obj' Hobj') as (obj'' & Hobj'' & Hsub'').
    exists obj''. split; [done|].
    assert (Hsub3 : SoftBodyObject.sticks obj'' `sublist_of` rest.2 ++ visited.2)
      by by etransitivity.
    split; [done|]. by apply Habsent.
Qed.

Lemma broken_stick_removed_witness :
  ∃ obj', SoftBodySystem.objects (update sampleSin breakScene 2000 2000) !! 0%nat = Some obj'
    ∧ (length (SoftBodyObject.sticks obj') < 3)%nat
    ∧ stickBroken ∉ SoftBodyObject.sticks obj'.
Proof.
  destruct (broken_stick_removed sampleSin breakScene 2000 2000 0 0 breakObject
              [stickKept1] stickBroken [stickKept2] eq_refl eq_refl
              ltac:(vm_compute; lia) eq_refl eq_refl)
    as (_ & _ & _ & (obj' & Hobj' & _ & Hlen & Hnodup) & _).
  exists obj'. split; [done|]. split; [done|].
  apply Hnodup. cbn [breakObject SoftBodyObject.sticks].
  repeat (apply NoDup_cons; split;
    [intros Hin; repeat (apply elem_of_cons in Hin as [Hin|Hin]; [discriminate Hin|]);
     by apply not_elem_of_nil in Hin|]).
  apply NoDup_nil_2.
Defined.

(** ** Sticks of length zero *)

(** Arithmetic of the unguarded correction at distance zero: whatever the
    rest length and the stiffness, the offset [0 * percent] is NaN, and NaN
    absorbs the endpoint's coordinate. *)
Lemma zero_times_blowup (l st : number) : 0 * ((l - 0) / 0 / 2 * st) = nan.
Proof.
  apply Prim2SF_inj.
  rewrite !mul_spec, !div_spec, FloatAxioms.sub_spec.
  change (Prim2SF 0) with (S754_zero false).
  change (Prim2SF nan) with S754_nan.
  destruct (Prim2SF l) as [sl|sl| |sl ml el], (Prim2SF st) as [ss|ss| |ss ms es];
    try destruct sl; try destruct ss; reflexivity.
Qed.

Lemma sub_nan (a : number) : a - nan = nan.
Proof.
  apply Prim2SF_inj. rewrite FloatAxioms.sub_spec. change (Prim2SF nan) with S754_nan.
  by destruct (Prim2SF a) as [[]|[]| |].
Qed.

Lemma add_nan (a : number) : a + nan = nan.
Proof.
  apply Prim2SF_inj. rewrite FloatAxioms.add_spec. change (Prim2SF nan) with S754_nan.
  by destruct (Prim2SF a) as [[]|[]| |].
Qed.

(** The visit of any stick whose two (distinct) endpoints coincide at a
    finite position, and which the breaking test lets through: the stick is
    kept, a pinned endpoint is untouched, and an endpoint that is not pinned
    gets NaN for both coordinates. *)
Lemma visitStick_coincident (stiffness breakingThreshold : number)
    (store : list Point.t) (s : Stick.t) (a b : Point.t) :
  store !! Stick.p0 s = Some a →
  store !! Stick.p1 s = Some b →
  Stick.p0 s ≠ Stick.p1 s →
  Point.x b = Point.x a → Point.y b = Point.y a →
  finite (Point.x a) = true → finite (Point.y a) = true →
  (0 >? Stick.length s * breakingThreshold) = false →
  ∃ store', visitStick stiffness breakingThreshold store s = Some store'
    ∧ store' !! Stick.p0 s
      = Some (if Point.isPinned a then a else Point.set_y (Point.set_x a nan) nan)
    ∧ store' !! Stick.p1 s
      = Some (if Point.isPinned b then b else Point.set_y (Point.set_x b nan) nan).
Proof.
  intros H0 H1 Hne Hx Hy Hfx Hfy Hkeep.
  unfold visitStick. rewrite H0, H1, Hx, Hy, !sub_self by done. cbv zeta.
  change (Math.sqrt (0 * 0 + 0 * 0)) with 0. rewrite Hkeep, !zero_times_blowup.
  eexists. split; [done|].
  pose proof (lookup_lt_Some _ _ _ H0) as Hlt0.
  pose proof (lookup_lt_Some _ _ _ H1) as Hlt1.
  unfold modifyPoint.
  destruct (Point.isPinned a), (Point.isPinned b); simpl;
    rewrite ?H0, ?H1, ?list_lookup_insert_ne, ?H1 by done;
    rewrite ?list_lookup_insert_eq, ?list_lookup_insert_ne, ?list_lookup_insert_eq
      by (rewrite ?length_insert; done);
    rewrite ?H0, ?H1, ?sub_nan, ?add_nan; rewrite <- ?Hx, <- ?Hy; done.
Qed.

(** C3 fails on the code: the relaxation loop has no guard for a current
    distance of zero.  The clamps of [update] put both points of
    [cornerScene] at (10, 590); the visit of their stick then divides by the
    zero distance, keeps the stick, and moves both endpoints to NaN, where
    they stay for the rest of the tick. *)
Theorem zero_length_stick_yields_nan (Math_sin : number -> number) :
  foldl (integrateStep 0.5 0.95 0.8 800 600) (SoftBodySystem.pointStore cornerScene) [0; 1]%nat
    = [ Point.mk 10 590 10 590 false 0 0 None None None;
        Point.mk 10 590 10 590 false 0 0 None None None ]
  ∧ visitStick 1 10 [newPoint 10 590 false; newPoint 10 590 false]
      (Stick.mk 0 1 50 None None None)
    = Some [ Point.mk nan nan 10 590 false 0 0 None None None;
             Point.mk nan nan 10 590 false 0 0 None None None ]
  ∧ (λ q, (Point.x q, Point.y q)) <$>
      SoftBodySystem.pointStore (update Math_sin cornerScene 800 600) = [(nan, nan); (nan, nan)]
  ∧ SoftBodyObject.sticks <$> SoftBodySystem.objects (update Math_sin cornerScene 800 600)
    = [[Stick.mk 0 1 50 None None None]].
Proof. repeat split; reflexivity. Qed.

(** * Further properties of the code *)

(** ** The order on numbers *)

Lemma ltb_irrefl (a : number) : (a <? a) = false.
Proof.
  rewrite ltb_spec. unfold SFltb.
  destruct (Prim2SF a) as [s|s| |s m e]; unfold SFcompare; try done; try by destruct s.
  rewrite Z.compare_refl, Pos.compare_cont_refl. by destruct s.
Qed.

Lemma ltb_trans (a b c : number) : (a <? b) = true → (b <? c) = true → (a <? c) = true.
Proof.
  rewrite !ltb_spec. unfold SFltb.
  destruct (Prim2SF a) as [sa|sa| |sa ma ea], (Prim2SF b) as [sb|sb| |sb mb eb],
    (Prim2SF c) as [sc|sc| |sc mc ec]; unfold SFcompare;
    try destruct sa; try destruct sb; try destruct sc; try done;
    rewrite ?Pos.compare_cont_spec; unfold Pos.switch_Eq;
    destruct (Z.compare_spec ea eb), (Z.compare_spec eb ec), (Z.compare_spec ea ec);
    try done; try lia; subst;
    destruct (Pos.compare_spec ma mb), (Pos.compare_spec mb mc), (Pos.compare_spec ma mc);
    simpl; try done; try lia.
Qed.

Lemma ltb_asym (a b : number) : (a <? b) = true → (b <? a) = false.
Proof.
  intros H. destruct (b <? a) eqn:E; [|done].
  pose proof (ltb_trans _ _ _ H E) as Hc. by rewrite ltb_irrefl in Hc.
Qed.

(** ** Which body a grab selects *)

(** A body is hit by the hand at (x, y) when it lies strictly inside its
    collider radius. *)
Local Abbreviation hit x y b := (screenDist b x y <? colliderRadius b).

Lemma grabScan_spec x y bodies idx closestDist target j :
  grabScan x y bodies idx closestDist target = Some j →
  (target = Some j
   ∧ ∀ k c, bodies !! k = Some c → hit x y c = true →
       (screenDist c x y <? closestDist) = false)
  ∨ (∃ b, bodies !! (j - idx)%nat = Some b ∧ (idx ≤ j)%nat
       ∧ hit x y b = true
       ∧ (screenDist b x y <? closestDist) = true
       ∧ ∀ k c, bodies !! k = Some c → hit x y c = true →
           (screenDist c x y <? screenDist b x y) = false).
Proof.
  revert idx closestDist target.
  induction bodies as [|body rest IH]; intros idx closestDist target Hscan; simpl in Hscan.
  { left. split; [done|]. intros k c Hk. done. }
  destruct (hit x y body) eqn:Hhit; simpl in Hscan.
  - destruct (screenDist body x y <? closestDist) eqn:Hlt.
    + right. destruct (IH _ _ _ Hscan) as [[Heq Hrest] | (b & Hb & Hle & Hbhit & Hblt & Hrest)].
      * injection Heq as <-. exists body. rewrite Nat.sub_diag.
        repeat split; try done.
        intros [|k] c Hk Hc; simpl in Hk.
        -- injection Hk as <-. apply ltb_irrefl.
        -- by eapply Hrest.
      * exists b. replace (j - idx)%nat with (S (j - S idx)) by lia.
        repeat split; try done; [lia | by eapply ltb_trans |].
        intros [|k] c Hk Hc; simpl in Hk.
        -- injection Hk as <-. by apply ltb_asym.
        -- by eapply Hrest.
    + destruct (IH _ _ _ Hscan) as [[Heq Hrest] | (b & Hb & Hle & Hbhit & Hblt & Hrest)].
      * left. split; [done|]. intros [|k] c Hk Hc; simpl in Hk.
        -- by injection Hk as <-.
        -- by eapply Hrest.
      * right. exists b. replace (j - idx)%nat with (S (j - S idx)) by lia.
        repeat split; try done; [lia|].
        intros [|k] c Hk Hc; simpl in Hk.
        -- injection Hk as <-.
           destruct (screenDist body x y <? screenDist b x y) eqn:E; [|done].
           by rewrite (ltb_trans _ _ _ E Hblt) in Hlt.
        -- by eapply Hrest.
  - destruct (IH _ _ _ Hscan) as [[Heq Hrest] | (b & Hb & Hle & Hbhit & Hblt & Hrest)].
    + left. split; [done|]. intros [|k] c Hk Hc; simpl in Hk.
      * injection Hk as <-. congruence.
      * by eapply Hrest.
    + right. exists b. replace (j - idx)%nat with (S (j - S idx)) by lia.
      repeat split; try done; [lia|].
      intros [|k] c Hk Hc; simpl in Hk.
      * injection Hk as <-. congruence.
      * by eapply Hrest.
Qed.

Lemma ltb_infinity (a b : number) : (a <? b) = true → (a <? Infinity) = true.
Proof.
  unfold Infinity. rewrite !ltb_spec. unfold SFltb.
  change (Prim2SF infinity) with (S754_infinity false).
  destruct (Prim2SF a) as [sa|sa| |sa ma ea], (Prim2SF b) as [sb|sb| |sb mb eb];
    unfold SFcompare; try destruct sa; try destruct sb; done.
Qed.

Lemma grabScan_target_stays x y bodies idx closestDist t :
  grabScan x y bodies idx closestDist (Some t) ≠ None.
Proof.
  revert idx closestDist t. induction bodies as [|body rest IH]; intros idx c t; simpl; [done|].
  case (_ && _); apply IH.
Qed.

Lemma grabScan_None x y bodies idx closestDist :
  grabScan x y bodies idx closestDist None = None →
  ∀ c, c ∈ bodies → hit x y c = true → (screenDist c x y <? closestDist) = false.
Proof.
  revert idx. induction bodies as [|body rest IH]; intros idx Hscan c Hin Hc.
  { by apply not_elem_of_nil in Hin. }
  simpl in Hscan.
  destruct (hit x y body && (screenDist body x y <? closestDist)) eqn:Htest.
  - by apply grabScan_target_stays in Hscan.
  - apply elem_of_cons in Hin as [->|Hin]; [|by eapply IH].
    rewrite Hc in Htest. done.
Qed.

Lemma resetGlow_frame b :
  RigidBody3D.id (resetGlow b) = RigidBody3D.id b
  ∧ RigidBody3D.position (resetGlow b) = RigidBody3D.position b
  ∧ RigidBody3D.rotation (resetGlow b) = RigidBody3D.rotation b
  ∧ RigidBody3D.isHeld (resetGlow b) = RigidBody3D.isHeld b
  ∧ RigidBody3D.scale (resetGlow b) = RigidBody3D.scale b.
Proof. unfold resetGlow. by case (_ && _). Qed.

(** The state after a grab whose scan selects the body at place [j]. *)
Lemma grab_success (Math_sin Math_cos : number -> number)
    (s : SoftBodySystem.t) (handId : nat) (x y z rot : number) (j : nat) (b : RigidBody3D.t) :
  JsMap.get handId (SoftBodySystem.heldObjects s) = None →
  grabScan x y (SoftBodySystem.rigidBodies s) 0 Infinity None = Some j →
  SoftBodySystem.rigidBodies s !! j = Some b →
  let s' := handleInteraction3D Math_sin Math_cos s handId x y z true rot in
  let p := RigidBody3D.position b in
  SoftBodySystem.heldObjects s'
    = JsMap.set handId
        (Hold.mk (RigidBody3D.id b)
           (Vector3.mk (Vector3.x p - x) (Vector3.y p - y) (Vector3.z p - z))
           rot (RigidBody3D.rotation b))
        (SoftBodySystem.heldObjects s)
  ∧ SoftBodySystem.rigidBodies s'
    = <[j := RigidBody3D.set_glow
               (RigidBody3D.set_snapTarget (RigidBody3D.set_isHeld (resetGlow b) true) None) 1.0]>
        (map resetGlow (SoftBodySystem.rigidBodies s)).
Proof.
  intros Hfree Hscan Hj s' p. subst s' p.
  assert (Hj' : map resetGlow (SoftBodySystem.rigidBodies s) !! j = Some (resetGlow b))
    by (by rewrite list_lookup_fmap, Hj).
  destruct (resetGlow_frame b) as (Hid & Hpos & Hrot & _).
  unfold handleInteraction3D, tryGrab.
  rewrite Hfree, grabScan_resetGlow, Hscan, Hj'. cbv zeta.
  destruct s; simpl in *. by rewrite Hid, Hpos, Hrot.
Qed.

(** X1: a grab by an actor without a hold record selects the nearest body
    among those that lie strictly inside their own collider radius: the
    record it gets names such a body, no body inside its radius is nearer,
    and the body comes out held, out of any stack and fully lit, at the
    position it had.  The actor is left without a record only when no body
    at all lies inside its radius. *)
Theorem grab_takes_nearest (Math_sin Math_cos : number -> number)
    (s : SoftBodySystem.t) (handId : nat) (x y z rot : number) :
  JsMap.get handId (SoftBodySystem.heldObjects s) = None →
  let s' := handleInteraction3D Math_sin Math_cos s handId x y z true rot in
  match JsMap.get handId (SoftBodySystem.heldObjects s') with
  | Some hold =>
      ∃ j b b', SoftBodySystem.rigidBodies s !! j = Some b
        ∧ Hold.bodyId hold = RigidBody3D.id b
        ∧ (screenDist b x y <? colliderRadius b) = true
        ∧ (∀ k c, SoftBodySystem.rigidBodies s !! k = Some c →
             (screenDist c x y <? colliderRadius c) = true →
             (screenDist c x y <? screenDist b x y) = false)
        ∧ SoftBodySystem.rigidBodies s' !! j = Some b'
        ∧ RigidBody3D.isHeld b' = true
        ∧ RigidBody3D.snapTarget b' = None
        ∧ RigidBody3D.glow b' = 1
        ∧ RigidBody3D.position b' = RigidBody3D.position b
  | None =>
      ∀ c, c ∈ SoftBodySystem.rigidBodies s →
        (screenDist c x y <? colliderRadius c) = false
  end.
Proof.
  intros Hfree s'.
  destruct (grabScan x y (SoftBodySystem.rigidBodies s) 0 Infinity None) as [j|] eqn:Hscan.
  - destruct (grabScan_spec _ _ _ _ _ _ _ Hscan)
      as [[Hno _] | (b & Hb & _ & Hbhit & _ & Hnear)]; [done|].
    rewrite Nat.sub_0_r in Hb.
    destruct (grab_success Math_sin Math_cos s handId x y z rot j b Hfree Hscan Hb)
      as (Hrec & Hbodies).
    fold s' in Hrec, Hbodies. rewrite Hrec, JsMap_get_set_eq, Hbodies.
    destruct (resetGlow_frame b) as (_ & Hpos & _).
    eexists j, b, _. do 4 (split; [done|]).
    split.
    { rewrite list_lookup_insert_eq; [done|].
      rewrite length_map. by eapply lookup_lt_Some. }
    by repeat split.
  - assert (Hs' : SoftBodySystem.heldObjects s' = SoftBodySystem.heldObjects s).
    { subst s'. unfold handleInteraction3D, tryGrab.
      rewrite Hfree, grabScan_resetGlow, Hscan. by destruct s. }
    rewrite Hs', Hfree. intros c Hin.
    destruct (hit x y c) eqn:Hc; [|done].
    pose proof (grabScan_None _ _ _ _ _ Hscan c Hin Hc) as Hfar.
    by rewrite (ltb_infinity _ _ Hc) in Hfar.
Qed.

Lemma grab_takes_nearest_witness :
  ∃ hold j b,
    JsMap.get 0 (SoftBodySystem.heldObjects
                   (handleInteraction3D sampleSin sampleCos twoCubes 0 115 100 0 true 0))
      = Some hold
    ∧ SoftBodySystem.rigidBodies twoCubes !! j = Some b
    ∧ Hold.bodyId hold = RigidBody3D.id b
    ∧ (screenDist b 115 100 <? colliderRadius b) = true.
Proof.
  pose proof (grab_takes_nearest sampleSin sampleCos twoCubes 0 115 100 0 0 eq_refl) as H.
  cbv zeta in H.
  destruct (JsMap.get 0 _) as [hold|] eqn:Hget.
  - destruct H as (j & b & b' & Hb & Hid & Hhit & _). by exists hold, j, b.
  - discriminate Hget.
Defined.

(** ** Which point a pinch attaches to *)

Lemma scanPoints_spec store x y pts minDist candidate d c' :
  scanPoints store x y pts minDist candidate = (d, c') →
  (d = minDist ∧ c' = candidate
   ∧ ∀ r p, r ∈ pts → store !! r = Some p → (pointDist p x y <? minDist) = false)
  ∨ (∃ r p, c' = Some r ∧ r ∈ pts ∧ store !! r = Some p ∧ pointDist p x y = d
       ∧ (d <? minDist) = true
       ∧ ∀ r' p', r' ∈ pts → store !! r' = Some p' → (pointDist p' x y <? d) = false).
Proof.
  revert minDist candidate.
  induction pts as [|r pts IH]; intros minDist candidate Hscan; simpl in Hscan.
  { left. injection Hscan as <- <-. repeat split. intros r p Hin. by apply not_elem_of_nil in Hin. }
  destruct (store !! r) as [p|] eqn:Hr.
  - fold (pointDist p x y) in Hscan.
    destruct (pointDist p x y <? minDist) eqn:Hlt.
    + right. destruct (IH _ _ Hscan) as [(-> & -> & Hrest) | (r2 & p2 & -> & Hin & Hr2 & Hd & Hlt2 & Hrest)].
      * exists r, p. repeat split; try done; [by left|].
        intros r' p' Hin' Hr'. apply elem_of_cons in Hin' as [->|Hin'].
        -- replace p' with p by congruence. apply ltb_irrefl.
        -- by eapply Hrest.
      * exists r2, p2. repeat split; try done; [by right | by eapply ltb_trans |].
        intros r' p' Hin' Hr'. apply elem_of_cons in Hin' as [->|Hin'].
        -- replace p' with p by congruence. by apply ltb_asym.
        -- by eapply Hrest.
    + destruct (IH _ _ Hscan) as [(-> & -> & Hrest) | (r2 & p2 & -> & Hin & Hr2 & Hd & Hlt2 & Hrest)].
      * left. repeat split. intros r' p' Hin' Hr'. apply elem_of_cons in Hin' as [->|Hin'].
        -- by replace p' with p by congruence.
        -- by eapply Hrest.
      * right. exists r2, p2. repeat split; try done; [by right|].
        intros r' p' Hin' Hr'. apply elem_of_cons in Hin' as [->|Hin'].
        -- replace p' with p by congruence.
           destruct (pointDist p x y <? d) eqn:E; [|done].
           by rewrite (ltb_trans _ _ _ E Hlt2) in Hlt.
        -- by eapply Hrest.
  - destruct (IH _ _ Hscan) as [(-> & -> & Hrest) | (r2 & p2 & -> & Hin & Hr2 & Hd & Hlt2 & Hrest)].
    + left. repeat split. intros r' p' Hin' Hr'. apply elem_of_cons in Hin' as [->|Hin'].
      * congruence.
      * by eapply Hrest.
    + right. exists r2, p2. repeat split; try done; [by right|].
      intros r' p' Hin' Hr'. apply elem_of_cons in Hin' as [->|Hin'].
      * congruence.
      * by eapply Hrest.
Qed.

Lemma eligiblePoint_cons obj objs r :
  eligiblePoint (obj :: objs) r
  ↔ (is_devil_horn (SoftBodyObject.type obj) = false ∧ r ∈ SoftBodyObject.points obj)
    ∨ eligiblePoint objs r.
Proof.
  unfold eligiblePoint. split.
  - intros (o & Hin & Hty & Hr). apply elem_of_cons in Hin as [->|Hin]; [by left|].
    right. by exists o.
  - intros [[Hty Hr] | (o & Hin & Hty & Hr)].
    + exists obj. split; [by left|done].
    + exists o. split; [by right|done].
Qed.

Lemma scanObjects_spec store x y objs minDist candidate d c' :
  scanObjects store x y objs minDist candidate = (d, c') →
  (d = minDist ∧ c' = candidate
   ∧ ∀ r p, eligiblePoint objs r → store !! r = Some p →
       (pointDist p x y <? minDist) = false)
  ∨ (∃ r p, c' = Some r ∧ eligiblePoint objs r ∧ store !! r = Some p
       ∧ pointDist p x y = d ∧ (d <? minDist) = true
       ∧ ∀ r' p', eligiblePoint objs r' → store !! r' = Some p' →
           (pointDist p' x y <? d) = false).
Proof.
  revert minDist candidate.
  induction objs as [|obj objs IH]; intros minDist candidate Hscan; simpl in Hscan.
  { left. injection Hscan as <- <-. repeat split.
    intros r p (o & Hin & _). by apply not_elem_of_nil in Hin. }
  assert (Hbelow : ∀ a m, (d <? m) = true → (a <? m) = false → (a <? d) = false).
  { intros a m Hdm Ham. destruct (a <? d) eqn:E; [|done].
    by rewrite (ltb_trans _ _ _ E Hdm) in Ham. }
  destruct (is_devil_horn (SoftBodyObject.type obj)) eqn:Hty.
  - destruct (IH _ _ Hscan) as [(-> & -> & Hrest) | (r2 & p2 & -> & Hel & Hr2 & Hd & Hlt2 & Hrest)].
    + left. repeat split. intros r p He Hr.
      apply eligiblePoint_cons in He as [[? _]|He]; [congruence | by eapply Hrest].
    + right. exists r2, p2. repeat split; try done.
      * apply eligiblePoint_cons. by right.
      * intros r p He Hr.
        apply eligiblePoint_cons in He as [[? _]|He]; [congruence | by eapply Hrest].
  - destruct (scanPoints store x y (SoftBodyObject.points obj) minDist candidate)
      as [m1 c1] eqn:Hpts.
    destruct (scanPoints_spec _ _ _ _ _ _ _ _ Hpts)
      as [(-> & -> & Hhere) | (r1 & p1 & -> & Hin1 & Hr1 & Hd1 & Hlt1 & Hhere)];
    destruct (IH _ _ Hscan)
      as [(-> & -> & Hrest) | (r2 & p2 & -> & Hel & Hr2 & Hd & Hlt2 & Hrest)].
    + left. repeat split. intros r p He Hr.
      apply eligiblePoint_cons in He as [[_ Hin]|He]; [by eapply Hhere | by eapply Hrest].
    + right. exists r2, p2. repeat split; try done.
      * apply eligiblePoint_cons. by right.
      * intros r p He Hr.
        apply eligiblePoint_cons in He as [[_ Hin]|He]; [|by eapply Hrest].
        eapply Hbelow; [done | by eapply Hhere].
    + right. exists r1, p1. repeat split; try done.
      * apply eligiblePoint_cons. by left.
      * intros r p He Hr.
        apply eligiblePoint_cons in He as [[_ Hin]|He]; [by eapply Hhere | by eapply Hrest].
    + right. exists r2, p2. repeat split; try done.
      * apply eligiblePoint_cons. by right.
      * by eapply ltb_trans.
      * intros r p He Hr.
        apply eligiblePoint_cons in He as [[_ Hin]|He]; [|by eapply Hrest].
        eapply Hbelow; [done | by eapply Hhere].
Qed.

(** X2: a pinch by an actor without a spring attaches it to the nearest
    point, among the points of the objects that are not devil horns, that
    lies strictly within 80 of the pinch, pinned or not, and anchors the
    spring at the pinch position; the actor stays without a spring only when
    no such point lies within 80.  The call moves no point and touches no
    other actor's spring. *)
Theorem pinch_takes_nearest (s : SoftBodySystem.t) (handId : nat) (x y : number) :
  JsMap.get handId (SoftBodySystem.mouseSprings s) = None →
  let s' := handleInteraction s handId x y true in
  let store := SoftBodySystem.pointStore s in
  SoftBodySystem.pointStore s' = store
  ∧ (∀ k, k ≠ handId →
       JsMap.get k (SoftBodySystem.mouseSprings s')
       = JsMap.get k (SoftBodySystem.mouseSprings s))
  ∧ match JsMap.get handId (SoftBodySystem.mouseSprings s') with
    | Some spring =>
        Spring.anchorX spring = x ∧ Spring.anchorY spring = y
        ∧ eligiblePoint (SoftBodySystem.objects s) (Spring.point spring)
        ∧ ∃ p, store !! Spring.point spring = Some p
            ∧ (pointDist p x y <? 80) = true
            ∧ ∀ r' p', eligiblePoint (SoftBodySystem.objects s) r' →
                store !! r' = Some p' →
                (pointDist p' x y <? pointDist p x y) = false
    | None =>
        ∀ r p, eligiblePoint (SoftBodySystem.objects s) r → store !! r = Some p →
          (pointDist p x y <? 80) = false
    end.
Proof.
  intros Hfree s' store. subst s' store. unfold handleInteraction.
  rewrite (proj2 (JsMap_has_get handId _) Hfree). cbn [negb].
  destruct (scanObjects (SoftBodySystem.pointStore s) x y (SoftBodySystem.objects s) 80 None)
    as [d c'] eqn:Hscan.
  destruct (scanObjects_spec _ _ _ _ _ _ _ _ Hscan)
    as [(-> & -> & Hfar) | (r & p & -> & Hel & Hr & <- & Hlt & Hnear)]; cbn [snd].
  - rewrite Hfree. destruct s; simpl in *. rewrite Hfree. repeat split; done.
  - rewrite JsMap_get_set_eq. destruct s; simpl in *.
    rewrite JsMap_get_set_eq. split; [done|]. split.
    + intros k Hk. by rewrite !JsMap_get_set_ne.
    + simpl. repeat split; try done. by exists p.
Qed.

Lemma pinch_takes_nearest_witness :
  ∃ spring p,
    JsMap.get 0 (SoftBodySystem.mouseSprings (handleInteraction plantScene 0 120 100 true))
      = Some spring
    ∧ SoftBodySystem.pointStore plantScene !! Spring.point spring = Some p
    ∧ (pointDist p 120 100 <? 80) = true
    ∧ Spring.anchorX spring = 120.
Proof.
  pose proof (pinch_takes_nearest plantScene 0 120 100 eq_refl) as (_ & _ & H).
  destruct (JsMap.get 0 _) as [spring|] eqn:Hget; [|discriminate Hget].
  destruct H as (Hx & _ & _ & p & Hp & Hlt & _). by exists spring, p.
Defined.

(** ** One record per actor *)

Lemma JsMap_set_keys {V} (k : nat) (v : V) m :
  (JsMap.set k v m).*1 = if JsMap.has k m then m.*1 else m.*1 ++ [k].
Proof.
  unfold JsMap.has. induction m as [|[k' v'] m IH]; [done|].
  cbn [JsMap.get JsMap.set]. destruct (Nat.eqb k' k) eqn:E.
  - apply Nat.eqb_eq in E. by subst.
  - rewrite !fmap_cons, IH. by destruct (JsMap.get k m).
Qed.

Lemma JsMap_get_None_keys {V} (k : nat) (m : list (nat * V)) :
  JsMap.get k m = None ↔ k ∉ m.*1.
Proof.
  induction m as [|[k' v'] m IH]; simpl.
  - split; [intros _; apply not_elem_of_nil | done].
  - destruct (Nat.eqb k' k) eqn:E.
    + apply Nat.eqb_eq in E. subst. split; [done|]. intros Hn. exfalso. apply Hn. by left.
    + apply Nat.eqb_neq in E. rewrite IH, not_elem_of_cons.
      split; [intros Hn; split; [congruence | done] | by intros [_ Hn]].
Qed.

Lemma JsMap_set_unique {V} (k : nat) (v : V) m : uniqueKeys m → uniqueKeys (JsMap.set k v m).
Proof.
  unfold uniqueKeys. intros Hm. rewrite JsMap_set_keys.
  destruct (JsMap.has k m) eqn:Hhas; [done|].
  apply JsMap_has_get, JsMap_get_None_keys in Hhas.
  apply NoDup_app. split; [done|]. split; [|apply NoDup_singleton].
  intros k' Hin Hin'. apply list_elem_of_singleton in Hin'. by subst.
Qed.

Lemma JsMap_delete_sublist {V} (k : nat) (m : list (nat * V)) :
  (JsMap.delete k m).*1 `sublist_of` m.*1.
Proof.
  induction m as [|[k' v'] m IH]; simpl; [done|].
  destruct (Nat.eqb k' k); simpl; [by apply sublist_cons | by apply sublist_skip].
Qed.

Lemma JsMap_delete_unique {V} (k : nat) (m : list (nat * V)) :
  uniqueKeys m → uniqueKeys (JsMap.delete k m).
Proof. unfold uniqueKeys. intros Hm. eapply sublist_NoDup; [done | apply JsMap_delete_sublist]. Qed.

Lemma JsMap_get_delete_eq {V} (k : nat) (m : list (nat * V)) :
  uniqueKeys m → JsMap.get k (JsMap.delete k m) = None.
Proof.
  unfold uniqueKeys. induction m as [|[k' v'] m IH]; simpl; intros Hm; [done|].
  apply NoDup_cons in Hm as [Hk' Hm].
  destruct (Nat.eqb k' k) eqn:E; simpl.
  - apply Nat.eqb_eq in E. subst. by apply JsMap_get_None_keys.
  - rewrite E. by apply IH.
Qed.

Lemma JsMap_get_delete_ne {V} (k k0 : nat) (m : list (nat * V)) :
  k0 ≠ k → JsMap.get k0 (JsMap.delete k m) = JsMap.get k0 m.
Proof.
  intros Hne. induction m as [|[k' v'] m IH]; simpl; [done|].
  destruct (Nat.eqb k' k) eqn:E; simpl.
  - apply Nat.eqb_eq in E. subst.
    destruct (Nat.eqb k k0) eqn:E'; [apply Nat.eqb_eq in E'; congruence | done].
  - by rewrite IH.
Qed.

(** ** Releasing a body *)

Lemma glowOnly_refl b : glowOnly b b.
Proof. by destruct b. Qed.

Lemma glowOnly_set_glow b g : glowOnly b (RigidBody3D.set_glow b g).
Proof. by destruct b. Qed.

Lemma glowOnly_trans b1 b2 b3 : glowOnly b1 b2 → glowOnly b2 b3 → glowOnly b1 b3.
Proof. unfold glowOnly. intros -> ->. by destruct b1. Qed.

Lemma glowOnly_id b b' : glowOnly b b' → RigidBody3D.id b' = RigidBody3D.id b.
Proof. by intros ->. Qed.

Lemma resetGlow_glowOnly b : glowOnly b (resetGlow b).
Proof. unfold resetGlow. case (_ && _); [apply glowOnly_set_glow | apply glowOnly_refl]. Qed.

Lemma hover_glowOnly x y b : glowOnly b (hover x y b).
Proof. unfold hover. case (_ <? _); [apply glowOnly_set_glow | apply glowOnly_refl]. Qed.

Lemma snapTo_frame active other :
  RigidBody3D.id (snapTo active other) = RigidBody3D.id active
  ∧ RigidBody3D.isHeld (snapTo active other) = RigidBody3D.isHeld active.
Proof. done. Qed.

Lemma checkSnapping_length bodies a : length (checkSnapping bodies a) = length bodies.
Proof.
  unfold checkSnapping.
  destruct (bodies !! a) as [active|]; [|done].
  destruct (snapScan active bodies 0) as [j|]; [|done].
  destruct (bodies !! j) as [other|]; [|done]. cbv zeta.
  destruct (_ !! j); by rewrite ?length_insert.
Qed.

(** What [checkSnapping] does to the body at each place: the released body
    keeps its id and its held flag, every other body everything but its glow. *)
Lemma checkSnapping_lookup bodies a k b :
  bodies !! k = Some b →
  ∃ b', checkSnapping bodies a !! k = Some b'
    ∧ RigidBody3D.id b' = RigidBody3D.id b
    ∧ RigidBody3D.isHeld b' = RigidBody3D.isHeld b
    ∧ (k ≠ a → glowOnly b b').
Proof.
  intros Hk. unfold checkSnapping.
  pose proof (lookup_lt_Some _ _ _ Hk) as Hlen.
  destruct (bodies !! a) as [active|] eqn:Ha;
    [|exists b; split; [done|]; repeat split; intros; apply glowOnly_refl].
  destruct (snapScan active bodies 0) as [j|];
    [|exists b; split; [done|]; repeat split; intros; apply glowOnly_refl].
  destruct (bodies !! j) as [other|] eqn:Hj;
    [|exists b; split; [done|]; repeat split; intros; apply glowOnly_refl].
  cbv zeta.
  assert (H1 : ∃ b1, <[a := snapTo active other]> bodies !! k = Some b1
             ∧ RigidBody3D.id b1 = RigidBody3D.id b
             ∧ RigidBody3D.isHeld b1 = RigidBody3D.isHeld b
             ∧ (k ≠ a → b1 = b)).
  { destruct (decide (k = a)) as [->|Hka].
    - rewrite list_lookup_insert_eq by done. eexists. split; [done|].
      assert (active = b) as -> by congruence. by repeat split.
    - rewrite list_lookup_insert_ne by done. by exists b. }
  destruct H1 as (b1 & Hb1 & Hid1 & Hheld1 & Hsame1).
  destruct (<[a := snapTo active other]> bodies !! j) as [other1|] eqn:Hj1.
  - destruct (decide (j = k)) as [->|Hjk].
    + rewrite list_lookup_insert_eq by (by rewrite length_insert).
      assert (other1 = b1) as -> by congruence.
      eexists. split; [done|]. split; [done|]. split; [done|].
      intros Hka. rewrite <- (Hsame1 Hka). apply glowOnly_set_glow.
    + rewrite list_lookup_insert_ne by done. exists b1. do 3 (split; [done|]).
      intros Hka. rewrite (Hsame1 Hka). apply glowOnly_refl.
  - exists b1. do 3 (split; [done|]).
    intros Hka. rewrite (Hsame1 Hka). apply glowOnly_refl.
Qed.

Lemma resetGlow_ids bodies : RigidBody3D.id <$> map resetGlow bodies = RigidBody3D.id <$> bodies.
Proof.
  induction bodies as [|b bodies IH]; [done|].
  change (map resetGlow (b :: bodies)) with (resetGlow b :: map resetGlow bodies).
  rewrite !fmap_cons, IH. f_equal. apply glowOnly_id, resetGlow_glowOnly.
Qed.

(** X3: when an actor that holds a body stops grabbing, its record is
    dropped and the first body carrying the recorded id is no longer held,
    whatever other actor may hold it too; no body is added or removed, and
    every other body keeps everything but its glow.  The records of the
    other actors are not touched. *)
Theorem release_frees_body (Math_sin Math_cos : number -> number)
    (s : SoftBodySystem.t) (handId : nat) (x y z rot : number) (hold : Hold.t) :
  uniqueKeys (SoftBodySystem.heldObjects s) →
  JsMap.get handId (SoftBodySystem.heldObjects s) = Some hold →
  let s' := handleInteraction3D Math_sin Math_cos s handId x y z false rot in
  JsMap.get handId (SoftBodySystem.heldObjects s') = None
  ∧ (∀ k, k ≠ handId →
       JsMap.get k (SoftBodySystem.heldObjects s') = JsMap.get k (SoftBodySystem.heldObjects s))
  ∧ length (SoftBodySystem.rigidBodies s') = length (SoftBodySystem.rigidBodies s)
  ∧ ∀ j b, SoftBodySystem.rigidBodies s !! j = Some b →
      ∃ b', SoftBodySystem.rigidBodies s' !! j = Some b'
        ∧ RigidBody3D.id b' = RigidBody3D.id b
        ∧ if decide (findBody (Hold.bodyId hold) (SoftBodySystem.rigidBodies s) = Some j)
          then RigidBody3D.isHeld b' = false
          else glowOnly b b'.
Proof.
  intros Huniq Hget s'. subst s'. unfold handleInteraction3D, release.
  rewrite Hget, (findBody_ids _ _ _ (resetGlow_ids _)).
  set (bodies0 := map resetGlow (SoftBodySystem.rigidBodies s)).
  assert (Hlen0 : length bodies0 = length (SoftBodySystem.rigidBodies s))
    by apply length_map.
  assert (H0 : ∀ j b, SoftBodySystem.rigidBodies s !! j = Some b →
             bodies0 !! j = Some (resetGlow b)).
  { intros j b Hj. unfold bodies0. by rewrite list_lookup_fmap, Hj. }
  destruct s as [store objs bodies springs held g d gf it st bt horns time]. simpl in *.
  split; [by apply JsMap_get_delete_eq|].
  split; [intros k Hk; by apply JsMap_get_delete_ne|].
  destruct (findBody (Hold.bodyId hold) bodies) as [a|] eqn:Hfind.
  - destruct (findBody_Some _ _ _ Hfind) as (c & Hc & _).
    rewrite (H0 _ _ Hc).
    split; [by rewrite length_map, checkSnapping_length, length_insert|].
    intros j b Hj.
    assert (Hj1 : ∃ b1, <[a := RigidBody3D.set_isHeld (resetGlow c) false]> bodies0 !! j = Some b1
               ∧ RigidBody3D.id b1 = RigidBody3D.id b
               ∧ (j = a → RigidBody3D.isHeld b1 = false)
               ∧ (j ≠ a → glowOnly b b1)).
    { destruct (decide (j = a)) as [->|Hja].
      - rewrite list_lookup_insert_eq by (rewrite Hlen0; by eapply lookup_lt_Some).
        eexists. split; [done|]. assert (c = b) as -> by congruence.
        split; [apply (glowOnly_id _ _ (resetGlow_glowOnly b))|]. by split.
      - rewrite list_lookup_insert_ne by done. rewrite (H0 _ _ Hj).
        eexists. split; [done|]. split; [apply (glowOnly_id _ _ (resetGlow_glowOnly b))|].
        split; [done|]. intros _. apply resetGlow_glowOnly. }
    destruct Hj1 as (b1 & Hb1 & Hid1 & Hheld1 & Hglow1).
    destruct (checkSnapping_lookup _ a _ _ Hb1) as (b2 & Hb2 & Hid2 & Hheld2 & Hglow2).
    exists (hover x y b2). rewrite list_lookup_fmap, Hb2.
    split; [done|].
    split; [by rewrite (glowOnly_id _ _ (hover_glowOnly x y b2)), Hid2|].
    destruct (decide (Some a = Some j)) as [[= ->]|Hne].
    + pose proof (hover_glowOnly x y b2) as ->. simpl. by rewrite Hheld2, Hheld1.
    + assert (Hja : j ≠ a) by congruence.
      eapply glowOnly_trans; [|apply hover_glowOnly].
      eapply glowOnly_trans; [by apply Hglow1 | by apply Hglow2].
  - split; [by rewrite length_map|].
    intros j b Hj. exists (hover x y (resetGlow b)).
    rewrite list_lookup_fmap, (H0 _ _ Hj). split; [done|].
    split.
    { by rewrite (glowOnly_id _ _ (hover_glowOnly x y _)), (glowOnly_id _ _ (resetGlow_glowOnly b)). }
    destruct (decide (None = Some j)); [done|].
    eapply glowOnly_trans; [apply resetGlow_glowOnly | apply hover_glowOnly].
Qed.

Lemma release_frees_body_witness :
  let s' := handleInteraction3D sampleSin sampleCos firstGrab 0 100 100 0 false 0 in
  uniqueKeys (SoftBodySystem.heldObjects firstGrab)
  ∧ JsMap.get 0 (SoftBodySystem.heldObjects s') = None
  ∧ length (SoftBodySystem.rigidBodies s') = 1%nat.
Proof.
  assert (Hu : uniqueKeys (SoftBodySystem.heldObjects firstGrab))
    by (vm_compute; apply NoDup_singleton).
  split; [done|].
  destruct (release_frees_body sampleSin sampleCos firstGrab 0 100 100 0 0 _ Hu eq_refl)
    as (Hnone & _ & Hlen & _).
  by split.
Defined.

(** ** Dragging a held body *)

(** X4: while an actor that holds a body keeps grabbing, the first body
    carrying the recorded id moves two fifths of the way to the hand plus
    the recorded offset, comes to rest, is fully lit and turns about the
    vertical axis by 0.15 times the change of the hand's angle; its held
    flag is not written.  Every other body keeps everything but its glow,
    the record keeps its body and its offset, and the records of the other
    actors are not touched. *)
Theorem drag_follows_hand (Math_sin Math_cos : number -> number)
    (s : SoftBodySystem.t) (handId : nat) (x y z rot : number) (hold : Hold.t)
    (j : nat) (body : RigidBody3D.t) :
  JsMap.get handId (SoftBodySystem.heldObjects s) = Some hold →
  findBody (Hold.bodyId hold) (SoftBodySystem.rigidBodies s) = Some j →
  SoftBodySystem.rigidBodies s !! j = Some body →
  let s' := handleInteraction3D Math_sin Math_cos s handId x y z true rot in
  let p := RigidBody3D.position body in
  let o := Hold.offset hold in
  JsMap.get handId (SoftBodySystem.heldObjects s')
    = Some (Hold.mk (Hold.bodyId hold) o rot (Hold.initialObjRot hold))
  ∧ (∀ k, k ≠ handId →
       JsMap.get k (SoftBodySystem.heldObjects s') = JsMap.get k (SoftBodySystem.heldObjects s))
  ∧ (∃ b', SoftBodySystem.rigidBodies s' !! j = Some b'
       ∧ RigidBody3D.position b'
         = Vector3.mk (Vector3.x p + (x + Vector3.x o - Vector3.x p) * 0.4)
                      (Vector3.y p + (y + Vector3.y o - Vector3.y p) * 0.4)
                      (Vector3.z p + (z + Vector3.z o - Vector3.z p) * 0.4)
       ∧ RigidBody3D.velocity b' = Vector3.mk 0 0 0
       ∧ RigidBody3D.rotation b'
         = qMult (RigidBody3D.rotation body)
             (qFromAxisAngle Math_sin Math_cos (Vector3.mk 0 1 0)
                ((rot - Hold.initialHandRot hold) * 0.15))
       ∧ RigidBody3D.glow b' = 1
       ∧ RigidBody3D.isHeld b' = RigidBody3D.isHeld body
       ∧ bodyShape b' = bodyShape body)
  ∧ ∀ k b, k ≠ j → SoftBodySystem.rigidBodies s !! k = Some b →
      ∃ b', SoftBodySystem.rigidBodies s' !! k = Some b' ∧ glowOnly b b'.
Proof.
  intros Hget Hfind Hj s' p o. subst s' p o. unfold handleInteraction3D, dragHeld.
  rewrite Hget, (findBody_ids _ _ _ (resetGlow_ids _)), Hfind.
  assert (H0 : ∀ k b, SoftBodySystem.rigidBodies s !! k = Some b →
             map resetGlow (SoftBodySystem.rigidBodies s) !! k = Some (resetGlow b)).
  { intros k b Hk. by rewrite list_lookup_fmap, Hk. }
  rewrite (H0 _ _ Hj). cbv zeta.
  pose proof (resetGlow_glowOnly body) as Hglow.
  destruct s as [store objs bodies springs held g d gf it st bt horns time]. simpl in *.
  split; [apply JsMap_get_set_eq|].
  split; [intros k Hk; by apply JsMap_get_set_ne|].
  split.
  - eexists. split.
    { rewrite list_lookup_insert_eq; [done|]. rewrite length_map. by eapply lookup_lt_Some. }
    rewrite Hglow. by destruct body.
  - intros k b Hk Hb. exists (resetGlow b).
    rewrite list_lookup_insert_ne by done. split; [by apply H0 | apply resetGlow_glowOnly].
Qed.

Lemma drag_follows_hand_witness :
  ∃ b', SoftBodySystem.rigidBodies
          (handleInteraction3D sampleSin sampleCos firstGrab 0 150 100 0 true 0) !! 0%nat
        = Some b'
    ∧ RigidBody3D.position b' = Vector3.mk 120 100 0
    ∧ RigidBody3D.velocity b' = Vector3.mk 0 0 0.
Proof.
  destruct (drag_follows_hand sampleSin sampleCos firstGrab 0 150 100 0 0 _ 0 _
              eq_refl eq_refl eq_refl) as (_ & _ & (b' & Hb' & Hpos & Hvel & _) & _).
  exists b'. split; [done|]. split; [|done].
  rewrite Hpos. vm_compute. reflexivity.
Defined.

(** ** What no call changes *)

Lemma glowOnly_shape b b' : glowOnly b b' → bodyShape b' = bodyShape b.
Proof. by intros ->. Qed.

Lemma insert_same_image {A B} (f : A → B) (l : list A) (i : nat) (a a' : A) :
  l !! i = Some a → f a' = f a → f <$> <[i := a']> l = f <$> l.
Proof.
  intros Hi Hf. rewrite list_fmap_insert, Hf. apply list_insert_id.
  by rewrite list_lookup_fmap, Hi.
Qed.

Lemma map_same_image {A B} (f : A → B) (g : A → A) (l : list A) :
  (∀ a, f (g a) = f a) → f <$> map g l = f <$> l.
Proof.
  intros Hfg. induction l as [|a l IH]; [done|].
  change (map g (a :: l)) with (g a :: map g l). by rewrite !fmap_cons, IH, Hfg.
Qed.

Lemma checkSnapping_shape bodies a :
  bodyShape <$> checkSnapping bodies a = bodyShape <$> bodies.
Proof.
  unfold checkSnapping.
  destruct (bodies !! a) as [active|] eqn:Ha; [|done].
  destruct (snapScan active bodies 0) as [j|]; [|done].
  destruct (bodies !! j) as [other|]; [|done]. cbv zeta.
  assert (H1 : bodyShape <$> <[a := snapTo active other]> bodies = bodyShape <$> bodies)
    by (by eapply insert_same_image).
  destruct (_ !! j) as [other1|] eqn:Hj1; [|done].
  rewrite <- H1. by eapply insert_same_image.
Qed.

Lemma handleInteraction3D_shape Math_sin Math_cos s handId x y z isGrabbing rot :
  bodyShape <$> SoftBodySystem.rigidBodies
                  (handleInteraction3D Math_sin Math_cos s handId x y z isGrabbing rot)
  = bodyShape <$> SoftBodySystem.rigidBodies s.
Proof.
  unfold handleInteraction3D.
  set (bodies0 := map resetGlow (SoftBodySystem.rigidBodies s)).
  assert (H0 : bodyShape <$> bodies0 = bodyShape <$> SoftBodySystem.rigidBodies s).
  { apply map_same_image. intros b. apply glowOnly_shape, resetGlow_glowOnly. }
  rewrite <- H0. generalize bodies0. clear H0 bodies0. intros bodies0.
  destruct isGrabbing.
  - destruct (JsMap.get _ _) as [hold|].
    + unfold dragHeld. destruct (findBody _ _) as [j|]; [|by destruct s].
      destruct (bodies0 !! j) as [body|] eqn:Hj; [|by destruct s].
      destruct s; simpl. by eapply insert_same_image.
    + unfold tryGrab. destruct (grabScan _ _ _ _ _ _) as [j|]; [|by destruct s].
      destruct (bodies0 !! j) as [body|] eqn:Hj; [|by destruct s].
      destruct s; simpl. by eapply insert_same_image.
  - unfold release. destruct (JsMap.get _ _) as [hold|]; destruct s; simpl.
    + rewrite map_same_image by (intros b; apply glowOnly_shape, hover_glowOnly).
      destruct (findBody _ _) as [j|]; [|done].
      destruct (bodies0 !! j) as [body|] eqn:Hj; [|done].
      rewrite checkSnapping_shape. by eapply insert_same_image.
    + apply map_same_image. intros b. apply glowOnly_shape, hover_glowOnly.
Qed.

Section TickFrame.

Variable Math_sin : number -> number.
Variables (time gravity groundFriction height : number).

Local Abbreviation step := (updateBody Math_sin time gravity groundFriction height).

(** What the loop body of the tick leaves of a body: its shape and its held flag. *)
Lemma bodyAfter_shape bodies i b :
  let b' := bodyAfter Math_sin time gravity groundFriction height bodies i b in
  bodyShape b' = bodyShape b ∧ RigidBody3D.isHeld b' = RigidBody3D.isHeld b.
Proof.
  assert (Hpre : ∀ c, let c1 := decayGlow (animateDragon Math_sin time c) in
            bodyShape c1 = bodyShape c ∧ RigidBody3D.isHeld c1 = RigidBody3D.isHeld c).
  { intros c. unfold decayGlow, animateDragon.
    destruct (is_dragon _); [destruct (RigidBody3D.dragonConfig c)|]; by case (_ <? _). }
  assert (Hfall : ∀ c, let c1 := freeFall gravity groundFriction height c in
            bodyShape c1 = bodyShape c ∧ RigidBody3D.isHeld c1 = RigidBody3D.isHeld c).
  { intros c. unfold freeFall. cbv zeta. by case (_ <? _). }
  cbv zeta in *. unfold bodyAfter. cbv zeta.
  destruct (Hpre b) as [<- <-].
  generalize (decayGlow (animateDragon Math_sin time b)). clear Hpre. intros b1.
  repeat (case_match; try done);
    rewrite ?(proj1 (Hfall _)), ?(proj2 (Hfall _)); done.
Qed.

Lemma updateBody_shape bodies i :
  (λ b, (bodyShape b, RigidBody3D.isHeld b)) <$> step bodies i
  = (λ b, (bodyShape b, RigidBody3D.isHeld b)) <$> bodies.
Proof.
  destruct (bodies !! i) as [b|] eqn:Hi.
  - rewrite (updateBody_spec _ _ _ _ _ _ _ b) by done.
    eapply insert_same_image; [done|].
    destruct (bodyAfter_shape bodies i b) as [Hs Hh]. cbv zeta in Hs, Hh. by rewrite Hs, Hh.
  - unfold updateBody. by rewrite Hi.
Qed.

Lemma updateBodies_shape bodies :
  (λ b, (bodyShape b, RigidBody3D.isHeld b))
    <$> updateBodies Math_sin time gravity groundFriction height bodies
  = (λ b, (bodyShape b, RigidBody3D.isHeld b)) <$> bodies.
Proof.
  unfold updateBodies. generalize (seq 0 (length bodies)). intros is_. revert bodies.
  induction is_ as [|i is_ IH]; intros bodies; simpl; [done|].
  by rewrite IH, updateBody_shape.
Qed.

End TickFrame.

Lemma modifyPoint_shape store r (f : Point.t → Point.t) :
  (∀ p, pointShape (f p) = pointShape p) →
  pointShape <$> modifyPoint store r f = pointShape <$> store.
Proof.
  intros Hf. unfold modifyPoint. destruct (store !! r) as [p|] eqn:Hr; [|done].
  by eapply insert_same_image.
Qed.

Lemma foldl_shape {A} (step : list Point.t → A → list Point.t) (l : list A) store :
  (∀ st a, pointShape <$> step st a = pointShape <$> st) →
  pointShape <$> foldl step store l = pointShape <$> store.
Proof.
  intros Hstep. revert store. induction l as [|a l IH]; intros store; simpl; [done|].
  by rewrite IH, Hstep.
Qed.

Section SolverFrame.

Variables (gravity drag groundFriction stiffness breakingThreshold : number).
Variables (width height : number).

Lemma integratePoint_shape p :
  pointShape (integratePoint gravity drag groundFriction width height p) = pointShape p.
Proof. unfold integratePoint. cbv zeta. by repeat case (_ <? _). Qed.

Lemma integrateStep_shape store r :
  pointShape <$> integrateStep gravity drag groundFriction width height store r
  = pointShape <$> store.
Proof.
  unfold integrateStep. destruct (store !! r) as [p|] eqn:Hr; [|done].
  case (Point.isPinned p); [done|].
  eapply insert_same_image; [done | apply integratePoint_shape].
Qed.

Lemma visitStick_shape store s store' :
  visitStick stiffness breakingThreshold store s = Some store' →
  pointShape <$> store' = pointShape <$> store.
Proof.
  unfold visitStick.
  destruct (store !! Stick.p0 s) as [a|]; [|by intros [= <-]].
  destruct (store !! Stick.p1 s) as [b|]; [|by intros [= <-]].
  cbv zeta. case (_ <? _); [done|]. intros [= <-].
  destruct (negb (Point.isPinned a)), (negb (Point.isPinned b));
    rewrite ?modifyPoint_shape; done.
Qed.

Lemma sticksLoop_shape n store sticks :
  pointShape <$> (sticksLoop stiffness breakingThreshold n store sticks).1 = pointShape <$> store.
Proof.
  revert store sticks. induction n as [|n IH]; intros store sticks; simpl; [done|].
  destruct (sticks !! n) as [s|]; [|apply IH].
  destruct (visitStick _ _ store s) as [store'|] eqn:Hvisit; rewrite IH; [|done].
  by eapply visitStick_shape.
Qed.

Lemma relax_shape iterations st :
  pointShape <$> (Nat.iter iterations (relaxPass stiffness breakingThreshold) st).1
  = pointShape <$> st.1.
Proof.
  induction iterations as [|n IH]; simpl; [done|].
  unfold relaxPass at 1. by rewrite sticksLoop_shape.
Qed.

Lemma updateObject_frame iterations store obj :
  let r := updateObject gravity drag groundFriction stiffness breakingThreshold
             width height iterations store obj in
  pointShape <$> r.1 = pointShape <$> store
  ∧ SoftBodyObject.set_sticks r.2 [] = SoftBodyObject.set_sticks obj [].
Proof.
  unfold updateObject. case (is_devil_horn _); [done|]. cbv zeta.
  pose proof (relax_shape iterations
                (foldl (integrateStep gravity drag groundFriction width height) store
                   (SoftBodyObject.points obj), SoftBodyObject.sticks obj)) as Hrelax.
  destruct (Nat.iter _ _ _) as [store2 sticks2]. simpl in *.
  split; [|done]. rewrite Hrelax. apply foldl_shape, integrateStep_shape.
Qed.

Lemma updateObjects_frame iterations store objs :
  let r := updateObjects gravity drag groundFriction stiffness breakingThreshold
             width height iterations store objs in
  pointShape <$> r.1 = pointShape <$> store
  ∧ (λ o, SoftBodyObject.set_sticks o []) <$> r.2 = (λ o, SoftBodyObject.set_sticks o []) <$> objs.
Proof.
  revert store. induction objs as [|obj objs IH]; intros store; [done|].
  cbv zeta. cbn [updateObjects].
  pose proof (updateObject_frame iterations store obj) as Hobj.
  destruct (updateObject _ _ _ _ _ _ _ _ _ _) as [store1 obj'].
  pose proof (IH store1) as Hrest.
  destruct (updateObjects _ _ _ _ _ _ _ _ _ _) as [store2 rest'].
  cbv zeta in Hobj, Hrest. cbn [fst snd] in *. destruct Hobj as [Hs1 Ho], Hrest as [Hs2 Hr].
  split; [by rewrite Hs2|]. by rewrite !fmap_cons, Ho, Hr.
Qed.

End SolverFrame.

Lemma applySprings_shape store springs :
  pointShape <$> applySprings store springs = pointShape <$> store.
Proof.
  unfold applySprings. apply foldl_shape. intros st [k spring].
  unfold springPull. by apply modifyPoint_shape.
Qed.

(** What a tick keeps of the rigid bodies, of the points and of the objects. *)
Lemma update_keeps (Math_sin : number -> number) (s : SoftBodySystem.t)
    (width height : number) :
  let s' := update Math_sin s width height in
  SoftBodySystem.heldObjects s' = SoftBodySystem.heldObjects s
  ∧ SoftBodySystem.mouseSprings s' = SoftBodySystem.mouseSprings s
  ∧ bodyShape <$> SoftBodySystem.rigidBodies s' = bodyShape <$> SoftBodySystem.rigidBodies s
  ∧ RigidBody3D.isHeld <$> SoftBodySystem.rigidBodies s'
    = RigidBody3D.isHeld <$> SoftBodySystem.rigidBodies s
  ∧ pointShape <$> SoftBodySystem.pointStore s' = pointShape <$> SoftBodySystem.pointStore s
  ∧ (λ o, SoftBodyObject.set_sticks o []) <$> SoftBodySystem.objects s'
    = (λ o, SoftBodyObject.set_sticks o []) <$> SoftBodySystem.objects s
  ∧ sticksShrink (SoftBodySystem.objects s') (SoftBodySystem.objects s).
Proof.
  intros s'. subst s'. unfold update.
  pose proof (updateObjects_frame (SoftBodySystem.gravity s) (SoftBodySystem.drag s)
                (SoftBodySystem.groundFriction s) (SoftBodySystem.stiffness s)
                (SoftBodySystem.breakingThreshold s) width height
                (SoftBodySystem.solverIterations s) (SoftBodySystem.pointStore s)
                (SoftBodySystem.objects s)) as [Hstore Hobjs].
  pose proof (updateObjects_shrink (SoftBodySystem.gravity s) (SoftBodySystem.drag s)
                (SoftBodySystem.groundFriction s) (SoftBodySystem.stiffness s)
                (SoftBodySystem.breakingThreshold s) width height
                (SoftBodySystem.solverIterations s) (SoftBodySystem.pointStore s)
                (SoftBodySystem.objects s)) as Hshrink.
  pose proof (updateBodies_shape Math_sin (SoftBodySystem.time s + 0.05)
                (SoftBodySystem.gravity s) (SoftBodySystem.groundFriction s) height
                (SoftBodySystem.rigidBodies s)) as Hbodies.
  destruct (updateObjects _ _ _ _ _ _ _ _ _ _) as [store1 objects1].
  cbn [SoftBodySystem.heldObjects SoftBodySystem.mouseSprings SoftBodySystem.rigidBodies
       SoftBodySystem.pointStore SoftBodySystem.objects fst snd] in *.
  do 2 (split; [done|]).
  split.
  { apply (f_equal (fmap fst)) in Hbodies. by rewrite <- !list_fmap_compose in Hbodies. }
  split.
  { apply (f_equal (fmap snd)) in Hbodies. by rewrite <- !list_fmap_compose in Hbodies. }
  split; [by rewrite applySprings_shape|]. by split.
Qed.

(** X5: a tick neither grabs nor releases, and creates or destroys nothing:
    the hold records, the springs and the parameters are the ones before
    and the clock is 0.05 later, every rigid body keeps its place, its shape
    and its held flag, every point keeps its place, its pinned flag and all
    but its coordinates, and every soft object keeps everything but,
    possibly, some of its sticks. *)
Theorem update_frame (Math_sin : number -> number) (s : SoftBodySystem.t)
    (width height : number) :
  let s' := update Math_sin s width height in
  s' = SoftBodySystem.mk (SoftBodySystem.pointStore s') (SoftBodySystem.objects s')
         (SoftBodySystem.rigidBodies s') (SoftBodySystem.mouseSprings s)
         (SoftBodySystem.heldObjects s) (SoftBodySystem.gravity s) (SoftBodySystem.drag s)
         (SoftBodySystem.groundFriction s) (SoftBodySystem.solverIterations s)
         (SoftBodySystem.stiffness s) (SoftBodySystem.breakingThreshold s)
         (SoftBodySystem.horns s) (SoftBodySystem.time s + 0.05)
  ∧ bodyShape <$> SoftBodySystem.rigidBodies s' = bodyShape <$> SoftBodySystem.rigidBodies s
  ∧ RigidBody3D.isHeld <$> SoftBodySystem.rigidBodies s'
    = RigidBody3D.isHeld <$> SoftBodySystem.rigidBodies s
  ∧ pointShape <$> SoftBodySystem.pointStore s' = pointShape <$> SoftBodySystem.pointStore s
  ∧ (λ o, SoftBodyObject.set_sticks o []) <$> SoftBodySystem.objects s'
    = (λ o, SoftBodyObject.set_sticks o []) <$> SoftBodySystem.objects s
  ∧ sticksShrink (SoftBodySystem.objects s') (SoftBodySystem.objects s).
Proof.
  intros s'.
  destruct (update_keeps Math_sin s width height) as (_ & _ & Hshape & Hheld & Hpoints & Hobjs & Hshrink).
  split; [|done].
  subst s'. unfold update. by destruct (updateObjects _ _ _ _ _ _ _ _ _ _).
Qed.

Section ManipulatorFrame.

Variable Math_random : nat -> number.
Variables (x y radius intensity vx vy : number).

Lemma crumplePoint_shape k p :
  pointShape (crumplePoint Math_random x y radius intensity k p).1 = pointShape p.
Proof. unfold crumplePoint. cbv zeta. by case (_ <? _). Qed.

Lemma crumplePoints_shape pts store k :
  pointShape <$> (crumplePoints Math_random x y radius intensity pts store k).1
  = pointShape <$> store.
Proof.
  revert store k. induction pts as [|r pts IH]; intros store k; simpl; [done|].
  destruct (store !! r) as [p|] eqn:Hr; [|apply IH].
  pose proof (crumplePoint_shape k p) as Hp.
  destruct (crumplePoint _ _ _ _ _ _ p) as [p' k']. rewrite IH.
  by eapply insert_same_image.
Qed.

Lemma crumpleObjects_shape objs store k :
  pointShape <$> (crumpleObjects Math_random x y radius intensity objs store k).1
  = pointShape <$> store.
Proof.
  revert store k. induction objs as [|obj objs IH]; intros store k; simpl; [done|].
  case (is_devil_horn _); [apply IH|].
  pose proof (crumplePoints_shape (SoftBodyObject.points obj) store k) as Hpts.
  destruct (crumplePoints _ _ _ _ _ _ store k) as [store' k']. by rewrite IH.
Qed.

Lemma foldPoint_shape p : pointShape (foldPoint x y radius vx vy p) = pointShape p.
Proof. unfold foldPoint. cbv zeta. by case (_ <? _). Qed.

Lemma foldObjects_shape objs store :
  pointShape <$> foldObjects x y radius vx vy objs store = pointShape <$> store.
Proof.
  revert store. induction objs as [|obj objs IH]; intros store; simpl; [done|].
  case (is_devil_horn _); [apply IH|]. rewrite IH.
  apply foldl_shape. intros st r. apply modifyPoint_shape, foldPoint_shape.
Qed.

End ManipulatorFrame.

Lemma bindHorn_store store objs k at_ angle scale :
  ∃ p, (bindHorn store objs k at_ angle scale).1.1 = store ++ [p].
Proof. unfold bindHorn. cbv zeta. eexists. by destruct (_ ≫= _). Qed.

Section RunFrame.

Variables (Math_sin Math_cos : number -> number) (Math_hypot Math_atan2 : number -> number -> number).
Variable Math_random : nat -> number.

Local Abbreviation run := (runOp Math_sin Math_cos Math_hypot Math_atan2 Math_random).

Lemma updateHorns_store s faceLandmarks isGestureActive canvasWidth canvasHeight :
  SoftBodySystem.pointStore s
    `prefix_of` SoftBodySystem.pointStore
                  (updateHorns Math_hypot Math_atan2 s faceLandmarks isGestureActive
                     canvasWidth canvasHeight)
  ∧ SoftBodySystem.rigidBodies
      (updateHorns Math_hypot Math_atan2 s faceLandmarks isGestureActive canvasWidth canvasHeight)
    = SoftBodySystem.rigidBodies s.
Proof.
  unfold updateHorns.
  destruct (ensureHorn _ _ (SoftBodySystem.objects s)) as [objs1 leftHorn].
  destruct (ensureHorn _ _ objs1) as [objs2 rightHorn].
  destruct isGestureActive; cbn [negb]; [|by destruct s].
  destruct (faceLandmarks !! 105%nat) as [lm105|]; [|by destruct s].
  destruct (faceLandmarks !! 334%nat) as [lm334|]; [|by destruct s].
  cbv zeta.
  match goal with
  | |- context [bindHorn ?st ?o ?k ?a ?an ?sc] =>
      destruct (bindHorn_store st o k a an sc) as [p1 Hleft];
      destruct (bindHorn st o k a an sc) as [[store1 objs4] ok]
  end.
  cbn [fst snd] in Hleft. subst store1.
  destruct ok.
  - match goal with
    | |- context [bindHorn ?st ?o ?k ?a ?an ?sc] =>
        destruct (bindHorn_store st o k a an sc) as [p2 Hright];
        destruct (bindHorn st o k a an sc) as [[store2 objs5] ok']
    end.
    cbn [fst snd] in Hright. subst store2. destruct s; simpl.
    split; [|done]. rewrite <- app_assoc. by apply prefix_app_r.
  - destruct s; simpl. split; [|done]. by apply prefix_app_r.
Qed.

Lemma runOp_shapes st op :
  bodyShape <$> SoftBodySystem.rigidBodies (run st op).1
  = bodyShape <$> SoftBodySystem.rigidBodies st.1
  ∧ pointShape <$> SoftBodySystem.pointStore st.1
    `prefix_of` pointShape <$> SoftBodySystem.pointStore (run st op).1.
Proof.
  destruct st as [s k]. destruct op; cbn [runOp fst snd].
  - destruct (update_keeps Math_sin s width height) as (_ & _ & Hb & _ & Hp & _).
    cbv zeta in Hb, Hp. by rewrite Hb, Hp.
  - split; [apply handleInteraction3D_shape|].
    unfold handleInteraction3D.
    destruct isGrabbing;
      [destruct (JsMap.get _ _);
         [destruct (dragHeld _ _ _ _ _ _ _ _ _ _) | destruct (tryGrab _ _ _ _ _ _ _)]
      | destruct (release _ _ _)]; by destruct s.
  - unfold handleInteraction. destruct isPinching; [|by destruct s].
    destruct (JsMap.get _ _); by destruct s.
  - unfold crumple.
    pose proof (crumpleObjects_shape Math_random x y radius intensity
                  (SoftBodySystem.objects s) (SoftBodySystem.pointStore s) k) as Hc.
    destruct (crumpleObjects _ _ _ _ _ _ _ _) as [store' k']. destruct s; simpl in *.
    by rewrite Hc.
  - unfold fold. destruct s; simpl. by rewrite foldObjects_shape.
  - destruct (updateHorns_store s faceLandmarks isGestureActive canvasWidth canvasHeight)
      as [Hp Hb].
    rewrite Hb. split; [done|]. destruct Hp as [new ->]. rewrite fmap_app. by apply prefix_app_r.
Qed.

End RunFrame.

(** X6: whatever calls the host makes, in whatever order, no rigid body is
    added, removed, moved to another place or reshaped (its id, kind, scale,
    angular velocity, mesh and colour stay), and a point, once in the store,
    keeps its place, its pinned flag, its texture coordinates, mass, radius
    and colour: nothing after a spawn pins or unpins a point. *)
Theorem calls_keep_shapes (Math_sin Math_cos : number -> number)
    (Math_hypot Math_atan2 : number -> number -> number) (Math_random : nat -> number)
    (ops : list Op) (st : SoftBodySystem.t * nat) :
  let st' := foldl (runOp Math_sin Math_cos Math_hypot Math_atan2 Math_random) st ops in
  bodyShape <$> SoftBodySystem.rigidBodies st'.1 = bodyShape <$> SoftBodySystem.rigidBodies st.1
  ∧ ∀ r p, SoftBodySystem.pointStore st.1 !! r = Some p →
      ∃ p', SoftBodySystem.pointStore st'.1 !! r = Some p' ∧ pointShape p' = pointShape p.
Proof.
  intros st'. subst st'.
  assert (Hall : bodyShape <$> SoftBodySystem.rigidBodies
                   (foldl (runOp Math_sin Math_cos Math_hypot Math_atan2 Math_random) st ops).1
                 = bodyShape <$> SoftBodySystem.rigidBodies st.1
               ∧ pointShape <$> SoftBodySystem.pointStore st.1
                 `prefix_of` pointShape <$> SoftBodySystem.pointStore
                   (foldl (runOp Math_sin Math_cos Math_hypot Math_atan2 Math_random) st ops).1).
  { revert st. induction ops as [|op ops IH]; intros st; simpl; [done|].
    destruct (IH (runOp Math_sin Math_cos Math_hypot Math_atan2 Math_random st op)) as [Hb Hp].
    destruct (runOp_shapes Math_sin Math_cos Math_hypot Math_atan2 Math_random st op)
      as [Hb1 Hp1].
    split; [by rewrite Hb, Hb1 | by etrans]. }
  destruct Hall as [Hb Hp]. split; [done|].
  intros r p Hr.
  assert (Hr' : (pointShape <$> SoftBodySystem.pointStore st.1) !! r = Some (pointShape p))
    by (by rewrite list_lookup_fmap, Hr).
  pose proof (prefix_lookup_Some _ _ _ _ Hr' Hp) as Hlook.
  apply list_lookup_fmap_Some in Hlook as (p' & Hshape & Hp'). by exists p'.
Qed.

(** ** The floor *)

Lemma freeFall_lands g f h b :
  let vy := Vector3.y (RigidBody3D.velocity b) + g in
  let y1 := Vector3.y (RigidBody3D.position b) + vy in
  let b' := freeFall g f h b in
  (Vector3.y (RigidBody3D.position b') >? h - 30) = false
  ∧ Vector3.x (RigidBody3D.position b')
    = Vector3.x (RigidBody3D.position b) + Vector3.x (RigidBody3D.velocity b)
  ∧ Vector3.z (RigidBody3D.position b')
    = Vector3.z (RigidBody3D.position b) + Vector3.z (RigidBody3D.velocity b)
  ∧ if y1 >? h - 30
    then Vector3.y (RigidBody3D.position b') = h - 30
         ∧ RigidBody3D.velocity b'
           = Vector3.mk (Vector3.x (RigidBody3D.velocity b) * f * 0.98) (vy * - 0.4 * 0.98)
                        (Vector3.z (RigidBody3D.velocity b) * f * 0.98)
    else Vector3.y (RigidBody3D.position b') = y1
         ∧ RigidBody3D.velocity b'
           = Vector3.mk (Vector3.x (RigidBody3D.velocity b) * 0.98) (vy * 0.98)
                        (Vector3.z (RigidBody3D.velocity b) * 0.98).
Proof.
  unfold freeFall. cbv zeta. cbn [vAdd Vector3.x Vector3.y Vector3.z].
  destruct (Vector3.y (RigidBody3D.position b) + (Vector3.y (RigidBody3D.velocity b) + g)
              >? h - 30) eqn:Hfloor; cbn; [|done].
  by rewrite ltb_irrefl.
Qed.

(** X7: a body in free fall (not held, snap timer not running, and no snap
    target that names an existing body) never ends a tick under the floor:
    its height is clamped to [height - 30], and on the tick it reaches the
    floor its vertical velocity is reversed and scaled by 0.4, its
    horizontal velocity scaled by the ground friction, before the drag of
    0.98; short of the floor, gravity is added and only drag applies. *)
Theorem free_body_lands (Math_sin : number -> number) (s : SoftBodySystem.t)
    (width height : number) (i : nat) (b : RigidBody3D.t) :
  SoftBodySystem.rigidBodies s !! i = Some b →
  RigidBody3D.isHeld b = false →
  (RigidBody3D.snapTimer b >? 0) = false →
  (∀ t, RigidBody3D.snapTarget b = Some t → t ≠ EmptyString →
        findBody t (SoftBodySystem.rigidBodies s) = None) →
  let s' := update Math_sin s width height in
  let v := RigidBody3D.velocity b in
  let vy := Vector3.y v + SoftBodySystem.gravity s in
  let y1 := Vector3.y (RigidBody3D.position b) + vy in
  ∃ b', SoftBodySystem.rigidBodies s' !! i = Some b'
    ∧ (Vector3.y (RigidBody3D.position b') >? height - 30) = false
    ∧ Vector3.x (RigidBody3D.position b') = Vector3.x (RigidBody3D.position b) + Vector3.x v
    ∧ Vector3.z (RigidBody3D.position b') = Vector3.z (RigidBody3D.position b) + Vector3.z v
    ∧ if y1 >? height - 30
      then Vector3.y (RigidBody3D.position b') = height - 30
           ∧ RigidBody3D.velocity b'
             = Vector3.mk (Vector3.x v * SoftBodySystem.groundFriction s * 0.98)
                          (vy * - 0.4 * 0.98)
                          (Vector3.z v * SoftBodySystem.groundFriction s * 0.98)
      else Vector3.y (RigidBody3D.position b') = y1
           ∧ RigidBody3D.velocity b' = Vector3.mk (Vector3.x v * 0.98) (vy * 0.98) (Vector3.z v * 0.98).
Proof.
  intros Hi Hheld Htimer Htarget s' v vy y1. subst s' v vy y1.
  rewrite update_rigidBodies.
  set (time := SoftBodySystem.time s + 0.05).
  rewrite (updateBodies_lookup _ _ _ _ _ _ _ b) by done.
  destruct (prelude_frame Math_sin time b) as (_ & Hpos & _ & Hvel & Hh & Ht & Hsnap).
  eexists. split; [done|].
  unfold bodyAfter. cbv zeta. rewrite Hh, Hheld, Ht, Htimer, Hsnap.
  set (b1 := decayGlow (animateDragon Math_sin time b)) in *.
  assert (Hfall : ∀ c, RigidBody3D.position c = RigidBody3D.position b →
            RigidBody3D.velocity c = RigidBody3D.velocity b →
            let b' := freeFall (SoftBodySystem.gravity s) (SoftBodySystem.groundFriction s) height c in
            (Vector3.y (RigidBody3D.position b') >? height - 30) = false
            ∧ Vector3.x (RigidBody3D.position b')
              = Vector3.x (RigidBody3D.position b) + Vector3.x (RigidBody3D.velocity b)
            ∧ Vector3.z (RigidBody3D.position b')
              = Vector3.z (RigidBody3D.position b) + Vector3.z (RigidBody3D.velocity b)
            ∧ if Vector3.y (RigidBody3D.position b)
                   + (Vector3.y (RigidBody3D.velocity b) + SoftBodySystem.gravity s) >? height - 30
              then Vector3.y (RigidBody3D.position b') = height - 30
                   ∧ RigidBody3D.velocity b'
                     = Vector3.mk (Vector3.x (RigidBody3D.velocity b) * SoftBodySystem.groundFriction s * 0.98)
                         ((Vector3.y (RigidBody3D.velocity b) + SoftBodySystem.gravity s) * - 0.4 * 0.98)
                         (Vector3.z (RigidBody3D.velocity b) * SoftBodySystem.groundFriction s * 0.98)
              else Vector3.y (RigidBody3D.position b')
                   = Vector3.y (RigidBody3D.position b)
                     + (Vector3.y (RigidBody3D.velocity b) + SoftBodySystem.gravity s)
                   ∧ RigidBody3D.velocity b'
                     = Vector3.mk (Vector3.x (RigidBody3D.velocity b) * 0.98)
                         ((Vector3.y (RigidBody3D.velocity b) + SoftBodySystem.gravity s) * 0.98)
                         (Vector3.z (RigidBody3D.velocity b) * 0.98)).
  { intros c Hcp Hcv.
    pose proof (freeFall_lands (SoftBodySystem.gravity s) (SoftBodySystem.groundFriction s) height c)
      as Hc.
    cbv zeta in Hc. by rewrite Hcp, Hcv in Hc. }
  destruct (RigidBody3D.snapTarget b) as [t|] eqn:Hsn; [|by apply Hfall].
  destruct (String.eqb t EmptyString) eqn:Hempty; [by apply Hfall|].
  apply String.eqb_neq in Hempty.
  rewrite (findBody_ids t _ (SoftBodySystem.rigidBodies s)).
  - rewrite (Htarget t eq_refl Hempty). by apply Hfall.
  - apply steps_ids.
Qed.

Lemma free_body_lands_witness :
  ∃ b', SoftBodySystem.rigidBodies (update sampleSin freeFallScene 800 30) !! 0%nat = Some b'
    ∧ (Vector3.y (RigidBody3D.position b') >? 30 - 30) = false
    ∧ Vector3.y (RigidBody3D.position b') = 30 - 30
    ∧ Vector3.y (RigidBody3D.velocity b') = 0.5 * - 0.4 * 0.98.
Proof.
  destruct (free_body_lands sampleSin freeFallScene 800 30 0 _ eq_refl eq_refl eq_refl)
    as (b' & Hb' & Hfloor & _ & _ & Hcase).
  { intros t Ht. discriminate Ht. }
  exists b'. do 2 (split; [done|]).
  change (Vector3.y (RigidBody3D.position b') = 30 - 30
          ∧ RigidBody3D.velocity b' = Vector3.mk (0 * 0.8 * 0.98) (0.5 * - 0.4 * 0.98) (0 * 0.8 * 0.98))
    in Hcase.
  destruct Hcase as [Hy Hv]. split; [done|]. by rewrite Hv.
Defined.

(** ** The box of the soft bodies *)

(** X8: integration leaves a free point inside the box of the canvas: not
    left of 10, not right of [width - 10], not under [height - 10] and not
    over -300, provided the box is not inverted (its right wall is not left
    of 10 and its floor not over -300).  A point stopped by the floor comes
    out on the floor, with, as its previous height, the floor plus its
    vertical speed scaled by the ground friction. *)
Theorem integratePoint_in_box (gravity drag groundFriction width height : number)
    (p : Point.t) :
  (width - 10 <? 10) = false →
  (height - 10 <? - 300) = false →
  let p' := integratePoint gravity drag groundFriction width height p in
  (Point.x p' <? 10) = false
  ∧ (Point.x p' >? width - 10) = false
  ∧ (Point.y p' >? height - 10) = false
  ∧ (Point.y p' <? - 300) = false
  ∧ ((Point.y p + ((Point.y p - Point.oldY p) * drag + gravity) >? height - 10) = true →
       Point.y p' = height - 10
       ∧ Point.oldY p' = height - 10 + (Point.y p - Point.oldY p) * drag * groundFriction).
Proof.
  intros Hwide Htall p'. subst p'. unfold integratePoint. cbv zeta.
  repeat first
    [ progress cbn [Point.x Point.y Point.oldX Point.oldY
                    Point.set_x Point.set_y Point.set_oldX Point.set_oldY]
    | progress rewrite ?ltb_irrefl, ?Hwide, ?Htall
    | match goal with
      | |- context [if ?c then _ else _] =>
          lazymatch c with
          | context [if _ then _ else _] => fail
          | _ => let H := fresh "Hc" in destruct c eqn:H
          end
      end ];
    repeat split; congruence.
Qed.

Lemma integratePoint_in_box_witness :
  let p' := integratePoint 0.5 0.95 0.8 800 600 (newPoint 100 595 false) in
  (Point.y p' >? 600 - 10) = false ∧ Point.y p' = 600 - 10 ∧ (Point.x p' <? 10) = false.
Proof.
  destruct (integratePoint_in_box 0.5 0.95 0.8 800 600 (newPoint 100 595 false) eq_refl eq_refl)
    as (Hx & _ & Hy & _ & Hfloor).
  split; [done|]. split; [|done]. by apply Hfloor.
Defined.

(** ** Crumple and fold are local *)

Section Locality.

Variable Math_random : nat -> number.
Variables (x y radius intensity vx vy : number).
Variables (r : ref) (p : Point.t).

Local Abbreviation crumpleFar :=
  (((Point.x p - x) * (Point.x p - x) + (Point.y p - y) * (Point.y p - y) <? radius * radius)
   = false).
Local Abbreviation foldFar := ((pointDist p x y <? radius) = false).

Lemma crumplePoints_spare pts store k :
  store !! r = Some p → r ∉ pts ∨ crumpleFar →
  (crumplePoints Math_random x y radius intensity pts store k).1 !! r = Some p.
Proof.
  revert store k. induction pts as [|r0 pts IH]; intros store k Hr Hfar; simpl; [done|].
  assert (Hrest : r ∉ pts ∨ crumpleFar).
  { destruct Hfar as [Hnot|Hfar]; [left|by right]. by apply not_elem_of_cons in Hnot as [_ ?]. }
  destruct (store !! r0) as [p0|] eqn:Hr0; [|by apply IH].
  destruct (decide (r0 = r)) as [->|Hne].
  - assert (p0 = p) as -> by congruence.
    destruct Hfar as [Hnot|Hfar]; [exfalso; apply Hnot; by left|].
    unfold crumplePoint. cbv zeta. rewrite Hfar. apply IH; [|done].
    apply list_lookup_insert_eq. by eapply lookup_lt_Some.
  - destruct (crumplePoint _ _ _ _ _ _ p0) as [p' k']. apply IH; [|done].
    by rewrite list_lookup_insert_ne.
Qed.

Lemma crumpleObjects_spare objs store k :
  store !! r = Some p → ¬ eligiblePoint objs r ∨ crumpleFar →
  (crumpleObjects Math_random x y radius intensity objs store k).1 !! r = Some p.
Proof.
  revert store k. induction objs as [|obj objs IH]; intros store k Hr Hfar; simpl; [done|].
  assert (Hrest : ¬ eligiblePoint objs r ∨ crumpleFar).
  { destruct Hfar as [Hnot|Hfar]; [left|by right].
    intros He. apply Hnot, eligiblePoint_cons. by right. }
  destruct (is_devil_horn (SoftBodyObject.type obj)) eqn:Hty; [by apply IH|].
  pose proof (crumplePoints_spare (SoftBodyObject.points obj) store k Hr) as Hpts.
  destruct (crumplePoints _ _ _ _ _ _ store k) as [store' k']. apply IH; [|done].
  apply Hpts. destruct Hfar as [Hnot|Hfar]; [left|by right].
  intros Hin. apply Hnot, eligiblePoint_cons. by left.
Qed.

Lemma foldPoints_spare pts store :
  store !! r = Some p → r ∉ pts ∨ foldFar →
  foldl (fun st r' => modifyPoint st r' (foldPoint x y radius vx vy)) store pts !! r = Some p.
Proof.
  revert store. induction pts as [|r0 pts IH]; intros store Hr Hfar; simpl; [done|].
  assert (Hrest : r ∉ pts ∨ foldFar).
  { destruct Hfar as [Hnot|Hfar]; [left|by right]. by apply not_elem_of_cons in Hnot as [_ ?]. }
  apply IH; [|done]. unfold modifyPoint.
  destruct (store !! r0) as [p0|] eqn:Hr0; [|done].
  destruct (decide (r0 = r)) as [->|Hne].
  - assert (p0 = p) as -> by congruence.
    destruct Hfar as [Hnot|Hfar]; [exfalso; apply Hnot; by left|].
    unfold foldPoint. cbv zeta. unfold pointDist in Hfar. cbv zeta in Hfar. rewrite Hfar.
    apply list_lookup_insert_eq. by eapply lookup_lt_Some.
  - by rewrite list_lookup_insert_ne.
Qed.

Lemma foldObjects_spare objs store :
  store !! r = Some p → ¬ eligiblePoint objs r ∨ foldFar →
  foldObjects x y radius vx vy objs store !! r = Some p.
Proof.
  revert store. induction objs as [|obj objs IH]; intros store Hr Hfar; simpl; [done|].
  assert (Hrest : ¬ eligiblePoint objs r ∨ foldFar).
  { destruct Hfar as [Hnot|Hfar]; [left|by right].
    intros He. apply Hnot, eligiblePoint_cons. by right. }
  destruct (is_devil_horn (SoftBodyObject.type obj)) eqn:Hty; [by apply IH|].
  apply IH; [|done]. apply foldPoints_spare; [done|].
  destruct Hfar as [Hnot|Hfar]; [left|by right].
  intros Hin. apply Hnot, eligiblePoint_cons. by left.
Qed.

End Locality.

(** X9: crumple and fold are local.  A point that no object other than a
    devil horn lists, or that is not strictly inside the radius of the
    gesture, comes out of [crumple] and of [fold] exactly as it went in,
    however often and through however many objects the loops reach it; the
    two calls test the radius differently, on the squared distance and on
    the distance. *)
Theorem manipulators_are_local (Math_random : nat -> number) (s : SoftBodySystem.t)
    (k : nat) (x y radius intensity : number) (velocity : number * number)
    (r : ref) (p : Point.t) :
  SoftBodySystem.pointStore s !! r = Some p →
  (¬ eligiblePoint (SoftBodySystem.objects s) r
   ∨ ((Point.x p - x) * (Point.x p - x) + (Point.y p - y) * (Point.y p - y) <? radius * radius)
     = false →
   SoftBodySystem.pointStore (crumple Math_random s k x y radius intensity).1 !! r = Some p)
  ∧ (¬ eligiblePoint (SoftBodySystem.objects s) r ∨ (pointDist p x y <? radius) = false →
     SoftBodySystem.pointStore (fold s x y radius velocity) !! r = Some p).
Proof.
  intros Hr. split; intros Hfar.
  - unfold crumple.
    pose proof (crumpleObjects_spare Math_random x y radius intensity r p
                  (SoftBodySystem.objects s) (SoftBodySystem.pointStore s) k Hr Hfar) as Hc.
    destruct (crumpleObjects _ _ _ _ _ _ _ _) as [store' k']. by destruct s.
  - unfold fold. destruct s; simpl in *. by apply foldObjects_spare.
Qed.

Lemma manipulators_are_local_witness :
  SoftBodySystem.pointStore (crumple sampleRandom plantScene 0 500 500 180 1.5).1 !! 1%nat
    = Some (newPoint 130 100 false)
  ∧ SoftBodySystem.pointStore (fold plantScene 500 500 180 (3, 4)) !! 1%nat
    = Some (newPoint 130 100 false).
Proof.
  destruct (manipulators_are_local sampleRandom plantScene 0 500 500 180 1.5 (3, 4) 1 _ eq_refl)
    as [Hc Hf].
  split; [apply Hc | apply Hf]; right; reflexivity.
Defined.

(** ** The two horns *)

Lemma findObjectFrom_Some id objs n k :
  findObjectFrom id objs n = Some k →
  ∃ o, objs !! (k - n)%nat = Some o ∧ SoftBodyObject.id o = id ∧ (n ≤ k)%nat.
Proof.
  revert n. induction objs as [|o objs IH]; intros n; simpl; [done|].
  destruct (String.eqb (SoftBodyObject.id o) id) eqn:Hid.
  - intros [= <-]. apply String.eqb_eq in Hid. exists o. by rewrite Nat.sub_diag.
  - intros Hk. destruct (IH _ Hk) as (o' & Ho' & Hid' & Hle). exists o'.
    replace (k - n)%nat with (S (k - S n)) by lia. split; [done|]. split; [done|lia].
Qed.

Lemma findObject_Some id objs k :
  findObject id objs = Some k → ∃ o, objs !! k = Some o ∧ SoftBodyObject.id o = id.
Proof.
  intros Hk. destruct (findObjectFrom_Some _ _ _ _ Hk) as (o & Ho & Hid & _).
  rewrite Nat.sub_0_r in Ho. by exists o.
Qed.

Lemma findObject_ids id objs objs' :
  SoftBodyObject.id <$> objs = SoftBodyObject.id <$> objs' →
  findObject id objs = findObject id objs'.
Proof.
  unfold findObject. generalize 0%nat. revert objs'.
  induction objs as [|o objs IH]; intros [|o' objs'] n Hids; try done.
  rewrite !fmap_cons in Hids. injection Hids as Hid Hids. simpl. rewrite Hid.
  case (String.eqb _ _); [done|]. by apply IH.
Qed.

Lemma findObjectFrom_app id objs more n :
  findObjectFrom id (objs ++ more) n
  = match findObjectFrom id objs n with
    | Some k => Some k
    | None => findObjectFrom id more (n + length objs)
    end.
Proof.
  revert n. induction objs as [|o objs IH]; intros n; simpl; [by rewrite Nat.add_0_r|].
  case (String.eqb _ _); [done|]. rewrite IH. by rewrite Nat.add_succ_comm.
Qed.

(** [ensureHorn] finds the horn or appends it, and appends nothing else. *)
Lemma ensureHorn_spec id side objs :
  let r := ensureHorn id side objs in
  findObject id r.1 = Some r.2
  ∧ r.1 = objs ++ match findObject id objs with Some _ => [] | None => [newHorn id side] end
  ∧ (∀ id', id' ≠ id → findObject id' r.1 = findObject id' objs).
Proof.
  unfold ensureHorn. destruct (findObject id objs) as [k|] eqn:Hfind; cbn [fst snd].
  - by rewrite app_nil_r.
  - split; [|split; [done|]].
    + unfold findObject in *. rewrite findObjectFrom_app, Hfind. simpl.
      by rewrite String.eqb_refl.
    + intros id' Hne. unfold findObject. rewrite findObjectFrom_app.
      destruct (findObjectFrom id' objs 0); [done|]. simpl.
      apply String.eqb_neq in Hne. rewrite String.eqb_sym in Hne. by rewrite Hne.
Qed.

Lemma modifyObject_length objs k f : length (modifyObject objs k f) = length objs.
Proof. unfold modifyObject. destruct (objs !! k); by rewrite ?length_insert. Qed.

Lemma modifyObject_lookup objs k f j :
  modifyObject objs k f !! j = if decide (j = k) then f <$> objs !! j else objs !! j.
Proof.
  unfold modifyObject. destruct (decide (j = k)) as [->|Hne].
  - destruct (objs !! k) as [o|] eqn:Hk; [|by rewrite Hk].
    rewrite list_lookup_insert_eq; [done|]. by eapply lookup_lt_Some.
  - destruct (objs !! k); [|done]. by rewrite list_lookup_insert_ne.
Qed.

Lemma modifyObject_ids objs k f :
  (∀ o, SoftBodyObject.id (f o) = SoftBodyObject.id o) →
  SoftBodyObject.id <$> modifyObject objs k f = SoftBodyObject.id <$> objs.
Proof.
  intros Hf. unfold modifyObject. destruct (objs !! k) as [o|] eqn:Hk; [|done].
  by eapply insert_same_image.
Qed.

(** [bindHorn] touches one object, and of it the points and the config. *)
Lemma bindHorn_objects store objs k at_ angle scale :
  let objs' := (bindHorn store objs k at_ angle scale).1.2 in
  SoftBodyObject.id <$> objs' = SoftBodyObject.id <$> objs
  ∧ ∀ j o, objs !! j = Some o →
      ∃ o', objs' !! j = Some o'
        ∧ SoftBodyObject.growth o' = SoftBodyObject.growth o
        ∧ (j ≠ k → o' = o).
Proof.
  unfold bindHorn. cbv zeta.
  set (objs1 := modifyObject objs k (λ o, SoftBodyObject.set_points o [length store])).
  assert (H1 : SoftBodyObject.id <$> objs1 = SoftBodyObject.id <$> objs)
    by (by apply modifyObject_ids).
  assert (H2 : ∀ j o, objs !! j = Some o →
             ∃ o', objs1 !! j = Some o'
               ∧ SoftBodyObject.growth o' = SoftBodyObject.growth o ∧ (j ≠ k → o' = o)).
  { intros j o Hj. unfold objs1. rewrite modifyObject_lookup, Hj.
    destruct (decide (j = k)); eexists; (split; [done|]); by split. }
  destruct (objs1 !! k ≫= SoftBodyObject.config) as [c|]; cbn [fst snd]; [|done].
  split; [by rewrite modifyObject_ids|].
  intros j o Hj. destruct (H2 j o Hj) as (o1 & Ho1 & Hg1 & Hsame1).
  rewrite modifyObject_lookup, Ho1.
  destruct (decide (j = k)); eexists; (split; [done|]); by split.
Qed.

(** The two horns after [updateHorns], and the objects it leaves alone. *)
Lemma updateHorns_horns (Math_hypot Math_atan2 : number -> number -> number)
    (s : SoftBodySystem.t) (faceLandmarks : list Vector3.t) (isGestureActive : bool)
    (canvasWidth canvasHeight : number) :
  let s' := updateHorns Math_hypot Math_atan2 s faceLandmarks isGestureActive
              canvasWidth canvasHeight in
  let missing id :=
    match findObject id (SoftBodySystem.objects s) with Some _ => 0%nat | None => 1%nat end in
  ∃ kl kr hl hr,
    findObject "devil-horn-left" (SoftBodySystem.objects s') = Some kl
    ∧ findObject "devil-horn-right" (SoftBodySystem.objects s') = Some kr
    ∧ SoftBodySystem.objects s' !! kl = Some hl
    ∧ SoftBodySystem.objects s' !! kr = Some hr
    ∧ SoftBodyObject.growth hl = Some (if isGestureActive then 1 else 0)
    ∧ SoftBodyObject.growth hr = Some (if isGestureActive then 1 else 0)
    ∧ length (SoftBodySystem.objects s')
      = (length (SoftBodySystem.objects s)
         + missing "devil-horn-left"%string + missing "devil-horn-right"%string)%nat
    ∧ ∀ k o, SoftBodySystem.objects s !! k = Some o → k ≠ kl → k ≠ kr →
        SoftBodySystem.objects s' !! k = Some o.
Proof.
  intros s' missing. subst s' missing. unfold updateHorns.
  pose proof (ensureHorn_spec "devil-horn-left" "left" (SoftBodySystem.objects s)) as Hleft.
  destruct (ensureHorn "devil-horn-left" "left" (SoftBodySystem.objects s)) as [objs1 kl].
  pose proof (ensureHorn_spec "devil-horn-right" "right" objs1) as Hright.
  destruct (ensureHorn "devil-horn-right" "right" objs1) as [objs2 kr].
  cbv zeta in Hleft, Hright. cbn [fst snd] in Hleft, Hright.
  destruct Hleft as (Hkl & Hobjs1 & Hother1), Hright as (Hkr & Hobjs2 & Hother2).
  assert (Hkl2 : findObject "devil-horn-left" objs2 = Some kl)
    by (by rewrite Hother2).
  rewrite <- (Hother1 "devil-horn-right"%string) by done.
  destruct (findObject_Some _ _ _ Hkl2) as (ol & Hol & Hidl).
  destruct (findObject_Some _ _ _ Hkr) as (or & Hor & Hidr).
  assert (Hne : kl ≠ kr) by (intros ->; congruence).
  (* the list once the growth of both horns is set *)
  set (g := if isGestureActive then 1 else 0).
  set (objs3 := modifyObject
                  (modifyObject objs2 kl (λ o, SoftBodyObject.set_growth o (Some g)))
                  kr (λ o, SoftBodyObject.set_growth o (Some g))).
  assert (Hids3 : SoftBodyObject.id <$> objs3 = SoftBodyObject.id <$> objs2).
  { unfold objs3. by rewrite !modifyObject_ids. }
  assert (Hlook3 : ∀ j, objs3 !! j
            = if decide (j = kl ∨ j = kr)
              then (λ o, SoftBodyObject.set_growth o (Some g)) <$> objs2 !! j
              else objs2 !! j).
  { intros j. unfold objs3. rewrite !modifyObject_lookup.
    repeat case_decide; try done; try (exfalso; tauto). congruence. }
  assert (Hlen2 : length objs2
            = (length (SoftBodySystem.objects s)
               + match findObject "devil-horn-left" (SoftBodySystem.objects s) with
                 | Some _ => 0 | None => 1 end
               + match findObject "devil-horn-right" objs1 with
                 | Some _ => 0 | None => 1 end)%nat).
  { apply (f_equal length) in Hobjs1, Hobjs2. rewrite length_app in Hobjs1, Hobjs2.
    rewrite Hobjs2, Hobjs1.
    clear. by destruct (findObject "devil-horn-left" (SoftBodySystem.objects s)),
      (findObject "devil-horn-right" objs1). }
  assert (Hold2 : ∀ k o, SoftBodySystem.objects s !! k = Some o → objs2 !! k = Some o).
  { intros k o Hk. rewrite Hobjs2. apply lookup_app_l_Some.
    rewrite Hobjs1. by apply lookup_app_l_Some. }
  (* what remains to show of a final list [objs'] *)
  assert (Hgoal : ∀ objs',
            SoftBodyObject.id <$> objs' = SoftBodyObject.id <$> objs3 →
            (∀ j o, objs3 !! j = Some o →
               ∃ o', objs' !! j = Some o'
                 ∧ SoftBodyObject.growth o' = SoftBodyObject.growth o
                 ∧ (j ≠ kl → j ≠ kr → o' = o)) →
            ∃ kl0 kr0 hl hr,
              findObject "devil-horn-left" objs' = Some kl0
              ∧ findObject "devil-horn-right" objs' = Some kr0
              ∧ objs' !! kl0 = Some hl ∧ objs' !! kr0 = Some hr
              ∧ SoftBodyObject.growth hl = Some g ∧ SoftBodyObject.growth hr = Some g
              ∧ length objs'
                = (length (SoftBodySystem.objects s)
                   + match findObject "devil-horn-left" (SoftBodySystem.objects s) with
                     | Some _ => 0 | None => 1 end
                   + match findObject "devil-horn-right" objs1 with
                     | Some _ => 0 | None => 1 end)%nat
              ∧ ∀ k o, SoftBodySystem.objects s !! k = Some o → k ≠ kl0 → k ≠ kr0 →
                  objs' !! k = Some o).
  { intros objs' Hids Hlook.
    assert (Hl3 : objs3 !! kl = Some (SoftBodyObject.set_growth ol (Some g))).
    { rewrite Hlook3, Hol. destruct (decide _) as [|Hno]; [done|]. exfalso. apply Hno. auto. }
    assert (Hr3 : objs3 !! kr = Some (SoftBodyObject.set_growth or (Some g))).
    { rewrite Hlook3, Hor. destruct (decide _) as [|Hno]; [done|]. exfalso. apply Hno. auto. }
    destruct (Hlook _ _ Hl3) as (hl & Hhl & Hgl & _).
    destruct (Hlook _ _ Hr3) as (hr & Hhr & Hgr & _).
    exists kl, kr, hl, hr.
    rewrite !(findObject_ids _ objs' objs2) by (by rewrite Hids, Hids3).
    do 6 (split; [done|]).
    split.
    { rewrite <- Hlen2. rewrite <- (length_fmap SoftBodyObject.id objs'), Hids, Hids3.
      by rewrite length_fmap. }
    intros k o Hk Hkl' Hkr'.
    assert (H3 : objs3 !! k = Some o).
    { rewrite Hlook3, (Hold2 _ _ Hk). destruct (decide _) as [[?|?]|]; done. }
    destruct (Hlook _ _ H3) as (o' & Ho' & _ & Hsame). by rewrite Ho', Hsame. }
  assert (Hrefl : ∀ j o, objs3 !! j = Some o →
            ∃ o', objs3 !! j = Some o'
              ∧ SoftBodyObject.growth o' = SoftBodyObject.growth o
              ∧ (j ≠ kl → j ≠ kr → o' = o)) by (intros j o Hj; by exists o).
  destruct isGestureActive; cbn [negb].
  - destruct (faceLandmarks !! 105%nat) as [lm105|];
      [|destruct s; by apply Hgoal].
    destruct (faceLandmarks !! 334%nat) as [lm334|];
      [|destruct s; by apply Hgoal].
    cbv zeta. fold g. fold objs3.
    match goal with
    | |- context [bindHorn ?st ?o ?k ?a ?an ?sc] =>
        pose proof (bindHorn_objects st o k a an sc) as Hb1;
        destruct (bindHorn st o k a an sc) as [[store1 objs4] ok]
    end.
    cbv zeta in Hb1. cbn [fst snd] in Hb1. destruct Hb1 as [Hids4 Hlook4].
    destruct ok.
    + match goal with
      | |- context [bindHorn ?st ?o ?k ?a ?an ?sc] =>
          pose proof (bindHorn_objects st o k a an sc) as Hb2;
          destruct (bindHorn st o k a an sc) as [[store2 objs5] ok']
      end.
      cbv zeta in Hb2. cbn [fst snd] in Hb2. destruct Hb2 as [Hids5 Hlook5].
      destruct s; cbn [SoftBodySystem.objects SoftBodySystem.set_objects
                       SoftBodySystem.set_pointStore] in *.
      apply Hgoal; [by rewrite Hids5|].
      intros j o Hj. destruct (Hlook4 _ _ Hj) as (o4 & Ho4 & Hg4 & Hs4).
      destruct (Hlook5 _ _ Ho4) as (o5 & Ho5 & Hg5 & Hs5).
      exists o5. split; [done|]. split; [by rewrite Hg5|].
      intros Hjl Hjr. by rewrite Hs5, Hs4.
    + destruct s; cbn [SoftBodySystem.objects SoftBodySystem.set_objects
                       SoftBodySystem.set_pointStore] in *.
      apply Hgoal; [done|].
      intros j o Hj. destruct (Hlook4 _ _ Hj) as (o4 & Ho4 & Hg4 & Hs4).
      exists o4. split; [done|]. split; [done|]. intros Hjl _. by apply Hs4.
  - fold g. fold objs3. destruct s; by apply Hgoal.
Qed.

(** ** Generated meshes *)

Lemma length_flat_map_const {A B} (f : A → list B) (l : list A) (n : nat) :
  (∀ a, length (f a) = n) → length (flat_map f l) = (length l * n)%nat.
Proof.
  intros Hf. induction l as [|a l IH]; simpl; [done|].
  by rewrite length_app, Hf, IH.
Qed.

Lemma generateEllipsoid_closed (Math_sin Math_cos : number -> number)
    (rx ry rz : number) (wSeg hSeg : nat) (color : string) :
  let mesh := generateEllipsoid Math_sin Math_cos rx ry rz wSeg hSeg color in
  length mesh.1 = ((hSeg + 1) * (wSeg + 1))%nat
  ∧ length mesh.2 = (2 * hSeg * wSeg)%nat
  ∧ meshClosed mesh.1 mesh.2 = true.
Proof.
  intros mesh.
  assert (Hv : length mesh.1 = ((hSeg + 1) * (wSeg + 1))%nat).
  { unfold mesh, generateEllipsoid. cbn [fst].
    rewrite (length_flat_map_const _ _ (S wSeg)) by (intros i; by rewrite length_map, length_seq).
    rewrite length_seq. lia. }
  split; [done|]. split.
  - unfold mesh, generateEllipsoid. cbn [snd].
    rewrite (length_flat_map_const _ _ (2 * wSeg)%nat).
    + rewrite length_seq. lia.
    + intros i. rewrite (length_flat_map_const _ _ 2%nat) by done. rewrite length_seq. lia.
  - unfold meshClosed. rewrite forallb_forall. intros f Hf. rewrite Hv.
    unfold mesh, generateEllipsoid in Hf. cbn [snd] in Hf.
    apply in_flat_map in Hf as (i & Hi & Hf). apply in_flat_map in Hf as (j & Hj & Hf).
    apply in_seq in Hi, Hj.
    assert (Hlt : (i * (wSeg + 1) + j + (wSeg + 1) + 1 < (hSeg + 1) * (wSeg + 1))%nat) by nia.
    destruct Hf as [<-|[<-|[]]]; cbn [Face.indices forallb length Nat.leb andb];
      repeat (apply andb_true_intro; split); try done; apply Nat.ltb_lt; lia.
Qed.

Lemma generateCone_closed (Math_sin Math_cos : number -> number)
    (radius height : number) (seg : nat) (color : string) :
  let mesh := generateCone Math_sin Math_cos radius height seg color in
  length mesh.1 = (seg + 2)%nat
  ∧ length mesh.2 = seg
  ∧ meshClosed mesh.1 mesh.2 = true.
Proof.
  intros mesh.
  assert (Hv : length mesh.1 = (seg + 2)%nat).
  { unfold mesh, generateCone. cbn [fst]. rewrite length_app, length_map, length_seq.
    simpl. lia. }
  split; [done|]. split.
  - unfold mesh, generateCone. cbn [snd]. by rewrite length_map, length_seq.
  - unfold meshClosed. rewrite forallb_forall. intros f Hf. rewrite Hv.
    unfold mesh, generateCone in Hf. cbn [snd] in Hf.
    apply in_map_iff in Hf as (i & <- & Hi). apply in_seq in Hi.
    assert (Hmod : ((i + 1) mod seg < seg)%nat) by (apply Nat.mod_upper_bound; lia).
    cbn [Face.indices forallb length Nat.leb andb].
    repeat (apply andb_true_intro; split); try done; apply Nat.ltb_lt; lia.
Qed.

(** X11: the two mesh generators return closed meshes for every number of
    segments: the ellipsoid has (hSeg + 1)(wSeg + 1) vertices and 2 hSeg wSeg
    triangles, the cone seg + 2 vertices and seg triangles, and no face of
    either names a vertex that is not there. *)
Theorem generated_meshes_closed (Math_sin Math_cos : number -> number)
    (rx ry rz radius height : number) (wSeg hSeg seg : nat) (color : string) :
  let ellipsoid := generateEllipsoid Math_sin Math_cos rx ry rz wSeg hSeg color in
  let cone := generateCone Math_sin Math_cos radius height seg color in
  length ellipsoid.1 = ((hSeg + 1) * (wSeg + 1))%nat
  ∧ length ellipsoid.2 = (2 * hSeg * wSeg)%nat
  ∧ meshClosed ellipsoid.1 ellipsoid.2 = true
  ∧ length cone.1 = (seg + 2)%nat
  ∧ length cone.2 = seg
  ∧ meshClosed cone.1 cone.2 = true.
Proof.
  intros ellipsoid cone.
  destruct (generateEllipsoid_closed Math_sin Math_cos rx ry rz wSeg hSeg color)
    as (He1 & He2 & He3).
  destruct (generateCone_closed Math_sin Math_cos radius height seg color)
    as (Hc1 & Hc2 & Hc3).
  by repeat split.
Qed.

(** ** No call leaves a reference without its point *)

Lemma objValid_mono n m obj : (n ≤ m)%nat → objValid n obj → objValid m obj.
Proof.
  intros Hle [Hp Hs]. split.
  - eapply Forall_impl; [done|]. intros r Hr. simpl in Hr. lia.
  - eapply Forall_impl; [done|]. intros st [H0 H1]. lia.
Qed.

Lemma objsValid_mono n m objs :
  (n ≤ m)%nat → Forall (objValid n) objs → Forall (objValid m) objs.
Proof. intros Hle Hall. eapply Forall_impl; [done|]. intros obj. by apply objValid_mono. Qed.

Lemma shape_length {A B} (f : A → B) (l l' : list A) : f <$> l' = f <$> l → length l' = length l.
Proof. intros H. apply (f_equal length) in H. by rewrite !length_fmap in H. Qed.

Lemma shape_drawable bodies bodies' :
  bodyShape <$> bodies' = bodyShape <$> bodies →
  Forall (λ b, meshClosed (RigidBody3D.vertices b) (RigidBody3D.faces b) = true) bodies →
  Forall (λ b, meshClosed (RigidBody3D.vertices b) (RigidBody3D.faces b) = true) bodies'.
Proof.
  intros Hshape Hall. apply Forall_lookup. intros i b' Hi.
  assert (Hs : (bodyShape <$> bodies) !! i = Some (bodyShape b'))
    by (by rewrite <- Hshape, list_lookup_fmap, Hi).
  apply list_lookup_fmap_Some in Hs as (b & Heq & Hb).
  pose proof (proj1 (Forall_lookup _ _) Hall i b Hb) as Hclosed. simpl in Hclosed.
  unfold bodyShape in Heq. injection Heq as _ _ _ _ Hv Hf _. by rewrite Hv, Hf.
Qed.

Lemma Forall_sublist {A} (P : A → Prop) (l' l : list A) :
  l' `sublist_of` l → Forall P l → Forall P l'.
Proof.
  induction 1 as [|a l1 l2 Hsub IH|a l1 l2 Hsub IH]; intros Hall; [done| |].
  - apply Forall_cons in Hall as [Ha Hall]. constructor; [done|by apply IH].
  - apply Forall_cons in Hall as [_ Hall]. by apply IH.
Qed.

(** A tick keeps the references: the store keeps its size, the objects
    their points, and sticks only go. *)
Lemma update_refsValid Math_sin s width height :
  refsValid s → refsValid (update Math_sin s width height).
Proof.
  intros [Hobjs Hsprings].
  destruct (update_keeps Math_sin s width height) as (_ & Hsp & _ & _ & Hstore & Hsame & Hshrink).
  cbv zeta in *. apply shape_length in Hstore.
  split; rewrite Hstore; [|by rewrite Hsp].
  apply Forall_lookup. intros i obj' Hi.
  assert (Hs : ((λ o, SoftBodyObject.set_sticks o []) <$> SoftBodySystem.objects s) !! i
               = Some (SoftBodyObject.set_sticks obj' []))
    by (by rewrite <- Hsame, list_lookup_fmap, Hi).
  apply list_lookup_fmap_Some in Hs as (obj & Heq & Hobj).
  destruct (Hshrink i obj Hobj) as (obj'' & Hi' & Hsub).
  assert (obj'' = obj') as -> by congruence.
  destruct (proj1 (Forall_lookup _ _) Hobjs i obj Hobj) as [Hp Hst].
  split.
  - replace (SoftBodyObject.points obj') with (SoftBodyObject.points obj); [done|].
    by apply (f_equal SoftBodyObject.points) in Heq.
  - by eapply Forall_sublist.
Qed.

Lemma JsMap_set_Forall {V} (P : nat * V → Prop) k v m :
  P (k, v) → Forall P m → Forall P (JsMap.set k v m).
Proof.
  intros Hv. induction m as [|[k' v'] m IH]; intros Hm; simpl; [by constructor|].
  apply Forall_cons in Hm as [Hkv Hm].
  case (Nat.eqb k' k); constructor; auto.
Qed.

Lemma JsMap_delete_Forall {V} (P : nat * V → Prop) k m :
  Forall P m → Forall P (JsMap.delete k m).
Proof.
  induction m as [|[k' v'] m IH]; intros Hm; simpl; [done|].
  apply Forall_cons in Hm as [Hkv Hm].
  case (Nat.eqb k' k); [done|]. constructor; auto.
Qed.

Lemma JsMap_get_Forall {V} (Q : V → Prop) k (m : list (nat * V)) v :
  Forall (λ kv, Q kv.2) m → JsMap.get k m = Some v → Q v.
Proof.
  induction m as [|[k' v'] m IH]; intros Hm; simpl; [done|].
  apply Forall_cons in Hm as [Hkv Hm].
  case (Nat.eqb k' k); [by intros [= <-] | by apply IH].
Qed.

(** A pinch attaches to a point of the store, or to none. *)
Lemma handleInteraction_refsValid s handId x y isPinching :
  refsValid s → refsValid (handleInteraction s handId x y isPinching).
Proof.
  intros [Hobjs Hsprings]. unfold handleInteraction, refsValid.
  destruct isPinching;
    [|destruct s; simpl in *; split; [done|by apply JsMap_delete_Forall]].
  set (springs1 := if negb (JsMap.has handId (SoftBodySystem.mouseSprings s)) then _ else _).
  assert (H1 : Forall (λ kv, (Spring.point kv.2 < length (SoftBodySystem.pointStore s))%nat)
                 springs1).
  { unfold springs1. destruct (negb _); [|done].
    destruct (scanObjects _ _ _ _ _ _) as [d c'] eqn:Hscan. cbn [snd].
    destruct c' as [r|]; [|done].
    apply JsMap_set_Forall; [|done]. cbn [snd Spring.point].
    destruct (scanObjects_spec _ _ _ _ _ _ _ _ Hscan)
      as [(_ & [=] & _) | (r' & p & [= <-] & _ & Hr & _)].
    by eapply lookup_lt_Some. }
  destruct (JsMap.get handId springs1) as [spring|] eqn:Hget;
    destruct s; simpl in *; (split; [done|]); [|done].
  apply JsMap_set_Forall; [|done]. cbn [snd Spring.point].
  by apply (JsMap_get_Forall (λ sp, (Spring.point sp < _)%nat) handId springs1).
Qed.

Lemma modifyObject_Forall (P : SoftBodyObject.t → Prop) objs k f :
  (∀ o, P o → P (f o)) → Forall P objs → Forall P (modifyObject objs k f).
Proof.
  intros Hf Hall. unfold modifyObject. destruct (objs !! k) as [o|] eqn:Hk; [|done].
  apply Forall_insert; [done|]. apply Hf. by eapply (proj1 (Forall_lookup _ _)).
Qed.

Lemma bindHorn_valid store objs k at_ angle scale :
  Forall (objValid (length store)) objs →
  let r := bindHorn store objs k at_ angle scale in
  length r.1.1 = S (length store) ∧ Forall (objValid (length r.1.1)) r.1.2.
Proof.
  intros Hall. unfold bindHorn. cbv zeta.
  set (objs1 := modifyObject objs k (λ o, SoftBodyObject.set_points o [length store])).
  assert (H1 : Forall (objValid (S (length store))) objs1).
  { apply modifyObject_Forall.
    - intros o [_ Hs]. split; [|done]. cbn. repeat constructor.
    - eapply objsValid_mono; [|done]. lia. }
  destruct (objs1 !! k ≫= SoftBodyObject.config) as [c|]; cbn [fst snd];
    rewrite length_app, Nat.add_1_r; (split; [done|]); [|done].
  by apply modifyObject_Forall.
Qed.

Lemma ensureHorn_valid id side objs n :
  Forall (objValid n) objs → Forall (objValid n) (ensureHorn id side objs).1.
Proof.
  intros Hall. unfold ensureHorn. destruct (findObject id objs); cbn [fst]; [done|].
  apply Forall_app. split; [done|]. repeat constructor.
Qed.

Lemma updateHorns_refsValid Math_hypot Math_atan2 s faceLandmarks isGestureActive w h :
  refsValid s →
  refsValid (updateHorns Math_hypot Math_atan2 s faceLandmarks isGestureActive w h).
Proof.
  intros [Hobjs Hsprings]. unfold updateHorns.
  pose proof (ensureHorn_valid "devil-horn-left" "left" _ _ Hobjs) as H1.
  destruct (ensureHorn "devil-horn-left" "left" (SoftBodySystem.objects s)) as [objs1 kl].
  cbn [fst] in H1.
  pose proof (ensureHorn_valid "devil-horn-right" "right" _ _ H1) as H2.
  destruct (ensureHorn "devil-horn-right" "right" objs1) as [objs2 kr].
  cbn [fst] in H2.
  assert (H3 : ∀ g, Forall (objValid (length (SoftBodySystem.pointStore s)))
                      (modifyObject
                         (modifyObject objs2 kl (λ o, SoftBodyObject.set_growth o (Some g)))
                         kr (λ o, SoftBodyObject.set_growth o (Some g)))).
  { intros g. apply modifyObject_Forall; [done|]. by apply modifyObject_Forall. }
  unfold refsValid.
  destruct isGestureActive; cbn [negb];
    [|destruct s; simpl in *; split; [apply H3 | done]].
  destruct (faceLandmarks !! 105%nat) as [lm105|];
    [|destruct s; simpl in *; split; [apply H3 | done]].
  destruct (faceLandmarks !! 334%nat) as [lm334|];
    [|destruct s; simpl in *; split; [apply H3 | done]].
  cbv zeta.
  match goal with
  | |- context [bindHorn ?st ?o ?k ?a ?an ?sc] =>
      pose proof (bindHorn_valid st o k a an sc (H3 _)) as Hb1;
      destruct (bindHorn st o k a an sc) as [[store1 objs4] ok]
  end.
  cbv zeta in Hb1. cbn [fst snd] in Hb1. destruct Hb1 as [Hlen1 Hvalid1].
  destruct ok.
  - match goal with
    | |- context [bindHorn ?st ?o ?k ?a ?an ?sc] =>
        pose proof (bindHorn_valid st o k a an sc Hvalid1) as Hb2;
        destruct (bindHorn st o k a an sc) as [[store2 objs5] ok']
    end.
    cbv zeta in Hb2. cbn [fst snd] in Hb2. destruct Hb2 as [Hlen2 Hvalid2].
    destruct s; simpl in *. split; [done|].
    eapply Forall_impl; [done|]. intros kv Hkv. simpl in Hkv. lia.
  - destruct s; simpl in *. split; [done|].
    eapply Forall_impl; [done|]. intros kv Hkv. simpl in Hkv. lia.
Qed.

Section CallsKeepReferences.

Variables (Math_sin Math_cos : number -> number) (Math_hypot Math_atan2 : number -> number -> number).
Variable Math_random : nat -> number.

Lemma runOp_refsValid st op :
  refsValid st.1 → refsValid (runOp Math_sin Math_cos Math_hypot Math_atan2 Math_random st op).1.
Proof.
  destruct st as [s k]. destruct op; cbn [runOp fst snd]; intros Hvalid.
  - by apply update_refsValid.
  - destruct Hvalid as [Hobjs Hsprings]. unfold handleInteraction3D.
    destruct isGrabbing;
      [destruct (JsMap.get _ _);
         [destruct (dragHeld _ _ _ _ _ _ _ _ _ _) | destruct (tryGrab _ _ _ _ _ _ _)]
      | destruct (release _ _ _)]; by destruct s.
  - by apply handleInteraction_refsValid.
  - destruct Hvalid as [Hobjs Hsprings]. unfold crumple.
    pose proof (crumpleObjects_shape Math_random x y radius intensity
                  (SoftBodySystem.objects s) (SoftBodySystem.pointStore s) k) as Hc.
    destruct (crumpleObjects _ _ _ _ _ _ _ _) as [store' k']. apply shape_length in Hc.
    destruct s; unfold refsValid; simpl in *. by rewrite Hc.
  - destruct Hvalid as [Hobjs Hsprings]. unfold fold.
    pose proof (foldObjects_shape x y radius velocity.1 velocity.2
                  (SoftBodySystem.objects s) (SoftBodySystem.pointStore s)) as Hf.
    apply shape_length in Hf. destruct s; unfold refsValid; simpl in *. by rewrite Hf.
  - by apply updateHorns_refsValid.
Qed.

Lemma runOp_drawable st op :
  bodiesDrawable st.1 →
  bodiesDrawable (runOp Math_sin Math_cos Math_hypot Math_atan2 Math_random st op).1.
Proof.
  intros Hd. eapply shape_drawable; [|done].
  apply (runOp_shapes Math_sin Math_cos Math_hypot Math_atan2 Math_random st op).
Qed.

End CallsKeepReferences.

(** ** What the spawners build *)

(** Appending points and one object that refers to the store so extended. *)
Lemma push_object_refsValid s points obj :
  refsValid s →
  objValid (length (SoftBodySystem.pointStore s) + length points) obj →
  refsValid (SoftBodySystem.set_objects
               (SoftBodySystem.set_pointStore s (SoftBodySystem.pointStore s ++ points))
               (SoftBodySystem.objects s ++ [obj])).
Proof.
  intros [Hobjs Hsprings] Hobj. unfold refsValid. destruct s; simpl in *.
  rewrite length_app. split.
  - apply Forall_app. split; [|constructor; [done|constructor]].
    eapply objsValid_mono; [|done]. lia.
  - eapply Forall_impl; [done|]. intros kv Hkv. simpl in Hkv. lia.
Qed.

Lemma spawnCar_refsValid Math_hypot s id cx cy :
  refsValid s → refsValid (spawnCar Math_hypot s id cx cy).
Proof.
  intros Hvalid. unfold spawnCar. cbv zeta. apply push_object_refsValid; [done|].
  split; cbn; repeat constructor; cbn; lia.
Qed.

Lemma sticksIn_mono n m sticks :
  (n ≤ m)%nat → Forall (stickIn n) sticks → Forall (stickIn m) sticks.
Proof.
  intros Hle Hall. eapply Forall_impl; [done|]. intros st [H0 H1]. split; lia.
Qed.

Lemma local_object_valid base n id ty sticks color :
  Forall (stickIn (base + n)) sticks →
  objValid (base + n)
    (SoftBodyObject.mk id ty (map (Nat.add base) (seq 0 n)) sticks color None None None).
Proof.
  intros Hsticks. split; [|done]. cbn.
  apply Forall_forall. intros r Hr. apply list_elem_of_In, in_map_iff in Hr as (i & <- & Hi).
  apply in_seq in Hi. lia.
Qed.

Lemma arrayGet_Some {A} (a : list A) (i : Z) :
  (0 ≤ i < Z.of_nat (length a))%Z → ∃ x, arrayGet a i = Some x.
Proof.
  intros Hi. unfold arrayGet. destruct (Z.ltb_spec i 0); [lia|].
  apply lookup_lt_is_Some. lia.
Qed.

Section PlantBuild.

Variable Math_sin : number -> number.
Variable Math_cos : number -> number.
Variable Math_hypot : number -> number -> number.
Variable Math_random : nat -> number.
Variables (base : nat) (cx cy : number).

(** The stem loop keeps [prev] and every stick end inside the local array. *)
Lemma plantSegment_inv st i :
  (st.1.2.1 < length st.1.1.1)%nat →
  Forall (stickIn (base + length st.1.1.1)) st.1.1.2 →
  let st' := plantSegment Math_hypot Math_random base cx cy st i in
  (st'.1.2.1 < length st'.1.1.1)%nat
  ∧ Forall (stickIn (base + length st'.1.1.1)) st'.1.1.2.
Proof.
  destruct st as [[[points sticks] prev] k]. cbn [fst snd]. intros Hprev Hsticks.
  unfold plantSegment. cbv zeta.
  destruct ((1 <? i)%nat && (i <? 7)%nat); cbn [fst snd];
    rewrite ?length_app; cbn [length]; (split; [lia|]);
    rewrite ?Forall_app; repeat split;
    try (eapply sticksIn_mono; [|done]; lia);
    repeat constructor; cbn; rewrite ?length_app; cbn; lia.
Qed.

Lemma plantStem_inv is_ st :
  (st.1.2.1 < length st.1.1.1)%nat →
  Forall (stickIn (base + length st.1.1.1)) st.1.1.2 →
  let st' := foldl (plantSegment Math_hypot Math_random base cx cy) st is_ in
  (st'.1.2.1 < length st'.1.1.1)%nat
  ∧ Forall (stickIn (base + length st'.1.1.1)) st'.1.1.2.
Proof.
  revert st. induction is_ as [|i is_ IH]; intros st Hprev Hsticks; simpl; [done|].
  destruct (plantSegment_inv st i Hprev Hsticks) as [Hprev' Hsticks']. by apply IH.
Qed.

(** The petal loop never reads a missing petal, and adds one point a turn. *)
Lemma plantPetals_inv flowerCenter is_ points sticks :
  (flowerCenter.1 < length points)%nat →
  Forall (stickIn (base + length points)) sticks →
  ∃ points' sticks',
    foldl (plantPetal Math_sin Math_cos Math_hypot base flowerCenter) (Some (points, sticks)) is_
    = Some (points', sticks')
    ∧ length points' = (length points + length is_)%nat
    ∧ Forall (stickIn (base + length points')) sticks'.
Proof.
  revert points sticks. induction is_ as [|i is_ IH]; intros points sticks Hfc Hsticks.
  { exists points, sticks. by rewrite Nat.add_0_r. }
  cbn [foldl]. unfold plantPetal at 2. cbn [mbind option_bind]. cbv zeta.
  assert (Hlen : length (points ++ [Point.mk
             (Point.x flowerCenter.2 + Math_cos (ofNat i / 6 * Math_PI * 2) * 25)
             (Point.y flowerCenter.2 + Math_sin (ofNat i / 6 * Math_PI * 2) * 25)
             (Point.x flowerCenter.2 + Math_cos (ofNat i / 6 * Math_PI * 2) * 25)
             (Point.y flowerCenter.2 + Math_sin (ofNat i / 6 * Math_PI * 2) * 25)
             false 0 0 None (Some 8) (Some "#f472b6"%string)]) = S (length points))
    by (rewrite length_app; simpl; lia).
  set (points1 := points ++ _) in *.
  assert (Hs1 : Forall (stickIn (base + length points1))
                  (sticks ++ [Stick.mk (base + flowerCenter.1) (base + length points) 25 None
                                (Some "#ec4899"%string) (Some 2)])).
  { rewrite Hlen. apply Forall_app. split.
    - eapply sticksIn_mono; [|done]. lia.
    - repeat constructor; cbn; lia. }
  destruct (0 <? i)%nat.
  - destruct (arrayGet_Some points1 (Z.of_nat (length points1) - 2)) as [prevPetal Hget];
      [lia|].
    rewrite Hget. cbn [mbind option_bind].
    match goal with
    | |- context [foldl _ (Some (?p, ?s)) is_] =>
        destruct (IH p s) as (points' & sticks' & Hfold & Hlen' & Hsticks')
    end.
    + lia.
    + apply Forall_app. split; [done|]. repeat constructor; cbn; lia.
    + exists points', sticks'. split; [done|]. split; [|done]. cbn [length]. lia.
  - destruct (IH points1 _ ltac:(lia) Hs1) as (points' & sticks' & Hfold & Hlen' & Hsticks').
    exists points', sticks'. split; [done|]. split; [|done]. cbn [length]. lia.
Qed.

(** Each turn of the stem loop draws one random number. *)
Lemma plantStem_count is_ st :
  (foldl (plantSegment Math_hypot Math_random base cx cy) st is_).2 = (st.2 + length is_)%nat.
Proof.
  revert st. induction is_ as [|i is_ IH]; intros st; simpl; [lia|].
  rewrite IH. destruct st as [[[points sticks] prev] k]. unfold plantSegment. cbv zeta.
  destruct (_ && _); cbn [snd]; lia.
Qed.

End PlantBuild.

(** [spawnPlant] never throws, draws seven random numbers, and the plant it
    appends refers to its own points only. *)
Lemma spawnPlant_refsValid Math_sin Math_cos Math_hypot Math_random s k id cx cy :
  refsValid s →
  ∃ s', spawnPlant Math_sin Math_cos Math_hypot Math_random s k id cx cy = Some (s', (k + 7)%nat)
    ∧ refsValid s'
    ∧ SoftBodySystem.rigidBodies s' = SoftBodySystem.rigidBodies s.
Proof.
  intros Hvalid. unfold spawnPlant. cbv zeta.
  set (base := length (SoftBodySystem.pointStore s)).
  pose proof (plantStem_inv Math_hypot Math_random base cx cy (seq 1 7)
                ([newPoint cx cy true], [], (0%nat, newPoint cx cy true), k)) as Hstem.
  pose proof (plantStem_count Math_hypot Math_random base cx cy (seq 1 7)
                ([newPoint cx cy true], [], (0%nat, newPoint cx cy true), k)) as Hk.
  destruct (foldl _ _ (seq 1 7)) as [[[points sticks] prev] k'].
  cbv zeta in Hstem. cbn [fst snd length] in Hstem, Hk. subst k'.
  destruct Hstem as [Hprev Hsticks]; [lia|done|].
  destruct (plantPetals_inv Math_sin Math_cos Math_hypot base
              (prev.1, Point.mk (Point.x prev.2) (Point.y prev.2) (Point.oldX prev.2)
                         (Point.oldY prev.2) (Point.isPinned prev.2) (Point.u prev.2)
                         (Point.v prev.2) (Point.mass prev.2) (Some 10)
                         (Some "#fbbf24"%string))
              (seq 0 6)
              (<[prev.1 := Point.mk (Point.x prev.2) (Point.y prev.2) (Point.oldX prev.2)
                         (Point.oldY prev.2) (Point.isPinned prev.2) (Point.u prev.2)
                         (Point.v prev.2) (Point.mass prev.2) (Some 10)
                         (Some "#fbbf24"%string)]> points) sticks)
    as (points' & sticks' & Hfold & Hlen & Hsticks').
  { cbn [fst]. by rewrite length_insert. }
  { by rewrite length_insert. }
  cbn [fst snd] in Hfold |- *. rewrite Hfold. cbn [mbind option_bind].
  rewrite length_insert in Hlen. cbn [length seq] in Hlen.
  destruct (arrayGet_Some points' (Z.of_nat (length points') - 1)) as [lastPetal Hlast]; [lia|].
  destruct (arrayGet_Some points' (Z.of_nat (length points') - 6)) as [firstPetal Hfirst]; [lia|].
  rewrite Hlast, Hfirst. cbn [mbind option_bind].
  eexists. split; [done|]. split; [|by destruct s].
  apply push_object_refsValid; [done|]. fold base.
  apply local_object_valid. apply Forall_app. split; [done|].
  repeat constructor; cbn; lia.
Qed.

Lemma castleSticks_in Math_hypot base stepX stepY x y :
  (x < 4)%nat → (y < 4)%nat →
  Forall (stickIn (base + 16))
    (castleSticks Math_hypot (λ x y, (base + (y * (3 + 1) + x))%nat) 3 3 stepX stepY x y).
Proof.
  intros Hx Hy. unfold castleSticks.
  destruct (Nat.ltb_spec x 3), (Nat.ltb_spec y 3); cbn [andb app];
    repeat constructor; cbn; lia.
Qed.

Lemma castleBattlements_inv base is_ points sticks :
  (16 ≤ length points)%nat →
  Forall (λ x, (x < 4)%nat) is_ →
  Forall (stickIn (base + length points)) sticks →
  ∃ points' sticks',
    foldl (castleBattlement base 3) (Some (points, sticks)) is_ = Some (points', sticks')
    ∧ length points' = (length points + length is_)%nat
    ∧ Forall (stickIn (base + length points')) sticks'.
Proof.
  revert points sticks. induction is_ as [|x is_ IH]; intros points sticks Hlen Hxs Hsticks.
  { exists points, sticks. by rewrite Nat.add_0_r. }
  apply Forall_cons in Hxs as [Hx Hxs].
  cbn [foldl]. unfold castleBattlement at 2. cbn [mbind option_bind].
  destruct (lookup_lt_is_Some_2 points (0 * (3 + 1) + x)) as [baseP HbaseP]; [lia|].
  rewrite HbaseP. cbn [mbind option_bind].
  match goal with
  | |- context [foldl _ (Some (?p, ?s)) is_] =>
      destruct (IH p s) as (points' & sticks' & Hfold & Hlen' & Hsticks')
  end.
  - rewrite length_app. lia.
  - done.
  - rewrite length_app. cbn [length]. apply Forall_app. split.
    + eapply sticksIn_mono; [|done]. lia.
    + repeat constructor; cbn; lia.
  - exists points', sticks'. split; [done|]. split; [|done].
    rewrite Hlen', length_app. cbn [length]. lia.
Qed.

(** [spawnCastle] never throws, and the castle it appends refers to its own
    points only. *)
Lemma spawnCastle_refsValid Math_hypot s id cx cy :
  refsValid s →
  ∃ s', spawnCastle Math_hypot s id cx cy = Some s'
    ∧ refsValid s'
    ∧ SoftBodySystem.rigidBodies s' = SoftBodySystem.rigidBodies s.
Proof.
  intros Hvalid. unfold spawnCastle. cbv zeta.
  set (base := length (SoftBodySystem.pointStore s)).
  match goal with
  | |- context [foldl _ (Some (?p, ?s)) (seq 0 4)] =>
      destruct (castleBattlements_inv base (seq 0 4) p s)
        as (points' & sticks' & Hfold & Hlen & Hsticks)
  end.
  - rewrite (length_flat_map_const _ _ 4) by (intros y; by rewrite length_map, length_seq).
    by rewrite length_seq.
  - apply Forall_forall. intros x Hx. apply list_elem_of_In, in_seq in Hx. lia.
  - rewrite (length_flat_map_const _ _ 4) by (intros y; by rewrite length_map, length_seq).
    rewrite length_seq. change (4 * 4)%nat with 16%nat.
    apply Forall_forall. intros st Hst.
    apply list_elem_of_In, in_flat_map in Hst as (y & Hy & Hst).
    apply in_flat_map in Hst as (x & Hx & Hst). apply in_seq in Hx, Hy.
    pose proof (castleSticks_in Math_hypot base (100 / ofNat 3) (100 / ofNat 3) x y
                  ltac:(lia) ltac:(lia)) as Hall.
    apply (proj1 (Forall_forall _ _) Hall). by apply list_elem_of_In.
  - rewrite Hfold. cbn [mbind option_bind]. eexists. split; [done|].
    split; [|by destruct s].
    apply push_object_refsValid; [done|]. fold base. by apply local_object_valid.
Qed.

Section HostCalls.

Variables (Math_sin Math_cos : number -> number) (Math_hypot Math_atan2 : number -> number -> number).
Variable Math_random : nat -> number.

Local Abbreviation call := (runCall Math_sin Math_cos Math_hypot Math_atan2 Math_random).

Lemma push_body_drawable s b :
  bodiesDrawable s →
  meshClosed (RigidBody3D.vertices b) (RigidBody3D.faces b) = true →
  bodiesDrawable (SoftBodySystem.set_rigidBodies s (SoftBodySystem.rigidBodies s ++ [b])).
Proof.
  intros Hd Hb. unfold bodiesDrawable. destruct s; simpl in *.
  apply Forall_app. split; [done|]. constructor; [done|constructor].
Qed.

Lemma runCall_well_formed s k c :
  refsValid s → bodiesDrawable s →
  match call (Some (s, k)) c with
  | Some (s', k') => refsValid s' ∧ bodiesDrawable s'
  | None =>
      ∃ faceLandmarks w h,
        c = CallOp (OpUpdateHorns faceLandmarks true w h)
        ∧ updateHornsThrows s faceLandmarks true = true
  end.
Proof.
  intros Hrefs Hdraw. destruct c; cbn [runCall mbind option_bind].
  - destruct (opThrows s op) eqn:Hthrows.
    + destruct op; try discriminate Hthrows. cbn [opThrows] in Hthrows.
      destruct isGestureActive.
      * by exists faceLandmarks, canvasWidth, canvasHeight.
      * exfalso. revert Hthrows. unfold updateHornsThrows.
        destruct (ensureHorn _ _ (SoftBodySystem.objects s)) as [objs1 leftHorn].
        by destruct (ensureHorn _ _ objs1) as [objs2 rightHorn].
    + pose proof (runOp_refsValid Math_sin Math_cos Math_hypot Math_atan2 Math_random (s, k) op
                    Hrefs) as Hrefs'.
      pose proof (runOp_drawable Math_sin Math_cos Math_hypot Math_atan2 Math_random (s, k) op
                    Hdraw) as Hdraw'.
      by destruct (runOp _ _ _ _ _ _ _) as [s' k'].
  - split; [split; constructor | constructor].
  - split; [by destruct s|]. by apply push_body_drawable.
  - split; [by destruct s|]. by apply push_body_drawable.
  - split; [by destruct s|].
    apply push_body_drawable; [done|].
    apply (generateEllipsoid_closed Math_sin Math_cos 40 25 30 12 8 "#4ade80").
  - split; [by apply spawnCar_refsValid|].
    unfold bodiesDrawable, spawnCar. by destruct s.
  - destruct (spawnPlant_refsValid Math_sin Math_cos Math_hypot Math_random s k id cx cy Hrefs)
      as (s' & -> & Hrefs' & Hbodies).
    split; [done|]. unfold bodiesDrawable. by rewrite Hbodies.
  - destruct (spawnCastle_refsValid Math_hypot s id cx cy Hrefs) as (s' & -> & Hrefs' & Hbodies).
    cbn [fmap option_fmap option_map].
    split; [done|]. unfold bodiesDrawable. by rewrite Hbodies.
Qed.

Lemma runCalls_thrown calls : foldl call None calls = None.
Proof. by induction calls. Qed.

(** A sequence of calls from a well-formed system: the system it leaves
    is well formed, and if it throws, it is at a horn update with the
    gesture active, reached in a well-formed system. *)
Lemma runCalls_well_formed calls s k :
  refsValid s → bodiesDrawable s →
  match foldl call (Some (s, k)) calls with
  | Some (s', k') => refsValid s' ∧ bodiesDrawable s'
  | None =>
      ∃ pre faceLandmarks w h post s1 k1,
        calls = pre ++ CallOp (OpUpdateHorns faceLandmarks true w h) :: post
        ∧ foldl call (Some (s, k)) pre = Some (s1, k1)
        ∧ refsValid s1 ∧ bodiesDrawable s1
        ∧ updateHornsThrows s1 faceLandmarks true = true
  end.
Proof.
  revert s k. induction calls as [|c calls IH]; intros s k Hrefs Hdraw; [done|].
  cbn [foldl].
  pose proof (runCall_well_formed s k c Hrefs Hdraw) as Hc.
  destruct (call (Some (s, k)) c) as [[s1 k1]|] eqn:Hcall.
  - destruct Hc as [Hrefs1 Hdraw1]. specialize (IH s1 k1 Hrefs1 Hdraw1).
    destruct (foldl call (Some (s1, k1)) calls) as [[s' k']|]; [done|].
    destruct IH as (pre & face & w & h & post & s2 & k2 & -> & Hpre & Hvalid).
    exists (c :: pre), face, w, h, post, s2, k2. split; [done|].
    cbn [foldl]. by rewrite Hcall.
  - rewrite runCalls_thrown.
    destruct Hc as (face & w & h & -> & Hthrows).
    by exists [], face, w, h, calls, s, k.
Qed.

End HostCalls.

(** X12: no call leaves behind a reference to a point or a vertex that is
    missing, and none but a horn update throws.  From a system in which
    every object and every spring refers to points of the store and every
    rigid body has a closed mesh, a sequence of spawns (car, plant, castle,
    cube, pyramid, dragon), resets, ticks, interactions, crumples, folds and
    horn updates either runs to its end and leaves a system of the same
    kind, or stops at a horn update with the gesture active that throws
    (the face lacks landmark 105 or 334, or a horn has no config); the
    system that call is made on, and the one it leaves behind, are of the
    same kind too.  A sequence without such a horn update runs to its
    end: the array reads of the plant and castle spawners never miss. *)
Theorem calls_keep_references (Math_sin Math_cos : number -> number)
    (Math_hypot Math_atan2 : number -> number -> number) (Math_random : nat -> number)
    (calls : list HostCall) (s : SoftBodySystem.t) (k : nat) :
  refsValid s → bodiesDrawable s →
  let run := foldl (runCall Math_sin Math_cos Math_hypot Math_atan2 Math_random) in
  match run (Some (s, k)) calls with
  | Some (s', k') => refsValid s' ∧ bodiesDrawable s'
  | None =>
      ∃ pre faceLandmarks w h post s1 k1,
        calls = pre ++ CallOp (OpUpdateHorns faceLandmarks true w h) :: post
        ∧ run (Some (s, k)) pre = Some (s1, k1)
        ∧ refsValid s1 ∧ bodiesDrawable s1
        ∧ updateHornsThrows s1 faceLandmarks true = true
        ∧ refsValid (updateHorns Math_hypot Math_atan2 s1 faceLandmarks true w h)
        ∧ bodiesDrawable (updateHorns Math_hypot Math_atan2 s1 faceLandmarks true w h)
  end
  ∧ ((∀ faceLandmarks w h, CallOp (OpUpdateHorns faceLandmarks true w h) ∉ calls) →
     is_Some (run (Some (s, k)) calls)).
Proof.
  intros Hrefs Hdraw run. subst run.
  pose proof (runCalls_well_formed Math_sin Math_cos Math_hypot Math_atan2 Math_random
                calls s k Hrefs Hdraw) as Hrun.
  destruct (foldl _ (Some (s, k)) calls) as [[s' k']|].
  - split; [done|]. by intros _.
  - destruct Hrun as (pre & face & w & h & post & s1 & k1 & Hcalls & Hpre & Hrefs1 & Hdraw1 & Hthrows).
    split.
    + exists pre, face, w, h, post, s1, k1. do 5 (split; [done|]). split.
      * by apply updateHorns_refsValid.
      * apply (runOp_drawable Math_sin Math_cos Math_hypot Math_atan2 Math_random (s1, k1)
                 (OpUpdateHorns face true w h) Hdraw1).
    + intros Hnone. exfalso. apply (Hnone face w h). rewrite Hcalls.
      apply elem_of_app. right. by left.
Qed.

Lemma calls_keep_references_witness :
  ∃ s' k',
    foldl (runCall sampleSin sampleCos sampleHypot sampleAtan2 sampleRandom)
      (Some (SoftBodySystem.initial, 0%nat))
      [ CallSpawnPlant "plant-1" 400 450; CallSpawnCastle "castle-2" 400 450;
        CallSpawnCar "car-3" 400 400; CallSpawnDragon "dragon-4" 400 100;
        CallOp (OpInteraction 0 400 450 true);
        CallOp (OpUpdateHorns sampleFace true 800 600); CallOp (OpUpdate 800 600) ]
    = Some (s', k')
    ∧ refsValid s' ∧ bodiesDrawable s'
    ∧ foldl (runCall sampleSin sampleCos sampleHypot sampleAtan2 sampleRandom)
        (Some (s', k')) [ CallOp (OpUpdateHorns (take 300 sampleFace) true 800 600) ]
      = None.
Proof.
  assert (Hrefs : refsValid SoftBodySystem.initial) by (split; constructor).
  assert (Hdraw : bodiesDrawable SoftBodySystem.initial) by constructor.
  destruct (calls_keep_references sampleSin sampleCos sampleHypot sampleAtan2 sampleRandom
              [ CallSpawnPlant "plant-1" 400 450; CallSpawnCastle "castle-2" 400 450;
                CallSpawnCar "car-3" 400 400; CallSpawnDragon "dragon-4" 400 100;
                CallOp (OpInteraction 0 400 450 true);
                CallOp (OpUpdateHorns sampleFace true 800 600); CallOp (OpUpdate 800 600) ]
              SoftBodySystem.initial 0%nat Hrefs Hdraw) as [Hrun _].
  cbv zeta in Hrun.
  remember (foldl (runCall sampleSin sampleCos sampleHypot sampleAtan2 sampleRandom)
              (Some (SoftBodySystem.initial, 0%nat)) _) as r eqn:Hr in Hrun.
  destruct r as [[s' k']|].
  - exists s', k'. split; [symmetry; exact Hr|].
    destruct Hrun as [Hrefs' Hdraw']. split; [done|]. split; [done|].
    cbn [foldl runCall mbind option_bind opThrows]. unfold updateHornsThrows.
    destruct (ensureHorn _ _ (SoftBodySystem.objects s')) as [objs1 leftHorn].
    by destruct (ensureHorn _ _ objs1) as [objs2 rightHorn].
  - exfalso. vm_compute in Hr. discriminate Hr.
Defined.

(** ** The two maps stay maps *)

(** [updateHorns] writes the objects and, through the points it makes, the
    store, and nothing else. *)
Lemma updateHorns_fields Math_hypot Math_atan2 s faceLandmarks isGestureActive w h :
  let s' := updateHorns Math_hypot Math_atan2 s faceLandmarks isGestureActive w h in
  SoftBodySystem.set_objects (SoftBodySystem.set_pointStore s' (SoftBodySystem.pointStore s))
    (SoftBodySystem.objects s) = s.
Proof.
  unfold updateHorns.
  destruct (ensureHorn _ _ (SoftBodySystem.objects s)) as [objs1 leftHorn].
  destruct (ensureHorn _ _ objs1) as [objs2 rightHorn].
  destruct isGestureActive; cbn [negb]; [|by destruct s].
  destruct (faceLandmarks !! 105%nat) as [lm105|]; [|by destruct s].
  destruct (faceLandmarks !! 334%nat) as [lm334|]; [|by destruct s].
  cbv zeta. destruct (bindHorn _ _ _ _ _ _) as [[store1 objs4] ok].
  destruct ok; [destruct (bindHorn _ _ _ _ _ _) as [[store2 objs5] ok']|]; by destruct s.
Qed.

(** X10: [updateHorns] touches nothing but the two horns.  After any call
    the objects hold a horn under each of the two ids, the first such object
    having its growth at 1 when the gesture is active and at 0 when it is
    not; a horn is appended only when no object carries its id, so a second
    call appends nothing; every other object, at any place, is the one
    before; the points of the store stay where they are, and the springs,
    the hold records, the rigid bodies and the parameters are not written. *)
Theorem updateHorns_two_horns (Math_hypot Math_atan2 : number -> number -> number)
    (s : SoftBodySystem.t) (faceLandmarks : list Vector3.t) (isGestureActive : bool)
    (canvasWidth canvasHeight : number) :
  let s' := updateHorns Math_hypot Math_atan2 s faceLandmarks isGestureActive
              canvasWidth canvasHeight in
  let missing id :=
    match findObject id (SoftBodySystem.objects s) with Some _ => 0%nat | None => 1%nat end in
  (∃ kl kr hl hr,
    findObject "devil-horn-left" (SoftBodySystem.objects s') = Some kl
    ∧ findObject "devil-horn-right" (SoftBodySystem.objects s') = Some kr
    ∧ SoftBodySystem.objects s' !! kl = Some hl
    ∧ SoftBodySystem.objects s' !! kr = Some hr
    ∧ SoftBodyObject.growth hl = Some (if isGestureActive then 1 else 0)
    ∧ SoftBodyObject.growth hr = Some (if isGestureActive then 1 else 0)
    ∧ length (SoftBodySystem.objects s')
      = (length (SoftBodySystem.objects s)
         + missing "devil-horn-left"%string + missing "devil-horn-right"%string)%nat
    ∧ ∀ k o, SoftBodySystem.objects s !! k = Some o → k ≠ kl → k ≠ kr →
        SoftBodySystem.objects s' !! k = Some o)
  ∧ SoftBodySystem.pointStore s `prefix_of` SoftBodySystem.pointStore s'
  ∧ SoftBodySystem.set_objects
      (SoftBodySystem.set_pointStore s' (SoftBodySystem.pointStore s))
      (SoftBodySystem.objects s) = s.
Proof.
  intros s' missing. split; [|split].
  - apply updateHorns_horns.
  - apply updateHorns_store.
  - apply updateHorns_fields.
Qed.

Section CallsKeepMaps.

Variables (Math_sin Math_cos : number -> number) (Math_hypot Math_atan2 : number -> number -> number).
Variable Math_random : nat -> number.

(** A model-level invariant: no call leaves two entries under one hand id
    in the springs or in the hold records. *)
Lemma runOp_uniqueKeys st op :
  uniqueKeys (SoftBodySystem.mouseSprings st.1) →
  uniqueKeys (SoftBodySystem.heldObjects st.1) →
  let st' := runOp Math_sin Math_cos Math_hypot Math_atan2 Math_random st op in
  uniqueKeys (SoftBodySystem.mouseSprings st'.1) ∧ uniqueKeys (SoftBodySystem.heldObjects st'.1).
Proof.
  destruct st as [s k]. cbn [fst]. intros Hsprings Hheld. destruct op; cbn [runOp fst snd].
  - destruct (update_keeps Math_sin s width height) as (Hh & Hs & _). cbv zeta in *.
    by rewrite Hh, Hs.
  - unfold handleInteraction3D. destruct isGrabbing.
    + destruct (JsMap.get _ _) as [hold|].
      * unfold dragHeld. destruct (findBody _ _) as [j|]; [|by destruct s].
        destruct (_ !! j); destruct s; simpl in *; [|done].
        split; [done|by apply JsMap_set_unique].
      * unfold tryGrab. destruct (grabScan _ _ _ _ _ _) as [j|]; [|by destruct s].
        destruct (_ !! j); destruct s; simpl in *; [|done].
        split; [done|by apply JsMap_set_unique].
    + unfold release. destruct (JsMap.get _ _) as [hold|]; destruct s; simpl in *; [|done].
      split; [done|by apply JsMap_delete_unique].
  - unfold handleInteraction. destruct isPinching.
    + set (springs1 := if negb _ then _ else _).
      assert (H1 : uniqueKeys springs1).
      { unfold springs1. destruct (negb _); [|done].
        destruct (scanObjects _ _ _ _ _ _).2; [by apply JsMap_set_unique|done]. }
      destruct (JsMap.get handId springs1); destruct s; simpl in *; [|done].
      split; [by apply JsMap_set_unique|done].
    + destruct s; simpl in *. split; [by apply JsMap_delete_unique|done].
  - unfold crumple. destruct (crumpleObjects _ _ _ _ _ _ _ _). by destruct s.
  - by destruct s.
  - pose proof (updateHorns_fields Math_hypot Math_atan2 s faceLandmarks isGestureActive
                  canvasWidth canvasHeight) as Hf.
    cbv zeta in Hf. destruct (updateHorns _ _ _ _ _ _ _) as [].
    rewrite <- Hf in Hsprings, Hheld. by simpl in *.
Qed.

End CallsKeepMaps.

(** * The frame loop *)

(** ** The gesture of a frame *)

Lemma nextGlobal_halo hs : foldl nextGlobal GlobalGesture.HALO hs = GlobalGesture.HALO.
Proof. induction hs as [|h hs IH]; [done|]. by simpl. Qed.

Lemma nextGlobal_censor hs : foldl nextGlobal GlobalGesture.CENSOR hs = GlobalGesture.CENSOR.
Proof. induction hs as [|h hs IH]; [done|]. simpl. by destruct h. Qed.

Lemma nextGlobal_horns hs :
  foldl nextGlobal GlobalGesture.HORNS hs
  = if existsb is_middle_finger hs then GlobalGesture.CENSOR else GlobalGesture.HORNS.
Proof.
  induction hs as [|h hs IH]; [done|]. simpl.
  destruct h; simpl; try done. apply nextGlobal_censor.
Qed.

Lemma nextGlobal_fist hs :
  foldl nextGlobal GlobalGesture.FIST hs
  = if existsb is_middle_finger hs then GlobalGesture.CENSOR
    else if existsb is_victory hs then GlobalGesture.HORNS
    else GlobalGesture.FIST.
Proof.
  induction hs as [|h hs IH]; [done|]. simpl.
  destruct h; simpl; try done; [apply nextGlobal_censor | apply nextGlobal_horns].
Qed.

Lemma nextGlobal_soft g hs :
  g = GlobalGesture.PINCH ∨ g = GlobalGesture.FOLD →
  foldl nextGlobal g hs
  = if existsb is_middle_finger hs then GlobalGesture.CENSOR
    else if existsb is_victory hs then GlobalGesture.HORNS
    else if existsb HandGesture.is_fist hs then GlobalGesture.FIST
    else g.
Proof.
  intros Hg. induction hs as [|h hs IH]; [done|]. simpl.
  destruct h; simpl; destruct Hg as [-> | ->]; simpl; try done;
    try apply nextGlobal_censor; try apply nextGlobal_horns; try apply nextGlobal_fist;
    apply IH; auto.
Qed.

(** The chain of tests on [globalGesture] is a priority: the middle finger
    of any hand, else the victory of any hand, else the fist of any hand,
    else the pinch or the open palm of the first hand that shows one. *)
Lemma nextGlobal_priority hs : foldl nextGlobal GlobalGesture.NONE hs = gestureOfHands hs.
Proof.
  unfold gestureOfHands. induction hs as [|h hs IH]; [done|]. simpl.
  destruct h; simpl; try done.
  - apply nextGlobal_censor.
  - apply nextGlobal_fist.
  - rewrite nextGlobal_soft by auto. by repeat case_match.
  - apply nextGlobal_horns.
  - rewrite nextGlobal_soft by auto. by repeat case_match.
Qed.

Section FrameFacts.

Variables (Math_sin Math_cos Math_floor : number -> number).
Variables (Math_hypot Math_atan2 : number -> number -> number).
Variable Math_random : nat -> number.

Local Abbreviation runFrame := (runFrameCall Math_sin Math_cos Math_floor Math_hypot Math_atan2 Math_random).

(** [hands.forEach] as a whole: it throws when a callback does, and
    otherwise makes the calls of the hands one after the other. *)
Lemma handSteps_spec allowObjects allowParticles width height brightness prevHands
    hands calls g i :
  foldl (handStep Math_hypot Math_atan2 allowObjects allowParticles width height brightness
           prevHands) (Some (calls, g, i)) hands
  = hs ← readHands Math_hypot Math_atan2 width height prevHands i hands;
    Some (calls ++ handsCalls allowObjects allowParticles brightness i hs,
          foldl nextGlobal g (HandInput.gesture <$> hs),
          (i + length hands)%nat).
Proof.
  revert calls g i. induction hands as [|landmarks hands IH]; intros calls g i.
  { simpl. by rewrite app_nil_r, Nat.add_0_r. }
  cbn [foldl readHands]. unfold handStep at 2. cbn [mbind option_bind].
  destruct (readHand _ _ _ _ _ landmarks) as [h|]; cbn [mbind option_bind].
  - rewrite IH. destruct (readHands _ _ _ _ _ _ hands) as [hs|]; cbn [mbind option_bind].
    + rewrite fmap_cons. cbn [foldl handsCalls length]. rewrite <- app_assoc.
      by rewrite Nat.add_succ_comm.
    + done.
  - clear. induction hands as [|l hands IH]; [done|]. by cbn [foldl].
Qed.

End FrameFacts.

Lemma readHand_gesture Math_hypot Math_atan2 width height prev landmarks h :
  readHand Math_hypot Math_atan2 width height prev landmarks = Some h →
  handGestureOf Math_hypot landmarks = Some (HandInput.gesture h).
Proof.
  unfold readHand. destruct (handGestureOf Math_hypot landmarks) as [g|]; [|done].
  cbn [mbind option_bind]. intros Hread.
  repeat match type of Hread with
         | (match ?o with Some _ => _ | None => None end) = Some _ =>
             destruct o; [|done]
         | (option_bind _ _ _ ?o) = Some _ => destruct o; [cbn [option_bind] in Hread|done]
         | (_ ← ?o; _) = Some _ => destruct o; [cbn [mbind option_bind] in Hread|done]
         end.
  destruct (forallb _ _); [|done]. by injection Hread as <-.
Qed.

Lemma readHands_gestures Math_hypot Math_atan2 width height prevHands i hands hs :
  readHands Math_hypot Math_atan2 width height prevHands i hands = Some hs →
  mapM (handGestureOf Math_hypot) hands = Some (HandInput.gesture <$> hs).
Proof.
  revert i hs. induction hands as [|landmarks hands IH]; intros i hs; cbn [readHands].
  { by intros [= <-]. }
  destruct (readHand _ _ _ _ _ landmarks) as [h|] eqn:Hh; [|done]. cbn [mbind option_bind].
  destruct (readHands _ _ _ _ _ _ hands) as [hs'|] eqn:Hhs; [|done]. cbn [mbind option_bind].
  intros [= <-]. rewrite fmap_cons. cbn [mapM].
  rewrite (readHand_gesture _ _ _ _ _ _ _ Hh). cbn [mbind option_bind].
  rewrite (IH _ _ Hhs). done.
Qed.

(** The calls of a frame that does not throw. *)
Lemma frameCalls_spec Math_hypot Math_atan2 mode width height brightness prevHands hands face
    calls g :
  frameCalls Math_hypot Math_atan2 mode width height brightness prevHands hands face
  = Some (calls, g) →
  ∃ g0 hs,
    initialGesture (allowsObjects mode) hands face = Some g0
    ∧ readHands Math_hypot Math_atan2 width height prevHands 0 hands = Some hs
    ∧ g = foldl nextGlobal g0 (HandInput.gesture <$> hs)
    ∧ calls = handsCalls (allowsObjects mode) (allowsParticles mode) brightness 0 hs
              ++ closingCalls (allowsObjects mode) width height face g.
Proof.
  unfold frameCalls. cbv zeta. fold (allowsObjects mode). fold (allowsParticles mode).
  destruct (initialGesture _ hands face) as [g0|]; [|done]. cbn [mbind option_bind].
  rewrite handSteps_spec.
  destruct (readHands _ _ _ _ _ _ hands) as [hs|]; [|done]. cbn [mbind option_bind app].
  unfold closingCalls.
  destruct face as [f|]; [destruct (allowsObjects mode); [destruct (_ && _); [done|]|]|];
    cbn [mbind option_bind]; intros [= <- <-]; by exists g0, hs.
Qed.

Lemma initialGesture_cases allowObjects hands face g0 :
  initialGesture allowObjects hands face = Some g0 →
  g0 = GlobalGesture.HALO ∨ g0 = GlobalGesture.NONE.
Proof.
  unfold initialGesture.
  destruct hands as [|h1 [|h2 [|h3 hands]]]; try (intros [= <-]; by right).
  destruct face as [f|]; [|intros [= <-]; by right].
  destruct (h1 !! 0%nat) as [w1|]; [|done]. cbn [mbind option_bind].
  destruct (f !! 1%nat) as [nose|]; [|done]. cbn [mbind option_bind].
  destruct (_ <? _); [|intros [= <-]; by right].
  destruct (h2 !! 0%nat) as [w2|]; [|done]. cbn [mbind option_bind].
  destruct (_ <? _); [|intros [= <-]; by right].
  destruct allowObjects; [destruct (f !! 10%nat); [|done]|]; intros [= <-]; by left.
Qed.

(** X13: the gesture a frame shows is decided by a priority, not by the
    order of the hands: the halo when it is up (two hands, both wrists
    over the nose of a face); else CENSOR when any hand shows the middle
    finger; else HORNS when any hand shows the victory; else FIST when any
    hand shows a fist; else PINCH or FOLD after the first hand that
    pinches or opens its palm; else NONE. *)
Theorem frame_gesture_priority (Math_hypot Math_atan2 : number -> number -> number)
    (mode : VisualizerMode) (width height brightness : number)
    (prevHands hands : list (list Vector3.t)) (face : option (list Vector3.t))
    (calls : list FrameCall) (g : GlobalGesture.t) :
  frameCalls Math_hypot Math_atan2 mode width height brightness prevHands hands face
  = Some (calls, g) →
  ∃ g0 gs,
    initialGesture (allowsObjects mode) hands face = Some g0
    ∧ mapM (handGestureOf Math_hypot) hands = Some gs
    ∧ g = match g0 with
          | GlobalGesture.HALO => GlobalGesture.HALO
          | _ => gestureOfHands gs
          end.
Proof.
  intros Hframe.
  destruct (frameCalls_spec _ _ _ _ _ _ _ _ _ _ _ Hframe) as (g0 & hs & Hg0 & Hhs & -> & _).
  exists g0, (HandInput.gesture <$> hs). split; [done|].
  split; [by eapply readHands_gestures|].
  destruct (initialGesture_cases _ _ _ _ Hg0) as [-> | ->].
  - apply nextGlobal_halo.
  - apply nextGlobal_priority.
Qed.

Lemma frame_gesture_priority_witness :
  ∃ calls,
    frameCalls sampleHypot sampleAtan2 mode_all 800 600 0.5 [] [fistHand; victoryHand] None
    = Some (calls, GlobalGesture.HORNS)
    ∧ mapM (handGestureOf sampleHypot) [fistHand; victoryHand]
      = Some [HandGesture.FIST; HandGesture.VICTORY].
Proof.
  destruct (frameCalls sampleHypot sampleAtan2 mode_all 800 600 0.5 [] [fistHand; victoryHand]
              None) as [[calls g]|] eqn:Hframe; [|discriminate Hframe].
  destruct (frame_gesture_priority _ _ _ _ _ _ _ _ _ _ _ Hframe) as (g0 & gs & Hg0 & Hgs & ->).
  injection Hg0 as <-. vm_compute in Hgs. injection Hgs as <-.
  exists calls. split; reflexivity.
Defined.

(** ** What a frame does to the hold of a hand *)

Section FrameRun.

Variables (Math_sin Math_cos Math_floor : number -> number).
Variables (Math_hypot Math_atan2 : number -> number -> number).
Variable Math_random : nat -> number.

Local Abbreviation runFrame :=
  (runFrameCall Math_sin Math_cos Math_floor Math_hypot Math_atan2 Math_random).
Local Abbreviation springOf i w := (JsMap.get i (SoftBodySystem.mouseSprings w.1.1)).
Local Abbreviation holdOf i w := (JsMap.get i (SoftBodySystem.heldObjects w.1.1)).
Local Abbreviation mapsUnique w :=
  (uniqueKeys (SoftBodySystem.mouseSprings w.1.1) ∧ uniqueKeys (SoftBodySystem.heldObjects w.1.1)).

Lemma runFrameCall_soft w op :
  (runFrame w (SoftCall op)).1.1
  = (runOp Math_sin Math_cos Math_hypot Math_atan2 Math_random (w.1.1, w.2) op).1.
Proof.
  destruct w as [[sb ps] k]. cbn [runFrameCall fst snd]. by destruct (runOp _ _ _ _ _ _ _).
Qed.

Lemma runFrameCall_particles w c :
  (∀ op, c ≠ SoftCall op) → (runFrame w c).1.1 = w.1.1.
Proof.
  destruct w as [[sb ps] k]. intros Hc. destruct c as [op| |]; cbn [runFrameCall].
  - by destruct (Hc op).
  - by destruct (ParticleSystem.emit _ _ _ _ _ _ _ _ _ _ _).
  - by destruct (ParticleSystem.update _ _ _).
Qed.

Lemma runFrameCall_uniqueKeys w c : mapsUnique w → mapsUnique (runFrame w c).
Proof.
  intros [Hs Hh]. destruct c as [op| |].
  - rewrite runFrameCall_soft. by apply runOp_uniqueKeys.
  - by rewrite runFrameCall_particles.
  - by rewrite runFrameCall_particles.
Qed.

Lemma runFrame_uniqueKeys calls w : mapsUnique w → mapsUnique (foldl runFrame w calls).
Proof.
  revert w. induction calls as [|c calls IH]; intros w Hw; [done|].
  cbn [foldl]. by apply IH, runFrameCall_uniqueKeys.
Qed.

(** A call leaves the spring and the hold record of every hand it does not
    act for. *)
Lemma runFrameCall_other i w c :
  callActor c ≠ Some i →
  springOf i (runFrame w c) = springOf i w ∧ holdOf i (runFrame w c) = holdOf i w.
Proof.
  intros Hactor. destruct c as [op| |]; [|by rewrite runFrameCall_particles..].
  rewrite runFrameCall_soft. destruct w as [[sb ps] k]. cbn [fst snd].
  destruct op; cbn [runOp fst snd callActor] in *.
  - destruct (update_keeps Math_sin sb width height) as (Hh & Hs & _). cbv zeta in *.
    by rewrite Hh, Hs.
  - assert (Hne : i ≠ handId) by congruence.
    unfold handleInteraction3D. destruct isGrabbing.
    + destruct (JsMap.get handId _) as [hold|].
      * unfold dragHeld. destruct (findBody _ _) as [j|]; [|by destruct sb].
        destruct (_ !! j); destruct sb; simpl in *; [|done].
        split; [done|]. by apply JsMap_get_set_ne.
      * unfold tryGrab. destruct (grabScan _ _ _ _ _ _) as [j|]; [|by destruct sb].
        destruct (_ !! j); destruct sb; simpl in *; [|done].
        split; [done|]. by apply JsMap_get_set_ne.
    + unfold release. destruct (JsMap.get handId _) as [hold|]; destruct sb; simpl in *; [|done].
      split; [done|]. by apply JsMap_get_delete_ne.
  - assert (Hne : i ≠ handId) by congruence.
    unfold handleInteraction. destruct isPinching.
    + set (springs1 := if negb _ then _ else _).
      assert (H1 : JsMap.get i springs1 = JsMap.get i (SoftBodySystem.mouseSprings sb)).
      { unfold springs1. destruct (negb _); [|done].
        destruct (scanObjects _ _ _ _ _ _).2; [by apply JsMap_get_set_ne|done]. }
      destruct (JsMap.get handId springs1); destruct sb; simpl in *; [|done].
      split; [|done]. by rewrite JsMap_get_set_ne.
    + destruct sb; simpl in *. split; [|done]. by apply JsMap_get_delete_ne.
  - unfold crumple. destruct (crumpleObjects _ _ _ _ _ _ _ _). by destruct sb.
  - by destruct sb.
  - pose proof (updateHorns_fields Math_hypot Math_atan2 sb faceLandmarks isGestureActive
                  canvasWidth canvasHeight) as Hf.
    cbv zeta in Hf. destruct (updateHorns _ _ _ _ _ _ _) as [].
    rewrite <- Hf. by simpl.
Qed.

Lemma runFrame_other i calls w :
  Forall (λ c, callActor c ≠ Some i) calls →
  springOf i (foldl runFrame w calls) = springOf i w
  ∧ holdOf i (foldl runFrame w calls) = holdOf i w.
Proof.
  revert w. induction calls as [|c calls IH]; intros w Hall; [done|].
  apply Forall_cons in Hall as [Hc Hall]. cbn [foldl].
  destruct (IH (runFrame w c) Hall) as [-> ->]. by apply runFrameCall_other.
Qed.

End FrameRun.

Lemma readHands_lookup Math_hypot Math_atan2 width height prevHands j hands hs :
  readHands Math_hypot Math_atan2 width height prevHands j hands = Some hs →
  length hs = length hands
  ∧ ∀ i landmarks, hands !! i = Some landmarks →
      ∃ h, hs !! i = Some h
        ∧ readHand Math_hypot Math_atan2 width height (prevHands !! (j + i)%nat) landmarks
          = Some h.
Proof.
  revert j hs. induction hands as [|l hands IH]; intros j hs; cbn [readHands].
  { intros [= <-]. split; [done|]. by intros i landmarks. }
  destruct (readHand _ _ _ _ _ l) as [h|] eqn:Hh; [|done]. cbn [mbind option_bind].
  destruct (readHands _ _ _ _ _ _ hands) as [hs'|] eqn:Hhs; [|done]. cbn [mbind option_bind].
  intros [= <-]. destruct (IH _ _ Hhs) as [Hlen Hlook].
  split; [by rewrite !length_cons, Hlen|].
  intros [|i] landmarks Hi; simpl in Hi.
  - injection Hi as <-. exists h. by rewrite Nat.add_0_r.
  - destruct (Hlook i landmarks Hi) as (h' & Hh' & Hread). exists h'. split; [done|].
    by rewrite <- Nat.add_succ_comm.
Qed.

Lemma handCalls_actors allowObjects allowParticles brightness j h i :
  i ≠ j →
  Forall (λ c, callActor c ≠ Some i) (handCalls allowObjects allowParticles brightness j h).
Proof.
  intros Hne. unfold handCalls.
  destruct allowObjects, allowParticles, (HandInput.gesture h); cbn;
    repeat constructor; cbn; congruence.
Qed.

Lemma handsCalls_actors allowObjects allowParticles brightness j hs i :
  (i < j ∨ j + length hs ≤ i)%nat →
  Forall (λ c, callActor c ≠ Some i) (handsCalls allowObjects allowParticles brightness j hs).
Proof.
  revert j. induction hs as [|h hs IH]; intros j Hi; cbn [handsCalls]; [constructor|].
  cbn [length] in Hi. apply Forall_app. split.
  - apply handCalls_actors. lia.
  - apply IH. lia.
Qed.

Lemma closingCalls_actors allowObjects width height face g i :
  Forall (λ c, callActor c ≠ Some i) (closingCalls allowObjects width height face g).
Proof.
  unfold closingCalls. destruct face, allowObjects; cbn; by repeat constructor.
Qed.

Lemma handsCalls_split allowObjects allowParticles brightness j hs i h :
  hs !! i = Some h →
  handsCalls allowObjects allowParticles brightness j hs
  = handsCalls allowObjects allowParticles brightness j (take i hs)
    ++ handCalls allowObjects allowParticles brightness (j + i) h
    ++ handsCalls allowObjects allowParticles brightness (S (j + i)) (drop (S i) hs).
Proof.
  revert j i. induction hs as [|h0 hs IH]; intros j i Hi; [done|].
  destruct i as [|i]; simpl in Hi.
  - injection Hi as ->. by rewrite Nat.add_0_r.
  - cbn [take drop handsCalls]. rewrite (IH (S j) i Hi), <- app_assoc.
    by rewrite <- Nat.add_succ_comm.
Qed.

Section LetGo.

Variables (Math_sin Math_cos Math_floor : number -> number).
Variables (Math_hypot Math_atan2 : number -> number -> number).
Variable Math_random : nat -> number.

Local Abbreviation runFrame :=
  (runFrameCall Math_sin Math_cos Math_floor Math_hypot Math_atan2 Math_random).

(** The callback of a hand that does not pinch drops the spring of the
    hand and, when objects are on, its hold record. *)
Lemma handCalls_let_go allowObjects allowParticles brightness i h (w : World) :
  HandGesture.is_pinch (HandInput.gesture h) = false →
  uniqueKeys (SoftBodySystem.mouseSprings w.1.1) →
  uniqueKeys (SoftBodySystem.heldObjects w.1.1) →
  let w' := foldl runFrame w (handCalls allowObjects allowParticles brightness i h) in
  JsMap.get i (SoftBodySystem.mouseSprings w'.1.1) = None
  ∧ (allowObjects = true → JsMap.get i (SoftBodySystem.heldObjects w'.1.1) = None).
Proof.
  intros Hpinch Hsprings Hheld. unfold handCalls. rewrite Hpinch. cbv zeta.
  set (rest := if allowParticles && _ then _ else []).
  assert (Hrest : Forall (λ c, callActor c ≠ Some i) rest).
  { unfold rest. destruct (_ && _); by repeat constructor. }
  assert (Hdelete : ∀ (w0 : World),
            uniqueKeys (SoftBodySystem.mouseSprings w0.1.1) →
            JsMap.get i (SoftBodySystem.mouseSprings
                           (runFrame w0 (SoftCall (OpInteraction i 0 0 false))).1.1) = None
            ∧ SoftBodySystem.heldObjects (runFrame w0 (SoftCall (OpInteraction i 0 0 false))).1.1
              = SoftBodySystem.heldObjects w0.1.1).
  { intros [[sb0 ps0] k0] Hu. cbn. destruct sb0; simpl in *.
    split; [by apply JsMap_get_delete_eq|done]. }
  destruct allowObjects.
  - rewrite !foldl_app. cbn [foldl].
    (* the release *)
    set (w1 := runFrame w (SoftCall (OpInteraction3D i _ _ _ false _))).
    assert (H1 : JsMap.get i (SoftBodySystem.heldObjects w1.1.1) = None
                 ∧ uniqueKeys (SoftBodySystem.mouseSprings w1.1.1)).
    { unfold w1. destruct w as [[sb ps] k]. cbn [runFrameCall runOp fst snd] in *.
      unfold handleInteraction3D, release.
      destruct (JsMap.get i (SoftBodySystem.heldObjects sb)) as [hold|] eqn:Hget;
        destruct sb; simpl in *; [|done].
      split; [by apply JsMap_get_delete_eq|done]. }
    destruct H1 as [Hhold1 Hu1].
    (* the crumple of a fist *)
    set (w2 := foldl runFrame w1 (if HandGesture.is_fist _ then _ else [])).
    assert (H2 : JsMap.get i (SoftBodySystem.heldObjects w2.1.1) = None
                 ∧ uniqueKeys (SoftBodySystem.mouseSprings w2.1.1)).
    { unfold w2. destruct (HandGesture.is_fist _); [|done]. cbn [foldl].
      destruct w1 as [[sb1 ps1] k1]. cbn [runFrameCall runOp fst snd] in *.
      unfold crumple. destruct (crumpleObjects _ _ _ _ _ _ _ _).
      destruct sb1; by simpl in *. }
    destruct H2 as [Hhold2 Hu2].
    destruct (Hdelete w2 Hu2) as [Hspring3 Hheld3].
    set (w3 := runFrame w2 _) in *.
    assert (Hfold : Forall (λ c, callActor c ≠ Some i)
                      (if HandGesture.is_open_palm (HandInput.gesture h)
                       then [SoftCall (OpFold (HandInput.cx h) (HandInput.cy h) 220
                                         (HandInput.velocity h))]
                       else [])).
    { destruct (HandGesture.is_open_palm _); by repeat constructor. }
    match goal with
    | |- context [foldl _ (foldl _ w3 ?l) rest] =>
        destruct (runFrame_other Math_sin Math_cos Math_floor Math_hypot Math_atan2 Math_random
                    i rest (foldl runFrame w3 l) Hrest) as [-> ->];
        destruct (runFrame_other Math_sin Math_cos Math_floor Math_hypot Math_atan2 Math_random
                    i l w3 Hfold) as [-> ->]
    end.
    split; [done|]. intros _. by rewrite Hheld3.
  - rewrite foldl_app. cbn [foldl].
    destruct (Hdelete w Hsprings) as [Hspring1 _].
    destruct (runFrame_other Math_sin Math_cos Math_floor Math_hypot Math_atan2 Math_random
                i rest (runFrame w (SoftCall (OpInteraction i 0 0 false))) Hrest) as [-> _].
    by split.
Qed.

End LetGo.

(** X14: a hand in view that does not pinch holds nothing at the end of the
    frame.  Whatever it shows but PINCH (a fist and an open palm included,
    and however close its thumb is to its index when it shows a fist or a
    middle finger), its spring is gone and, in the modes with objects, so is
    its hold record, whatever the other hand does in the same frame.  In
    the mode without objects the hold record is not looked at. *)
Theorem open_hand_lets_go (Math_sin Math_cos Math_floor : number -> number)
    (Math_hypot Math_atan2 : number -> number -> number) (Math_random : nat -> number)
    (mode : VisualizerMode) (width height brightness : number)
    (prevHands hands : list (list Vector3.t)) (face : option (list Vector3.t))
    (w w' : World) (g : GlobalGesture.t)
    (i : nat) (landmarks : list Vector3.t) (hg : HandGesture.t) :
  predictWebcam Math_sin Math_cos Math_floor Math_hypot Math_atan2 Math_random
    mode width height brightness prevHands hands face w = Some (w', g) →
  uniqueKeys (SoftBodySystem.mouseSprings w.1.1) →
  uniqueKeys (SoftBodySystem.heldObjects w.1.1) →
  hands !! i = Some landmarks →
  handGestureOf Math_hypot landmarks = Some hg →
  HandGesture.is_pinch hg = false →
  JsMap.get i (SoftBodySystem.mouseSprings w'.1.1) = None
  ∧ (allowsObjects mode = true → JsMap.get i (SoftBodySystem.heldObjects w'.1.1) = None).
Proof.
  intros Hframe Hsprings Hheld Hi Hhg Hpinch. unfold predictWebcam in Hframe.
  destruct (frameCalls _ _ _ _ _ _ _ _ _) as [[calls g']|] eqn:Hcalls; [|done].
  cbn [mbind option_bind] in Hframe. injection Hframe as <- <-.
  destruct (frameCalls_spec _ _ _ _ _ _ _ _ _ _ _ Hcalls) as (g0 & hs & _ & Hhs & _ & ->).
  destruct (readHands_lookup _ _ _ _ _ _ _ _ Hhs) as [Hlen Hlook].
  destruct (Hlook i landmarks Hi) as (h & Hh & Hread).
  pose proof (readHand_gesture _ _ _ _ _ _ _ Hread) as Hg.
  assert (HandInput.gesture h = hg) as Hgesture by congruence.
  rewrite (handsCalls_split _ _ _ _ _ _ _ Hh), !foldl_app.
  cbn [Nat.add].
  set (w1 := foldl _ w (handsCalls _ _ _ 0 (take i hs))).
  assert (Hu1 : uniqueKeys (SoftBodySystem.mouseSprings w1.1.1)
                ∧ uniqueKeys (SoftBodySystem.heldObjects w1.1.1))
    by (by apply runFrame_uniqueKeys).
  destruct Hu1 as [Hs1 Hh1].
  destruct (handCalls_let_go Math_sin Math_cos Math_floor Math_hypot Math_atan2 Math_random
              (allowsObjects mode) (allowsParticles mode) brightness i h w1
              ltac:(by rewrite Hgesture) Hs1 Hh1) as [Hspring2 Hhold2].
  cbv zeta in Hspring2, Hhold2.
  set (w2 := foldl _ w1 (handCalls _ _ _ i h)) in *.
  rewrite <- foldl_app.
  match goal with
  | |- context [foldl _ w2 ?l] =>
      destruct (runFrame_other Math_sin Math_cos Math_floor Math_hypot Math_atan2 Math_random
                  i l w2) as [-> ->]
  end; [|done].
  apply Forall_app. split; [|apply closingCalls_actors].
  apply handsCalls_actors. lia.
Qed.

Lemma open_hand_lets_go_witness :
  let w : World := (pinchedScene, [], 0%nat) in
  JsMap.get 0 (SoftBodySystem.mouseSprings pinchedScene) ≠ None
  ∧ ∃ w' g,
      predictWebcam sampleSin sampleCos sampleFloor sampleHypot sampleAtan2 sampleRandom
        mode_all 800 600 0.5 [] [fistHand] None w = Some (w', g)
      ∧ JsMap.get 0 (SoftBodySystem.mouseSprings w'.1.1) = None.
Proof.
  intros w. split; [done|].
  destruct (predictWebcam sampleSin sampleCos sampleFloor sampleHypot sampleAtan2 sampleRandom
              mode_all 800 600 0.5 [] [fistHand] None w) as [[w' g]|] eqn:Hframe;
    [|discriminate Hframe].
  exists w', g. split; [done|].
  refine (proj1 (open_hand_lets_go _ _ _ _ _ _ _ _ _ _ _ _ _ w w' g 0 fistHand HandGesture.FIST
                   Hframe _ _ eq_refl eq_refl eq_refl)).
  - vm_compute. apply NoDup_singleton.
  - vm_compute. apply NoDup_nil_2.
Defined.

(** X15: a frame leaves the spring and the hold record of every hand that
    is not in view as they are: a hand that leaves the picture while it
    pinches keeps its point and its body until a hand comes back under its
    index. *)
Theorem absent_hand_keeps_hold (Math_sin Math_cos Math_floor : number -> number)
    (Math_hypot Math_atan2 : number -> number -> number) (Math_random : nat -> number)
    (mode : VisualizerMode) (width height brightness : number)
    (prevHands hands : list (list Vector3.t)) (face : option (list Vector3.t))
    (w w' : World) (g : GlobalGesture.t) (i : nat) :
  predictWebcam Math_sin Math_cos Math_floor Math_hypot Math_atan2 Math_random
    mode width height brightness prevHands hands face w = Some (w', g) →
  (length hands ≤ i)%nat →
  JsMap.get i (SoftBodySystem.mouseSprings w'.1.1)
  = JsMap.get i (SoftBodySystem.mouseSprings w.1.1)
  ∧ JsMap.get i (SoftBodySystem.heldObjects w'.1.1)
    = JsMap.get i (SoftBodySystem.heldObjects w.1.1).
Proof.
  intros Hframe Hi. unfold predictWebcam in Hframe.
  destruct (frameCalls _ _ _ _ _ _ _ _ _) as [[calls g']|] eqn:Hcalls; [|done].
  cbn [mbind option_bind] in Hframe. injection Hframe as <- <-.
  destruct (frameCalls_spec _ _ _ _ _ _ _ _ _ _ _ Hcalls) as (g0 & hs & _ & Hhs & _ & ->).
  destruct (readHands_lookup _ _ _ _ _ _ _ _ Hhs) as [Hlen _].
  apply runFrame_other. apply Forall_app. split; [|apply closingCalls_actors].
  apply handsCalls_actors. lia.
Qed.

Lemma absent_hand_keeps_hold_witness :
  let w : World := (firstGrab, [], 0%nat) in
  JsMap.get 0 (SoftBodySystem.heldObjects firstGrab) ≠ None
  ∧ ∃ w' g,
      predictWebcam sampleSin sampleCos sampleFloor sampleHypot sampleAtan2 sampleRandom
        mode_all 800 600 0.5 [] [] None w = Some (w', g)
      ∧ JsMap.get 0 (SoftBodySystem.heldObjects w'.1.1)
        = JsMap.get 0 (SoftBodySystem.heldObjects firstGrab).
Proof.
  intros w. split; [done|].
  destruct (predictWebcam sampleSin sampleCos sampleFloor sampleHypot sampleAtan2 sampleRandom
              mode_all 800 600 0.5 [] [] None w) as [[w' g]|] eqn:Hframe;
    [|discriminate Hframe].
  exists w', g. split; [done|].
  refine (proj2 (absent_hand_keeps_hold _ _ _ _ _ _ _ _ _ _ _ _ _ w w' g 0 Hframe _)).
  simpl. lia.
Defined.

(** ** The horns of a frame *)

Lemma objects_frame_lookup (objs objs' : list SoftBodyObject.t) (k : nat) o :
  (λ o, SoftBodyObject.set_sticks o []) <$> objs' = (λ o, SoftBodyObject.set_sticks o []) <$> objs →
  objs !! k = Some o →
  ∃ o', objs' !! k = Some o'
    ∧ SoftBodyObject.id o' = SoftBodyObject.id o
    ∧ SoftBodyObject.growth o' = SoftBodyObject.growth o
    ∧ SoftBodyObject.points o' = SoftBodyObject.points o.
Proof.
  intros Hsame Hk.
  assert (Hs : ((λ o, SoftBodyObject.set_sticks o []) <$> objs') !! k
               = Some (SoftBodyObject.set_sticks o []))
    by (by rewrite Hsame, list_lookup_fmap, Hk).
  apply list_lookup_fmap_Some in Hs as (o' & Heq & Hk'). exists o'. split; [done|].
  split; [|split].
  - by apply (f_equal SoftBodyObject.id) in Heq.
  - by apply (f_equal SoftBodyObject.growth) in Heq.
  - by apply (f_equal SoftBodyObject.points) in Heq.
Qed.

Lemma objects_frame_ids (objs objs' : list SoftBodyObject.t) :
  (λ o, SoftBodyObject.set_sticks o []) <$> objs' = (λ o, SoftBodyObject.set_sticks o []) <$> objs →
  SoftBodyObject.id <$> objs' = SoftBodyObject.id <$> objs.
Proof.
  intros Hsame. apply (f_equal (fmap SoftBodyObject.id)) in Hsame.
  by rewrite <- !list_fmap_compose in Hsame.
Qed.

(** X16: in the modes with objects, a frame that sees a face ends with the
    two horns in the scene, grown (growth 1) when the frame shows HORNS and
    hidden (growth 0) when it shows anything else: a middle finger or a
    halo in the same frame hides them, whatever the other hand shows. *)
Theorem frame_horns_follow_gesture (Math_sin Math_cos Math_floor : number -> number)
    (Math_hypot Math_atan2 : number -> number -> number) (Math_random : nat -> number)
    (mode : VisualizerMode) (width height brightness : number)
    (prevHands hands : list (list Vector3.t)) (face : list Vector3.t)
    (w w' : World) (g : GlobalGesture.t) :
  predictWebcam Math_sin Math_cos Math_floor Math_hypot Math_atan2 Math_random
    mode width height brightness prevHands hands (Some face) w = Some (w', g) →
  allowsObjects mode = true →
  ∃ kl kr hl hr,
    findObject "devil-horn-left" (SoftBodySystem.objects w'.1.1) = Some kl
    ∧ findObject "devil-horn-right" (SoftBodySystem.objects w'.1.1) = Some kr
    ∧ SoftBodySystem.objects w'.1.1 !! kl = Some hl
    ∧ SoftBodySystem.objects w'.1.1 !! kr = Some hr
    ∧ SoftBodyObject.growth hl = Some (if GlobalGesture.is_horns g then 1 else 0)
    ∧ SoftBodyObject.growth hr = Some (if GlobalGesture.is_horns g then 1 else 0).
Proof.
  intros Hframe Hmode. unfold predictWebcam in Hframe.
  destruct (frameCalls _ _ _ _ _ _ _ _ _) as [[calls g']|] eqn:Hcalls; [|done].
  cbn [mbind option_bind] in Hframe. injection Hframe as <- <-.
  destruct (frameCalls_spec _ _ _ _ _ _ _ _ _ _ _ Hcalls) as (g0 & hs & _ & _ & _ & ->).
  rewrite Hmode. unfold closingCalls. rewrite foldl_app. cbn [app foldl].
  set (w1 := foldl _ w _). clearbody w1. destruct w1 as [[sb1 ps1] k1].
  cbn [runFrameCall runOp fst snd].
  destruct (ParticleSystem.update _ _ _) as [ps' k']. cbn [fst snd].
  set (sb2 := updateHorns Math_hypot Math_atan2 sb1 face (GlobalGesture.is_horns g') width height).
  destruct (updateHorns_horns Math_hypot Math_atan2 sb1 face (GlobalGesture.is_horns g')
              width height) as (kl & kr & hl & hr & Hkl & Hkr & Hl & Hr & Hgl & Hgr & _).
  fold sb2 in Hkl, Hkr, Hl, Hr.
  destruct (update_keeps Math_sin sb2 width height) as (_ & _ & _ & _ & _ & Hsame & _).
  cbv zeta in Hsame.
  destruct (objects_frame_lookup _ _ _ _ Hsame Hl) as (hl' & Hl' & _ & Hgl' & _).
  destruct (objects_frame_lookup _ _ _ _ Hsame Hr) as (hr' & Hr' & _ & Hgr' & _).
  exists kl, kr, hl', hr'.
  rewrite !(findObject_ids _ _ _ (objects_frame_ids _ _ Hsame)).
  do 4 (split; [done|]). split; congruence.
Qed.

Lemma frame_horns_follow_gesture_witness :
  ∃ w' kl hl,
    predictWebcam sampleSin sampleCos sampleFloor sampleHypot sampleAtan2 sampleRandom
      mode_all 800 600 0.5 [] [fistHand; victoryHand] (Some sampleFace)
      (SoftBodySystem.initial, [], 0%nat)
    = Some (w', GlobalGesture.HORNS)
    ∧ SoftBodySystem.objects w'.1.1 !! kl = Some hl
    ∧ SoftBodyObject.id hl = "devil-horn-left"%string
    ∧ SoftBodyObject.growth hl = Some 1.
Proof.
  destruct (predictWebcam sampleSin sampleCos sampleFloor sampleHypot sampleAtan2 sampleRandom
              mode_all 800 600 0.5 [] [fistHand; victoryHand] (Some sampleFace)
              (SoftBodySystem.initial, [], 0%nat)) as [[w' g]|] eqn:Hframe;
    [|discriminate Hframe].
  destruct (frame_horns_follow_gesture _ _ _ _ _ _ _ _ _ _ _ _ _ _ _ _ Hframe eq_refl)
    as (kl & kr & hl & hr & Hkl & _ & Hl & _ & Hgl & _).
  destruct (findObject_Some _ _ _ Hkl) as (o & Ho & Hid).
  assert (o = hl) as -> by congruence.
  assert (Hg : g = GlobalGesture.HORNS).
  { unfold predictWebcam in Hframe.
    destruct (frameCalls _ _ _ _ _ _ _ _ _) as [[calls g']|] eqn:Hcalls; [|done].
    cbn [mbind option_bind] in Hframe. injection Hframe as _ <-.
    vm_compute in Hcalls. by injection Hcalls as _ <-. }
  subst g. by exists w', kl, hl.
Defined.

(** * The particles *)

Section Particles.

Variables (Math_sin Math_cos Math_floor : number -> number).
Variable Math_random : nat -> number.

Lemma emitLoop_spec room i count x y intensity velocity type spread speedMult lifeMult
    particles k :
  let r := ParticleSystem.emitLoop Math_sin Math_cos Math_random room i count x y intensity
             velocity type spread speedMult lifeMult particles k in
  ∃ new, r.1 = particles ++ new
    ∧ (length new ≤ room)%nat
    ∧ r.2 = (k + 5 * length new)%nat
    ∧ Forall (λ p, Particle.life p = 1.0 * lifeMult ∧ Particle.maxLife p = 1.0 * lifeMult) new
    ∧ ((length new < room)%nat → (ofNat (i + length new) <? count) = false)
    ∧ (∀ j, (j < length new)%nat → (ofNat (i + j) <? count) = true).
Proof.
  revert i particles k. induction room as [|room IH]; intros i particles k; cbn [ParticleSystem.emitLoop].
  - exists []. rewrite app_nil_r.
    destruct (_ <? _); cbn [fst snd length]; (split; [done|]); (split; [lia|]);
      (split; [lia|]); (split; [constructor|]); (split; [lia|]); intros j Hj; lia.
  - destruct (ofNat i <? count) eqn:Hi.
    + destruct (IH (S i) (particles ++ [ParticleSystem.emitOne Math_sin Math_cos Math_random
                                          x y intensity velocity type spread speedMult lifeMult k])
                  (k + 5)%nat) as (new & Heq & Hlen & Hk & Hlife & Hstop & Hunder).
      cbv zeta. eexists (_ :: new). rewrite Heq, Hk, <- app_assoc. cbn [app length].
      split; [done|]. split; [lia|]. split; [lia|]. split; [|split].
      * constructor; [by split|done].
      * intros Hlt. replace (i + S (length new))%nat with (S i + length new)%nat by lia.
        apply Hstop. lia.
      * intros [|j] Hj; [by rewrite Nat.add_0_r|].
        replace (i + S j)%nat with (S i + j)%nat by lia. apply Hunder. lia.
    + exists []. rewrite app_nil_r. cbn [fst snd length].
      split; [done|]. split; [lia|]. split; [lia|]. split; [constructor|].
      split; [intros _; by rewrite Nat.add_0_r | intros j Hj; lia].
Qed.

(** What [emit] appends, and when its loop stops. *)
Lemma emit_spec particles k x y intensity velocity type :
  let r := ParticleSystem.emit Math_sin Math_cos Math_floor Math_random particles k x y
             intensity velocity type in
  let count :=
    match type with
    | emit_cloud => 5 + Math_floor (intensity * 10)
    | emit_stream => 5
    | emit_default => 2 + Math_floor (intensity * 8)
    end in
  ∃ new, r.1 = particles ++ new
    ∧ (length new ≤ ParticleSystem.maxParticles - length particles)%nat
    ∧ r.2 = (k + 5 * length new)%nat
    ∧ Forall (λ p, Particle.life p = emittedLife type ∧ Particle.maxLife p = emittedLife type) new
    ∧ ((length new < ParticleSystem.maxParticles - length particles)%nat →
       (ofNat (length new) <? count) = false)
    ∧ (∀ j, (j < length new)%nat → (ofNat j <? count) = true).
Proof.
  unfold ParticleSystem.emit.
  destruct (Nat.leb_spec ParticleSystem.maxParticles (length particles)) as [Hfull|Hroom].
  { exists []. rewrite app_nil_r.
    destruct type; cbn [fst snd length]; (split; [done|]); (split; [lia|]); (split; [lia|]);
      (split; [constructor|]); (split; [lia|]); intros j Hj; lia. }
  destruct type; cbv zeta;
    match goal with
    | |- context [ParticleSystem.emitLoop _ _ _ ?room ?i ?count ?x ?y ?it ?v ?ty ?sp ?sm ?lm ?ps ?k] =>
        destruct (emitLoop_spec room i count x y it v ty sp sm lm ps k)
          as (new & Heq & Hlen & Hk & Hlife & Hstop & Hunder)
    end; by exists new.
Qed.

(** The loop of [update], run backwards over the first [n] particles: the
    ones it keeps, stepped, then the rest as it was. *)
Lemma updateLoop_spec front back k :
  ParticleSystem.updateLoop Math_random (length front) (front ++ back) k
  = (filter alive (stepAll Math_random front k) ++ back, (k + 2 * length front)%nat).
Proof.
  revert back k. induction front as [|p front IH] using rev_ind; intros back k.
  { simpl. by rewrite Nat.add_0_r. }
  rewrite length_app, Nat.add_1_r. cbn [ParticleSystem.updateLoop].
  rewrite <- app_assoc. cbn [app].
  rewrite (list_lookup_middle front back p (length front) eq_refl).
  assert (Hstep : ∀ l j, stepAll Math_random (l ++ [p]) j
            = stepAll Math_random l (j + 2) ++ [ParticleSystem.stepParticle Math_random p j]).
  { clear. induction l as [|q l IH]; intros j; cbn [stepAll app length].
    - by rewrite Nat.add_0_r.
    - rewrite IH, length_app. cbn [length]. do 2 f_equal. lia. }
  rewrite Hstep, filter_app.
  destruct (Particle.life (ParticleSystem.stepParticle Math_random p k) <=? 0) eqn:Hdead.
  - rewrite (delete_middle front back p), IH.
    rewrite filter_cons_False by (unfold alive; rewrite Hdead; naive_solver).
    rewrite filter_nil, app_nil_r. f_equal. lia.
  - replace (<[length front := ParticleSystem.stepParticle Math_random p k]> (front ++ p :: back))
      with (front ++ ParticleSystem.stepParticle Math_random p k :: back).
    2: { rewrite insert_app_r_alt by done. by rewrite Nat.sub_diag. }
    rewrite IH.
    rewrite filter_cons_True by (unfold alive; by rewrite Hdead).
    rewrite filter_nil, <- app_assoc. cbn [app]. f_equal. lia.
Qed.

End Particles.

(** The loop counter of [emit], a number, grows with the turns: below the
    cap of 1500 the conversion of naturals to numbers is increasing. *)
Lemma ofNat_lt_succ (n : nat) : (n < 1500)%nat → (ofNat n <? ofNat (S n)) = true.
Proof.
  intros Hn.
  assert (Htable : forallb (λ n, ofNat n <? ofNat (S n)) (seq 0 1500) = true)
    by (vm_compute; reflexivity).
  apply (proj1 (forallb_forall _ _) Htable). apply in_seq. lia.
Qed.

Lemma ofNat_mono (j c : nat) : (j < c)%nat → (c ≤ 1500)%nat → (ofNat j <? ofNat c) = true.
Proof.
  intros Hjc Hc. induction c as [|c IH]; [lia|].
  destruct (decide (j = c)) as [->|Hne].
  - apply ofNat_lt_succ. lia.
  - eapply ltb_trans; [apply IH; lia | apply ofNat_lt_succ; lia].
Qed.

(** X17: [emit] only appends, and never past the cap.  With 1500 particles
    or more it does nothing and draws no random number; otherwise it
    appends one particle for each of the turns 0, 1, ... of its loop, for as
    long as the turn is under [count] and the list is short of 1500, five
    random numbers a particle, each particle with the life of its type (1.5
    for a cloud, 0.8 for a stream, 1 otherwise).  [count] is
    5 + floor(intensity * 10) for a cloud, 5 for a stream and
    2 + floor(intensity * 8) otherwise; when it is the whole number [c], the
    call appends [c] particles, or as many as the cap leaves room for. *)
Theorem emit_within_cap (Math_sin Math_cos Math_floor : number -> number)
    (Math_random : nat -> number) (particles : list Particle.t) (k : nat)
    (x y intensity : number) (velocity : number * number) (type : EmitType) :
  let r := ParticleSystem.emit Math_sin Math_cos Math_floor Math_random particles k x y
             intensity velocity type in
  let room := (ParticleSystem.maxParticles - length particles)%nat in
  let count :=
    match type with
    | emit_cloud => 5 + Math_floor (intensity * 10)
    | emit_stream => 5
    | emit_default => 2 + Math_floor (intensity * 8)
    end in
  ∃ new, r.1 = particles ++ new
    ∧ (length new ≤ room)%nat
    ∧ r.2 = (k + 5 * length new)%nat
    ∧ Forall (λ p, Particle.life p = emittedLife type ∧ Particle.maxLife p = emittedLife type) new
    ∧ (∀ j, (j < length new)%nat → (ofNat j <? count) = true)
    ∧ ((length new < room)%nat → (ofNat (length new) <? count) = false)
    ∧ (∀ c, (c ≤ ParticleSystem.maxParticles)%nat → count = ofNat c →
         length new = Nat.min c room)
    ∧ (type = emit_stream → length new = Nat.min 5 room)
    ∧ emittedLife emit_cloud = 1.5 ∧ emittedLife emit_stream = 0.8 ∧ emittedLife emit_default = 1.
Proof.
  intros r room count.
  destruct (emit_spec Math_sin Math_cos Math_floor Math_random particles k x y intensity
              velocity type) as (new & Heq & Hlen & Hk & Hlife & Hstop & Hunder).
  cbv zeta in Hstop, Hunder. fold count in Hstop, Hunder. fold room in Hstop, Hlen.
  assert (Hcount : ∀ c, (c ≤ ParticleSystem.maxParticles)%nat → count = ofNat c →
                     length new = Nat.min c room).
  { intros c Hc Hcount. rewrite Hcount in Hstop, Hunder.
    assert (Hle : (length new ≤ c)%nat).
    { destruct (Nat.le_gt_cases (length new) c) as [|Hgt]; [done|].
      pose proof (Hunder c Hgt) as Habs. by rewrite ltb_irrefl in Habs. }
    destruct (Nat.le_gt_cases room (length new)) as [Hfull|Hshort]; [lia|].
    specialize (Hstop Hshort).
    destruct (Nat.le_gt_cases c (length new)) as [|Hgt]; [lia|].
    rewrite (ofNat_mono (length new) c Hgt Hc) in Hstop. discriminate Hstop. }
  exists new. do 6 (split; [done|]). split; [done|]. split; [|by repeat split].
  intros ->. apply (Hcount 5%nat); [unfold ParticleSystem.maxParticles; lia | reflexivity].
Qed.

Lemma emit_within_cap_witness :
  length (ParticleSystem.emit sampleSin sampleCos sampleFloor sampleRandom [] 0
            100 100 0.05 (0, 0) emit_cloud).1 = 5%nat
  ∧ length (ParticleSystem.emit sampleSin sampleCos sampleFloor sampleRandom
              (replicate 1497 (Particle.mk 0 0 0 0 1 1 2 200)) 0
              100 100 0.05 (0, 0) emit_cloud).1 = 1500%nat.
Proof.
  split.
  - destruct (emit_within_cap sampleSin sampleCos sampleFloor sampleRandom [] 0
                100 100 0.05 (0, 0) emit_cloud)
      as (new & Heq & _ & _ & _ & _ & _ & Hcount & _).
    rewrite Heq, length_app, (Hcount 5%nat); [reflexivity | vm_compute; lia | reflexivity].
  - destruct (emit_within_cap sampleSin sampleCos sampleFloor sampleRandom
                (replicate 1497 (Particle.mk 0 0 0 0 1 1 2 200)) 0
                100 100 0.05 (0, 0) emit_cloud)
      as (new & Heq & _ & _ & _ & _ & _ & Hcount & _).
    rewrite Heq, length_app, (Hcount 5%nat), length_replicate;
      [reflexivity | vm_compute; lia | reflexivity].
Defined.

(** X18: the backwards loop of [update], with its removals in place, is a
    filter: every particle is stepped once (moved by its velocity, slowed
    by 0.95, jittered, aged by 0.015), the last one first, and the list
    that comes out is the stepped list without the particles whose life is
    not above 0, in the order they had.  Two random numbers are drawn for
    each particle, removed or not. *)
Theorem update_is_filter (Math_random : nat -> number) (particles : list Particle.t) (k : nat) :
  ParticleSystem.update Math_random particles k
  = (filter alive (stepAll Math_random particles k), (k + 2 * length particles)%nat)
  ∧ (length (ParticleSystem.update Math_random particles k).1 ≤ length particles)%nat
  ∧ Forall (λ p, (Particle.life p <=? 0) = false) (ParticleSystem.update Math_random particles k).1.
Proof.
  assert (Heq : ParticleSystem.update Math_random particles k
                = (filter alive (stepAll Math_random particles k), (k + 2 * length particles)%nat)).
  { unfold ParticleSystem.update.
    pose proof (updateLoop_spec Math_random particles [] k) as Hloop.
    by rewrite !app_nil_r in Hloop. }
  split; [done|]. rewrite Heq. cbn [fst]. split.
  - etrans; [apply length_filter|].
    clear. generalize k. induction particles as [|p ps IH]; intros j; [done|].
    cbn [stepAll length]. specialize (IH j). lia.
  - apply Forall_forall. intros p Hp. apply list_elem_of_filter in Hp as [Halive _].
    unfold alive in Halive. by destruct (_ <=? _).
Qed.

(** ** How long a particle lives *)

Local Abbreviation aged := (λ l : number, l - 0.015).
Local Abbreviation positive := (λ l : number, negb (l <=? 0)).

Lemma filter_cons_bool {A} (q : A → bool) (a : A) (l : list A) :
  filter q (a :: l) = if q a then a :: filter q l else filter q l.
Proof.
  destruct (q a) eqn:E.
  - rewrite filter_cons_True; [done|]. rewrite E. exact I.
  - rewrite filter_cons_False; [done|]. rewrite E. exact id.
Qed.

Lemma stepAll_lifes Math_random particles k :
  Particle.life <$> filter alive (stepAll Math_random particles k)
  = filter positive (aged <$> (Particle.life <$> particles)).
Proof.
  induction particles as [|p ps IH]; [done|].
  cbn [stepAll]. rewrite !fmap_cons, !filter_cons_bool. unfold alive at 1.
  cbn [ParticleSystem.stepParticle Particle.life].
  destruct (negb _); [|done]. by rewrite fmap_cons, IH.
Qed.

Lemma survives_S n l : survives (S n) l = survives n l && positive (lifeAfter (S n) l).
Proof.
  unfold survives. replace (seq 1 (S n)) with (seq 1 n ++ [S n]).
  - rewrite forallb_app. cbn [forallb]. by rewrite andb_true_r.
  - by rewrite seq_S.
Qed.

Lemma lifes_tick n (lifes : list number) :
  filter positive (aged <$> (lifeAfter n <$> filter (survives n) lifes))
  = lifeAfter (S n) <$> filter (survives (S n)) lifes.
Proof.
  induction lifes as [|l lifes IH]; [done|].
  rewrite !filter_cons_bool, survives_S.
  destruct (survives n l); cbn [andb]; [|done].
  rewrite !fmap_cons, filter_cons_bool. change (aged (lifeAfter n l)) with (lifeAfter (S n) l).
  destruct (negb _); [|done]. by rewrite fmap_cons, IH.
Qed.

(** X19: how long a particle lives is decided at its birth.  After [n]
    ticks the lives in the list are those of the particles that stayed
    above 0 at each of the ticks, each aged [n] times by 0.015, in their
    order, whatever the random numbers; so a cloud particle (life 1.5) is
    in the list for 100 ticks and removed by tick 101, a default one (life
    1) for 66 and a stream one (life 0.8) for 53. *)
Theorem particle_lifetime (Math_random : nat -> number) (n : nat)
    (particles : list Particle.t) (k : nat) :
  Particle.life <$> (updates Math_random n (particles, k)).1
  = lifeAfter n <$> filter (survives n) (Particle.life <$> particles)
  ∧ survives 100 (emittedLife emit_cloud) = true
  ∧ survives 101 (emittedLife emit_cloud) = false
  ∧ survives 66 (emittedLife emit_default) = true
  ∧ survives 67 (emittedLife emit_default) = false
  ∧ survives 53 (emittedLife emit_stream) = true
  ∧ survives 54 (emittedLife emit_stream) = false.
Proof.
  split; [|by vm_compute].
  induction n as [|n IH].
  - change (Particle.life <$> particles
            = lifeAfter 0 <$> filter (survives 0) (Particle.life <$> particles)).
    generalize (Particle.life <$> particles).
    intros lifes. induction lifes as [|l lifes IHl]; [by rewrite filter_nil|].
    rewrite filter_cons_bool. change (survives 0 l) with true. cbn iota.
    rewrite fmap_cons, <- IHl. done.
  - unfold updates in *. rewrite Nat.iter_succ.
    destruct (Nat.iter n _ (particles, k)) as [ps' k'] eqn:Hiter. cbn [fst snd] in *.
    unfold ParticleSystem.update.
    pose proof (updateLoop_spec Math_random ps' [] k') as Hloop.
    rewrite !app_nil_r in Hloop. rewrite Hloop. cbn [fst].
    by rewrite stepAll_lifes, IH, lifes_tick.
Qed.

(** ** The invariant of the frame loop *)

Section FrameInvariant.

Variables (Math_sin Math_cos Math_floor : number -> number).
Variables (Math_hypot Math_atan2 : number -> number -> number).
Variable Math_random : nat -> number.

Local Abbreviation runFrame :=
  (runFrameCall Math_sin Math_cos Math_floor Math_hypot Math_atan2 Math_random).

Lemma runFrameCall_sound w c : worldSound w → worldSound (runFrame w c).
Proof.
  intros (Hrefs & Hdraw & Hsprings & Hheld & Hcap).
  destruct c as [op|x y intensity velocity type|].
  - pose proof (runFrameCall_soft Math_sin Math_cos Math_floor Math_hypot Math_atan2 Math_random
                  w op) as Hsoft.
    pose proof (runOp_refsValid Math_sin Math_cos Math_hypot Math_atan2 Math_random
                  (w.1.1, w.2) op Hrefs) as Hrefs'.
    pose proof (runOp_drawable Math_sin Math_cos Math_hypot Math_atan2 Math_random
                  (w.1.1, w.2) op Hdraw) as Hdraw'.
    destruct (runOp_uniqueKeys Math_sin Math_cos Math_hypot Math_atan2 Math_random
                (w.1.1, w.2) op Hsprings Hheld) as [Hsprings' Hheld'].
    unfold worldSound. rewrite Hsoft. do 4 (split; [done|]).
    destruct w as [[sb ps] k]. cbn [runFrameCall fst snd] in *.
    by destruct (runOp _ _ _ _ _ _ _).
  - destruct w as [[sb ps] k]. unfold worldSound. cbn [runFrameCall fst snd] in *.
    destruct (emit_spec Math_sin Math_cos Math_floor Math_random ps k x y intensity velocity type)
      as (new & Heq & Hlen & _).
    destruct (ParticleSystem.emit _ _ _ _ _ _ _ _ _ _ _) as [ps' k']. cbn [fst snd] in *.
    do 4 (split; [done|]). rewrite Heq, length_app. lia.
  - destruct w as [[sb ps] k]. unfold worldSound. cbn [runFrameCall fst snd] in *.
    pose proof (updateLoop_spec Math_random ps [] k) as Hloop. rewrite !app_nil_r in Hloop.
    unfold ParticleSystem.update. rewrite Hloop. cbn [fst snd].
    do 4 (split; [done|]). etrans; [apply length_filter|].
    assert (Hsame : ∀ l j, length (stepAll Math_random l j) = length l).
    { clear. induction l as [|p l IH]; intros j; [done|]. cbn [stepAll length]. by rewrite IH. }
    by rewrite Hsame.
Qed.

Lemma runFrame_sound calls w : worldSound w → worldSound (foldl runFrame w calls).
Proof.
  revert w. induction calls as [|c calls IH]; intros w Hw; [done|].
  cbn [foldl]. by apply IH, runFrameCall_sound.
Qed.

End FrameInvariant.

(** X20: the frame loop keeps its state sound.  If, before a frame, every
    object and spring refers to points of the store, every rigid body has a
    closed mesh, no hand has two springs or two hold records, and there are
    at most 1500 particles, then the same holds after the frame, whatever
    the hands, the face, the mode, the light and the random numbers. *)
Theorem frame_keeps_world_sound (Math_sin Math_cos Math_floor : number -> number)
    (Math_hypot Math_atan2 : number -> number -> number) (Math_random : nat -> number)
    (mode : VisualizerMode) (width height brightness : number)
    (prevHands hands : list (list Vector3.t)) (face : option (list Vector3.t))
    (w w' : World) (g : GlobalGesture.t) :
  predictWebcam Math_sin Math_cos Math_floor Math_hypot Math_atan2 Math_random
    mode width height brightness prevHands hands face w = Some (w', g) →
  worldSound w → worldSound w'.
Proof.
  intros Hframe Hw. unfold predictWebcam in Hframe.
  destruct (frameCalls _ _ _ _ _ _ _ _ _) as [[calls g']|]; [|done].
  cbn [mbind option_bind] in Hframe. injection Hframe as <- <-.
  by apply runFrame_sound.
Qed.

Lemma frame_keeps_world_sound_witness :
  ∃ w' g,
    predictWebcam sampleSin sampleCos sampleFloor sampleHypot sampleAtan2 sampleRandom
      mode_all 800 600 0.5 [] [openHand; pinchHand] (Some sampleFace)
      (plantScene, [], 0%nat)
    = Some (w', g)
    ∧ worldSound w' ∧ length w'.1.2 = 5%nat.
Proof.
  destruct (predictWebcam sampleSin sampleCos sampleFloor sampleHypot sampleAtan2 sampleRandom
              mode_all 800 600 0.5 [] [openHand; pinchHand] (Some sampleFace)
              (plantScene, [], 0%nat)) as [[w' g]|] eqn:Hframe; [|discriminate Hframe].
  exists w', g. split; [done|]. split.
  - refine (frame_keeps_world_sound _ _ _ _ _ _ _ _ _ _ _ _ _ _ _ _ Hframe _).
    split; [|split; [constructor|split; [apply NoDup_nil_2|split; [apply NoDup_nil_2|simpl; lia]]]].
    split; [|constructor]. repeat constructor; cbn; lia.
  - vm_compute in Hframe. by injection Hframe as <- _.
Defined.

(** ** A pinch keeps its point *)

(** X21: a hand that already has a spring keeps its point for as long as
    it pinches: the call moves the anchor of the spring to the pinch
    position and looks at no other point, however near; it moves no point,
    and leaves the objects, the bodies and the springs of the other hands
    as they are.  The point changes only after the hand has let go. *)
Theorem pinch_is_sticky (s : SoftBodySystem.t) (handId : nat) (x y : number)
    (spring : Spring.t) :
  JsMap.get handId (SoftBodySystem.mouseSprings s) = Some spring →
  let s' := handleInteraction s handId x y true in
  JsMap.get handId (SoftBodySystem.mouseSprings s') = Some (Spring.mk (Spring.point spring) x y)
  ∧ (∀ k, k ≠ handId →
       JsMap.get k (SoftBodySystem.mouseSprings s') = JsMap.get k (SoftBodySystem.mouseSprings s))
  ∧ (SoftBodySystem.mouseSprings s').*1 = (SoftBodySystem.mouseSprings s).*1
  ∧ SoftBodySystem.set_mouseSprings s' (SoftBodySystem.mouseSprings s) = s.
Proof.
  intros Hget s'. subst s'. unfold handleInteraction.
  assert (Hhas : JsMap.has handId (SoftBodySystem.mouseSprings s) = true)
    by (unfold JsMap.has; by rewrite Hget).
  rewrite Hhas. cbn [negb]. rewrite Hget.
  destruct s as [store objs bodies springs held g d gf it st bt horns time]. simpl in *.
  split; [apply JsMap_get_set_eq|]. split; [intros k Hk; by apply JsMap_get_set_ne|].
  split; [|done]. by rewrite JsMap_set_keys, Hhas.
Qed.

Lemma pinch_is_sticky_witness :
  JsMap.get 0 (SoftBodySystem.mouseSprings (handleInteraction pinchedScene 0 700 500 true))
  = Some (Spring.mk 0 700 500).
Proof. exact (proj1 (pinch_is_sticky pinchedScene 0 700 500 _ eq_refl)). Defined.

(** ** Repelling particles *)

Section Repel.

Variable Math_random : nat -> number.
Variables (x y radius strength : number).

Lemma repelOne_spec p k :
  let r := ParticleSystem.repelOne Math_random x y radius strength p k in
  let distSq := (Particle.x p - x) * (Particle.x p - x) + (Particle.y p - y) * (Particle.y p - y) in
  Particle.x r.1 = Particle.x p ∧ Particle.y r.1 = Particle.y p
  ∧ Particle.life r.1 = Particle.life p ∧ Particle.maxLife r.1 = Particle.maxLife p
  ∧ Particle.size r.1 = Particle.size p ∧ Particle.hue r.1 = Particle.hue p
  ∧ ((distSq <? radius * radius) = false ∨ (distSq >? 0.1) = false → r = (p, k)).
Proof.
  unfold ParticleSystem.repelOne. cbv zeta.
  destruct (_ <? radius * radius) eqn:Hin; destruct (0.1 <? _) eqn:Hout; cbn;
    repeat split; try done; intros [?|?]; done.
Qed.

End Repel.

(** X22: [repel] changes velocities only, and only inside the ring: every
    particle keeps its place in the list, its position, its life, its size
    and its hue, and a particle whose squared distance to the centre is not
    under the squared radius, or not over 0.1, is left exactly as it is, so
    a particle at the centre is never divided by its zero distance. *)
Theorem repel_keeps_positions (Math_random : nat -> number) (particles : list Particle.t)
    (k : nat) (x y radius strength : number) :
  let r := ParticleSystem.repel Math_random particles k x y radius strength in
  length r.1 = length particles
  ∧ ∀ i p, particles !! i = Some p →
      ∃ p', r.1 !! i = Some p'
        ∧ Particle.x p' = Particle.x p ∧ Particle.y p' = Particle.y p
        ∧ Particle.life p' = Particle.life p ∧ Particle.size p' = Particle.size p
        ∧ Particle.hue p' = Particle.hue p
        ∧ (((Particle.x p - x) * (Particle.x p - x) + (Particle.y p - y) * (Particle.y p - y)
              <? radius * radius) = false
           ∨ ((Particle.x p - x) * (Particle.x p - x) + (Particle.y p - y) * (Particle.y p - y)
              >? 0.1) = false →
           p' = p).
Proof.
  cbv zeta. revert k. induction particles as [|q ps IH]; intros k.
  { split; [done|]. by intros i p. }
  cbn [ParticleSystem.repel].
  pose proof (repelOne_spec Math_random x y radius strength q k) as Hone. cbv zeta in Hone.
  destruct (ParticleSystem.repelOne _ _ _ _ _ q k) as [q' k'].
  specialize (IH k'). destruct (ParticleSystem.repel _ ps k' _ _ _ _) as [ps' k''].
  cbn [fst snd] in *. destruct IH as [Hlen Hlook]. split; [by rewrite !length_cons, Hlen|].
  intros [|i] p Hi; simpl in Hi.
  - injection Hi as <-. exists q'. destruct Hone as (Hx & Hy & Hl & _ & Hs & Hh & Hfar).
    do 6 (split; [done|]). intros Hout. by injection (Hfar Hout).
  - by apply Hlook.
Qed.
